(** * FATORI-V fault-injection framework: protocol/session engine

    A shallow embedding of the parts of the controller that the
    specification makes claims about:

    - [PyStr], [Regex]        : the string and [re] operations the code uses;
    - [AckTracker]            : [fi/fault_injection.py], class [_AckTracker];
    - [Injector]              : [fi/core/injector.py], [_parse_inject_ack];
    - [Py]                    : keyword-argument values and interpreter built-ins;
    - [AreaBase], [AddressList] : [fi/area/base.py], [fi/area/address_list.py];
    - [TimeBase], [Uniform]   : [fi/time/base.py], [fi/time/uniform.py];
    - [Watcher]               : [fi/fault_injection.py], [_profile_watcher];
    - [RateCap]               : [fi/fault_injection.py], rate reconciliation.

    Conventions.  A Python [str] is a Rocq [string]; its characters are the
    code points below 256.  A [dict] is a [gmap]; keyword arguments, whose
    insertion order matters for key normalisation, are association lists.
    A [float] is an element of an abstract arithmetic in the scheduler and
    an IEEE binary64 number, Rocq's primitive [float], in the rate
    computations and in the constructor of the uniform profile.  Loops that wait on the clock or
    on a flag take fuel; the outside world is a set of functions of the
    number of observations made so far. *)

From Stdlib Require Import ZArith NArith QArith Lqa Bool List Ascii String Lia.
From Stdlib Require Floats.
From stdpp Require Import gmap strings list pretty.
Import ListNotations.

Open Scope string_scope.
Open Scope list_scope.

(* ===================================================================== *)
(** ** Python string operations *)
(* ===================================================================== *)

Module PyStr.

Definition code (c : ascii) : N := N_of_ascii c.

Definition in_range (lo hi : N) (c : ascii) : bool :=
  ((lo <=? code c) && (code c <=? hi))%N.

(** [str.isspace] on one character, which is also what [\s] matches in a
    [str] pattern: TAB..CR, FS..US, space, NEL and NBSP. *)
Definition isspace (c : ascii) : bool :=
  in_range 9 13 c || in_range 28 32 c || (code c =? 133)%N || (code c =? 160)%N.

Definition is_digit (c : ascii) : bool := in_range 48 57 c.
Definition is_upper_hex (c : ascii) : bool := in_range 65 70 c.
Definition is_lower_hex (c : ascii) : bool := in_range 97 102 c.

(** The character class [[0-9A-Fa-f]]. *)
Definition is_hex (c : ascii) : bool :=
  is_digit c || is_upper_hex c || is_lower_hex c.

Definition shift_up (c : ascii) : ascii := ascii_of_N (code c + 32).
Definition shift_down (c : ascii) : ascii := ascii_of_N (code c - 32).

(** [str.lower] on one character: A-Z and the Latin-1 capitals
    (U+00C0..U+00DE except the multiplication sign U+00D7). *)
Definition lower_char (c : ascii) : ascii :=
  if in_range 65 90 c then shift_up c
  else if in_range 192 222 c && negb (code c =? 215)%N then shift_up c
  else c.

(** [str.upper] on one ASCII character.  The code applies [upper] only to
    strings that matched [[0-9A-Fa-f]{10}]; characters outside ASCII,
    which never reach it, are left as they are. *)
Definition upper_char (c : ascii) : ascii :=
  if in_range 97 122 c then shift_down c else c.

Fixpoint map_chars (f : ascii -> ascii) (s : string) : string :=
  match s with
  | EmptyString => EmptyString
  | String c s' => String (f c) (map_chars f s')
  end.

Definition lower (s : string) : string := map_chars lower_char s.
Definition upper (s : string) : string := map_chars upper_char s.

Fixpoint lstrip (s : string) : string :=
  match s with
  | String c s' => if isspace c then lstrip s' else s
  | EmptyString => EmptyString
  end.

(** [rstrip] keeps a character when it is not a space or when something
    remains to its right after stripping. *)
Fixpoint rstrip (s : string) : string :=
  match s with
  | EmptyString => EmptyString
  | String c s' =>
      match rstrip s' with
      | EmptyString => if isspace c then EmptyString else String c EmptyString
      | r => String c r
      end
  end.

Definition strip (s : string) : string := rstrip (lstrip s).

Definition startswith (p s : string) : bool := String.prefix p s.

Fixpoint forallb_str (p : ascii -> bool) (s : string) : bool :=
  match s with
  | EmptyString => true
  | String c s' => p c && forallb_str p s'
  end.

(** Value of one hexadecimal digit. *)
Definition hex_val (c : ascii) : option N :=
  if is_digit c then Some (code c - 48)%N
  else if is_upper_hex c then Some (code c - 55)%N
  else if is_lower_hex c then Some (code c - 87)%N
  else None.

Fixpoint int16_from (acc : N) (s : string) : option N :=
  match s with
  | EmptyString => Some acc
  | String c s' =>
      match hex_val c with
      | Some d => int16_from (16 * acc + d)%N s'
      | None => None
      end
  end.

(** [int(s, 16)] on a string of plain hexadecimal digits; [None] stands
    for [ValueError]. *)
Definition int16 (s : string) : option N :=
  match s with
  | EmptyString => None
  | _ => int16_from 0%N s
  end.

End PyStr.

(* ===================================================================== *)
(** ** Regular expressions, matched by derivatives *)
(* ===================================================================== *)

Module Regex.

Inductive regex : Type :=
| Nul : regex                          (* matches nothing *)
| Eps : regex                          (* matches the empty string *)
| Cls : (ascii -> bool) -> regex       (* one character of a class *)
| Cat : regex -> regex -> regex
| Alt : regex -> regex -> regex
| Star : regex -> regex.

Fixpoint nullable (r : regex) : bool :=
  match r with
  | Nul => false
  | Eps => true
  | Cls _ => false
  | Cat r1 r2 => nullable r1 && nullable r2
  | Alt r1 r2 => nullable r1 || nullable r2
  | Star _ => true
  end.

Fixpoint deriv (c : ascii) (r : regex) : regex :=
  match r with
  | Nul => Nul
  | Eps => Nul
  | Cls p => if p c then Eps else Nul
  | Cat r1 r2 =>
      if nullable r1 then Alt (Cat (deriv c r1) r2) (deriv c r2)
      else Cat (deriv c r1) r2
  | Alt r1 r2 => Alt (deriv c r1) (deriv c r2)
  | Star r1 => Cat (deriv c r1) (Star r1)
  end.

(** The whole of [s] is a word of [r]. *)
Fixpoint fullmatch (r : regex) (s : string) : bool :=
  match s with
  | EmptyString => nullable r
  | String c s' => fullmatch (deriv c r) s'
  end.

Definition chr (c : ascii) : regex := Cls (Ascii.eqb c).
Definition plus (r : regex) : regex := Cat r (Star r).
Definition opt (r : regex) : regex := Alt r Eps.
Definition anything : regex := Star (Cls (fun _ => true)).

(** [\s], and a letter under [re.IGNORECASE]. *)
Definition ws : regex := Cls PyStr.isspace.
Definition chr_nocase (c : ascii) : regex :=
  Cls (fun x => Ascii.eqb (PyStr.lower_char x) (PyStr.lower_char c)).

(** A pattern's final [$] matches at the end of the string and just
    before a newline that ends it. *)
Definition dollar : regex := opt (chr "010").

(** Denotation, for reasoning. *)
Inductive lang : regex -> string -> Prop :=
| L_eps : lang Eps ""
| L_cls p c : p c = true -> lang (Cls p) (String c "")
| L_cat r1 r2 s1 s2 : lang r1 s1 -> lang r2 s2 -> lang (Cat r1 r2) (s1 +:+ s2)
| L_alt_l r1 r2 s : lang r1 s -> lang (Alt r1 r2) s
| L_alt_r r1 r2 s : lang r2 s -> lang (Alt r1 r2) s
| L_star_nil r : lang (Star r) ""
| L_star_cons r c s1 s2 :
    lang r (String c s1) -> lang (Star r) s2 -> lang (Star r) (String c s1 +:+ s2).

End Regex.

(* ===================================================================== *)
(** ** Acknowledgement tracker ([_AckTracker]) *)
(* ===================================================================== *)

Module AckTracker.
Import Regex.

(** [_RE_SC = re.compile(r'^SC\s+([0-9A-Fa-f]{2})$')] *)
Definition _RE_SC : regex :=
  Cat (chr "S") (Cat (chr "C") (Cat (plus ws)
    (Cat (Cls PyStr.is_hex) (Cat (Cls PyStr.is_hex) dollar)))).

(** [s] without the newline that may end it. *)
Fixpoint chomp (s : string) : string :=
  match s with
  | EmptyString => EmptyString
  | String c rest =>
      match rest with
      | EmptyString => if Ascii.eqb c "010" then EmptyString else s
      | String _ _ => String c (chomp rest)
      end
  end.

(** The last two characters of [s]. *)
Fixpoint last_two (s : string) : string :=
  match s with
  | String _ (String _ (String _ _) as rest) => last_two rest
  | _ => s
  end.

(** [_RE_SC.match(line)]: [Some g] with [g = m.group(1)], the two
    characters that end the match before the newline [$] allows, or
    [None]. *)
Definition match_SC (line : string) : option string :=
  if fullmatch _RE_SC line then Some (last_two (chomp line)) else None.

(** [_pending], and the flag of the [threading.Event] [_event]. *)
Record t : Type := mk { pending : bool; event : bool }.

Definition init : t := {| pending := false; event := false |}.

Definition start (s : t) : t := {| pending := true; event := false |}.

Definition on_rx (line : string) (s : t) : bool * t :=
  if negb (pending s) then (false, s)
  else match match_SC line with
       | None => (false, s)
       | Some g =>
           match PyStr.int16 g with
           | None => (false, s)
           | Some val =>
               if (val =? 0)%N
               then (true, {| pending := false; event := true |})
               else (false, s)
           end
       end.

(** [wait(timeout_s)] returns the event's flag as it is when the call
    returns (set meanwhile, or still clear when the timeout elapses). *)
Definition wait (timeout_s : Q) (s : t) : bool * t := (event s, s).

(** Calls on one tracker, in the order its lock serialises them; a [wait]
    stands where it returns. *)
Inductive op : Type :=
| Start : op
| Rx : string -> op
| Wait : Q -> op.

Definition step (o : op) (s : t) : option bool * t :=
  match o with
  | Start => (None, start s)
  | Rx line => let '(b, s') := on_rx line s in (Some b, s')
  | Wait tm => let '(b, s') := wait tm s in (Some b, s')
  end.

Fixpoint run (ops : list op) (s : t) : list (option bool) * t :=
  match ops with
  | [] => ([], s)
  | o :: ops' =>
      let '(r, s1) := step o s in
      let '(rs, s2) := run ops' s1 in
      (r :: rs, s2)
  end.

(** Feeding received lines, as the RX printer does line by line. *)
Fixpoint feed (lines : list string) (s : t) : list bool * t :=
  match lines with
  | [] => ([], s)
  | ln :: rest =>
      let '(b, s1) := on_rx ln s in
      let '(bs, s2) := feed rest s1 in
      (b :: bs, s2)
  end.

Definition resolutions (lines : list string) (s : t) : nat :=
  count_occ bool_dec (fst (feed lines s)) true.

(** The line is a status-code reply with value [v]. *)
Definition sc_value (line : string) : option N :=
  match match_SC line with
  | Some g => PyStr.int16 g
  | None => None
  end.

Definition is_sc00 (line : string) : bool :=
  match sc_value line with Some v => (v =? 0)%N | None => false end.

End AckTracker.

(* ===================================================================== *)
(** ** Blocking injection helper ([fi/core/injector.py]) *)
(* ===================================================================== *)

Module Injector.
Import Regex.

(** [_RE_SC_LINE = re.compile(r'^SC\s+([0-9A-Fa-f]{2})$')], the same
    pattern as the tracker's. *)
Definition match_SC_LINE (line : string) : option string :=
  AckTracker.match_SC line.

(** [_RE_ECHO_N = re.compile(r'^[IOD]>\s+N\s', re.IGNORECASE)]; [match]
    anchors at the start only, so anything may follow. *)
Definition _RE_ECHO_N : regex :=
  Cat (Alt (chr_nocase "I") (Alt (chr_nocase "O") (chr_nocase "D")))
    (Cat (chr ">") (Cat (plus ws) (Cat (chr_nocase "N") (Cat ws anything)))).

Definition match_ECHO_N (line : string) : bool := fullmatch _RE_ECHO_N line.

(** One turn of the loop of [_parse_inject_ack] on the flags
    [(echo, sc10, sc00)]. *)
Definition parse_step (flags : bool * bool * bool) (ln : string)
  : bool * bool * bool :=
  let '(echo, sc10, sc00) := flags in
  let echo := if match_ECHO_N ln then true else echo in
  match match_SC_LINE ln with
  | None => (echo, sc10, sc00)
  | Some g =>
      match PyStr.int16 g with
      | None => (echo, sc10, sc00)
      | Some val =>
          if (val =? 16)%N then (echo, true, sc00)
          else if (val =? 0)%N then (echo, sc10, true)
          else (echo, sc10, sc00)
      end
  end.

Definition _parse_inject_ack (lines : list string) : bool * bool * bool :=
  fold_left parse_step lines (false, false, false).

End Injector.

(* ===================================================================== *)
(** ** Vocabulary for the acknowledgement claims *)
(* ===================================================================== *)

Module AckProtocol.

(** An injection echo, for [_RE_ECHO_N]. *)
Definition is_echo (line : string) : bool := Injector.match_ECHO_N line.

(** A status-code reply [SC 10]. *)
Definition is_sc10 (line : string) : bool :=
  match AckTracker.sc_value line with Some v => (v =? 16)%N | None => false end.

(** Some lines of [lines] satisfy the tests [ps], one each and in the
    order of [ps]. *)
Fixpoint in_order (ps : list (string -> bool)) (lines : list string) : bool :=
  match lines with
  | [] => match ps with [] => true | _ :: _ => false end
  | ln :: rest =>
      match ps with
      | [] => true
      | p :: ps' => if p ln then in_order ps' rest else in_order ps rest
      end
  end.

(** [true] at the first line that satisfies [p], [false] everywhere else. *)
Fixpoint first_hit (p : string -> bool) (lines : list string) : list bool :=
  match lines with
  | [] => []
  | ln :: rest =>
      if p ln then true :: map (fun _ => false) rest
      else false :: first_hit p rest
  end.

(** The tracker once an acknowledgement is resolved. *)
Definition resolved : AckTracker.t := AckTracker.mk false true.

(** Acknowledgement by echo and [10 -> 00] transition: a resolution is
    only ever signalled after an echo, an [SC 10] and an [SC 00] have come
    in this order. *)
Definition needs_echo_and_transition : Prop :=
  forall lines : list string,
    AckTracker.event (snd (AckTracker.feed lines (AckTracker.start AckTracker.init))) = true ->
    in_order [is_echo; is_sc10; AckTracker.is_sc00] lines = true.

End AckProtocol.

(* ===================================================================== *)
(** ** Python values and runtime services *)
(* ===================================================================== *)

Module Py.

(** The values keyword arguments carry. *)
Inductive value : Type :=
| PNone : value
| PStr : string -> value
| PInt : Z -> value.

(** [str(v)] *)
Definition str (v : value) : string :=
  match v with
  | PNone => "None"
  | PStr s => s
  | PInt z => pretty z
  end.

(** Truth value of [v], as [not v] tests it. *)
Definition truthy (v : value) : bool :=
  match v with
  | PNone => false
  | PStr s => negb (String.eqb s "")
  | PInt z => negb (z =? 0)%Z
  end.

Definition is_str (v : value) : bool :=
  match v with PStr _ => true | _ => false end.

(** What seeds a [random.Random]: the integer given, or, for [None],
    whatever the operating system supplies. *)
Inductive seed_source : Type :=
| Seeded : Z -> seed_source
| FromOS : N -> seed_source.

(** Built-ins of the interpreter that the code calls and this development
    does not define: [int(s)], [int(s, 0)] ([None] is [ValueError]) and
    [random.Random(seed).shuffle], about which only that it permutes its
    argument is used. *)
Class Runtime : Type := {
  int_of_str : string -> option Z;
  int_of_str_auto : string -> option Z;
  random_shuffle : seed_source -> list string -> list string;
  random_shuffle_perm : forall src l, Permutation (random_shuffle src l) l
}.

(** [dict.pop(key, default)] *)
Definition pop (key : string) (dflt : value) (d : gmap string value)
  : value * gmap string value :=
  (default dflt (d !! key), delete key d).

End Py.

(* ===================================================================== *)
(** ** Area profiles ([fi/area/base.py], [fi/area/address_list.py]) *)
(* ===================================================================== *)

Module AreaBase.
Import Py.

(** [load_addresses_file]: [raws] are the lines the text file yields. *)
Fixpoint load_addresses_file (raws : list string) : list string :=
  match raws with
  | [] => []
  | raw :: rest =>
      let s := PyStr.strip raw in
      if String.eqb s "" || PyStr.startswith "#" s
      then load_addresses_file rest
      else s :: load_addresses_file rest
  end.

(** [apply_ordering(addresses, order, seed)]; [os_entropy] seeds the
    generator when [seed] is [None]. *)
Definition apply_ordering `{Runtime} (addresses : list string) (order : string)
    (seed : option Z) (os_entropy : N) : list string :=
  let order := PyStr.lower (PyStr.strip (if String.eqb order "" then "sequential" else order)) in
  let out := addresses in
  if String.eqb order "shuffle"
  then random_shuffle (match seed with Some z => Seeded z | None => FromOS os_entropy end) out
  else out.

(** What a scheduler's [for addr in addr_it] asks of an area profile:
    the next address and the profile after yielding it, or the end. *)
Class AreaProfile (A : Type) : Type := {
  gen_next : A -> option (string * A)
}.

End AreaBase.

Module AddressList.
Import Py Regex AreaBase.

Definition name : string := "ADDRESS_LIST".

Definition _END_MESSAGES : gmap string string :=
  {[ "exhausted" := "Address list exhausted." ]}.

(** [r{n}] followed by [k]. *)
Fixpoint times (n : nat) (r : regex) (k : regex) : regex :=
  match n with
  | O => k
  | S n' => Cat r (times n' r k)
  end.

(** [_HEX10_RE = re.compile(r'^[0-9A-Fa-f]{10}$')] *)
Definition _HEX10_RE : regex := times 10 (Cls PyStr.is_hex) dollar.

(** [_norm_keys]: a later item overwrites an earlier one under the same
    normalised key. *)
Definition _norm_keys (d : list (string * value)) : gmap string value :=
  fold_left (fun m kv => <[PyStr.lower (PyStr.strip (fst kv)) := snd kv]> m) d ∅.

Definition _coerce_int `{Runtime} (v : value) (dflt : option Z) : option Z :=
  match v with
  | PNone => dflt
  | PInt z => Some z
  | PStr s =>
      match int_of_str s with
      | Some z => Some z
      | None =>
          match int_of_str_auto (PyStr.strip s) with
          | Some z => Some z
          | None => dflt
          end
      end
  end.

(** The [ValueError]s of the constructor. *)
Inductive error : Type :=
| PathRequired : error
| FileNotFound : string -> error
| InvalidLFA : nat -> string -> error
| ModeRequired : error.

(** The validation loop, [idx] counting from 1. *)
Fixpoint validate (idx : nat) (raw_addrs : list string) : error + list string :=
  match raw_addrs with
  | [] => inr []
  | line :: rest =>
      let s := PyStr.strip line in
      if fullmatch _HEX10_RE s
      then match validate (S idx) rest with
           | inr addrs => inr (PyStr.upper s :: addrs)
           | inl e => inl e
           end
      else inl (InvalidLFA idx line)
  end.

(** The loop over [(mode_val, order_val)]. *)
Fixpoint resolve_mode (candidates : list value) : option string :=
  match candidates with
  | [] => None
  | PNone :: rest => resolve_mode rest
  | candidate :: rest =>
      let s := PyStr.lower (PyStr.strip (Py.str candidate)) in
      if String.eqb s "sequential" || String.eqb s "random" then Some s
      else if String.eqb s "shuffle" then Some "random"
      else resolve_mode rest
  end.

Record profile : Type := mk {
  _addrs : list string;
  _idx : nat;
  _path : string;
  _mode : string;
  _seed : option Z
}.

(** [Profile.__init__].  [fs] maps a path to the lines of the
    regular file there. *)
Definition init `{Runtime} (fs : string -> option (list string))
    (kwargs : list (string * value)) (os_entropy : N) : error + profile :=
  let kw := _norm_keys kwargs in
  let '(file_val, kw) := pop "file" PNone kw in
  let '(path, kw) := pop "path" file_val kw in
  if negb (truthy path) || negb (is_str path) then inl PathRequired
  else
    let path := Py.str path in
    match fs path with
    | None => inl (FileNotFound path)
    | Some raws =>
        let raw_addrs := load_addresses_file raws in
        match validate 1 raw_addrs with
        | inl e => inl e
        | inr addrs =>
            let '(mode_val, kw) := pop "mode" PNone kw in
            let '(order_val, kw) := pop "order" PNone kw in
            match resolve_mode [mode_val; order_val] with
            | None => inl ModeRequired
            | Some canonical_mode =>
                let '(gseed_val, kw) := pop "global_seed" PNone kw in
                let '(seed_val, kw) := pop "seed" gseed_val kw in
                let seed := _coerce_int seed_val None in
                let base_order :=
                  if String.eqb canonical_mode "random" then "shuffle" else "sequential" in
                let ordered := apply_ordering addrs base_order seed os_entropy in
                inr {| _addrs := ordered; _idx := 0; _path := path;
                       _mode := canonical_mode; _seed := seed |}
            end
        end
    end.

Definition next_address (p : profile) : option string * profile :=
  if (length (_addrs p) <=? _idx p)%nat then (None, p)
  else match _addrs p !! _idx p with
       | Some out =>
           (Some out, {| _addrs := _addrs p; _idx := S (_idx p); _path := _path p;
                         _mode := _mode p; _seed := _seed p |})
       | None => (None, p)
       end.

(** One step of the generator [iter_addresses]. *)
Definition iter_addresses_next (p : profile) : option (string * profile) :=
  if (_idx p <? length (_addrs p))%nat
  then match next_address p with
       | (Some a, p') => Some (a, p')
       | (None, _) => None
       end
  else None.

#[global] Instance area_profile : AreaProfile profile :=
  {| gen_next := iter_addresses_next |}.

Definition reset (p : profile) : profile :=
  {| _addrs := _addrs p; _idx := 0; _path := _path p;
     _mode := _mode p; _seed := _seed p |}.

Definition end_condition_prompt (reason : string) : string :=
  default "" (_END_MESSAGES !! PyStr.lower (PyStr.strip reason)).

(** The first [n] answers of [next_address], up to the first [None]. *)
Fixpoint serve (n : nat) (p : profile) : list string :=
  match n with
  | O => []
  | S n' =>
      match next_address p with
      | (Some a, p') => a :: serve n' p'
      | (None, _) => []
      end
  end.

(** Calls made on a profile after construction, and their answers. *)
Inductive call : Type :=
| CallNext : call
| CallReset : call.

Fixpoint answers (cs : list call) (p : profile) : list (option string) :=
  match cs with
  | [] => []
  | CallNext :: cs' => let '(a, p') := next_address p in a :: answers cs' p'
  | CallReset :: cs' => answers cs' (reset p)
  end.

(** Exactly ten hexadecimal digits. *)
Definition is_hex10 (s : string) : bool :=
  (String.length s =? 10)%nat && PyStr.forallb_str PyStr.is_hex s.

(** A file line that, stripped as the loader strips it, is not blank, not
    a comment and not ten hexadecimal digits. *)
Definition bad_line (raw : string) : bool :=
  let s := PyStr.strip raw in
  negb (String.eqb s "") && negb (PyStr.startswith "#" s) && negb (is_hex10 s).

(** An injection address: exactly ten characters of [0-9A-F]. *)
Definition is_upper_hex_digit (c : ascii) : bool :=
  PyStr.is_digit c || PyStr.is_upper_hex c.

Definition valid_lfa (a : string) : bool :=
  (String.length a =? 10)%nat && PyStr.forallb_str is_upper_hex_digit a.

End AddressList.

(* ===================================================================== *)
(** ** Time profiles ([fi/time/base.py], [fi/time/uniform.py]) *)
(* ===================================================================== *)

Module TimeBase.

(** The arithmetic of the scheduler's [float] values.  [a >= b] is
    written [leb b a] and [a > b] is [ltb b a]; nothing else is assumed
    of the operations. *)
Class Arith (T : Type) : Type := {
  of_Q : Q -> T;          (* a literal *)
  of_int : Z -> T;        (* an [int] operand converted for the operation *)
  add : T -> T -> T;
  sub : T -> T -> T;
  mul : T -> T -> T;
  div : T -> T -> T;
  leb : T -> T -> bool;
  ltb : T -> T -> bool
}.

(** What the scheduler thread does to the outside. *)
Inductive event (T : Type) : Type :=
| LogTx : string -> event T        (* [log.log_tx(msg)] *)
| TxEcho : string -> event T       (* [tx_echo(msg)] *)
| Tx : string -> event T           (* command written by [proto.inject_lfa] *)
| AckStart : event T               (* [ack_tracker.start()] *)
| AckWait : T -> event T           (* [ack_tracker.wait(timeout)] *)
| Sleep : T -> event T             (* [time.sleep(d)] *)
| LogInfo : string -> event T      (* [log.log_info(msg)] *)
| Deadline : T -> event T          (* mark: [_sleep_until(t_deadline)] is entered *)
| RxRead : event T.                (* a read from the transport's queue *)

Arguments LogTx {T}. Arguments TxEcho {T}. Arguments Tx {T}.
Arguments AckStart {T}. Arguments AckWait {T}. Arguments Sleep {T}.
Arguments LogInfo {T}. Arguments Deadline {T}. Arguments RxRead {T}.

(** What the thread observes of the outside, by the number of
    observations made so far: the [n]-th reading of the clock or of a
    flag, and whether a write at that point succeeds.  Other threads and
    the passage of time are behind these functions. *)
Record env (T : Type) : Type := {
  clock : nat -> T;
  stop_set : nat -> bool;
  pause_set : nat -> bool;
  tx_ok : nat -> bool
}.
Arguments clock {T}. Arguments stop_set {T}.
Arguments pause_set {T}. Arguments tx_ok {T}.

(** The fields of [ProfileBase] that change during a run, the area
    profile it owns, and the trace of its actions. *)
Record state (T A : Type) : Type := mk_state {
  tick : nat;
  area : A;
  _first_shot : bool;
  finished_reason : option string;
  trace : list (event T)
}.
Arguments mk_state {T A}. Arguments tick {T A}. Arguments area {T A}.
Arguments _first_shot {T A}. Arguments finished_reason {T A}.
Arguments trace {T A}.

(** A computation ends normally, with an exception, or out of fuel. *)
Inductive result (S X : Type) : Type :=
| Done : X -> S -> result S X
| Raised : S -> result S X
| NoFuel : S -> result S X.
Arguments Done {S X}. Arguments Raised {S X}. Arguments NoFuel {S X}.

Definition M (S X : Type) : Type := S -> result S X.

Definition ret {S X} (x : X) : M S X := fun s => Done x s.

Definition bind {S X Y} (m : M S X) (k : X -> M S Y) : M S Y :=
  fun s => match m s with
           | Done x s' => k x s'
           | Raised s' => Raised s'
           | NoFuel s' => NoFuel s'
           end.

Definition try_except {S X} (m : M S X) (handler : M S X) : M S X :=
  fun s => match m s with
           | Raised s' => handler s'
           | r => r
           end.

Definition final {S X} (r : result S X) : S :=
  match r with Done _ s => s | Raised s => s | NoFuel s => s end.

(** Modelled from the spec: [SemProtocol.inject_lfa] of [fi/semio], which
    sends [N <addr>] and waits for no reply. *)
Definition inject_lfa_command (addr : string) : string := "N " +:+ addr.

End TimeBase.

Declare Scope sched_scope.
Delimit Scope sched_scope with sched.
Notation "x <- c ;; k" := (TimeBase.bind c (fun x => k))
  (at level 100, c at next level, right associativity) : sched_scope.
Notation "c ;;; k" := (TimeBase.bind c (fun _ => k))
  (at level 100, k at level 200, right associativity) : sched_scope.

Module Uniform.
Import AreaBase TimeBase.
Local Open Scope sched_scope.

Definition _END_MESSAGES : gmap string string :=
  {[ "duration_elapsed" := "Duration limit reached.";
     "max_reached" := "Maximum shots limit reached." ]}.

Definition name : string := "UNIFORM".

Definition end_condition_prompt (reason : string) : string :=
  default "" (_END_MESSAGES !! PyStr.lower (PyStr.strip reason)).

Section Scheduler.
Context {T : Type} `{Arith T} {A : Type} `{AreaProfile A}.

(** The attributes fixed by the constructor. *)
Record config : Type := {
  period : T;
  duration_s : option T;
  ack : bool;
  ack_timeout_s : T;
  max_shots : option Z;
  _startup_delay_s : T;
  has_tx_echo : bool;        (* [callable(self.tx_echo)] *)
  has_ack_tracker : bool     (* [self.ack_tracker is not None] *)
}.

(** How the constructor settles the period from the [period_s] and
    [rate_hz] it parsed (defaults -1.0 and 1.0). *)
Definition resolve_period (period_s rate_hz : T) : T :=
  if leb (of_Q 0) period_s then period_s
  else if ltb (of_Q 0) rate_hz then div (of_Q 1) rate_hz
  else of_Q 0.

Definition _spin_threshold_s : T := of_Q (2 # 1000).

Variable e : env T.
Variable cfg : config.

Abbreviation St := (state T A).
Abbreviation Sched := (M St).

Definition bump (s : St) : St :=
  mk_state (S (tick s)) (area s) (_first_shot s) (finished_reason s) (trace s).

Definition emit (ev : event T) : Sched unit :=
  fun s => Done tt (mk_state (tick s) (area s) (_first_shot s)
                      (finished_reason s) (trace s ++ [ev])).

Definition set_first_shot (b : bool) : Sched unit :=
  fun s => Done tt (mk_state (tick s) (area s) b (finished_reason s) (trace s)).

Definition set_finished_reason (r : string) : Sched unit :=
  fun s => Done tt (mk_state (tick s) (area s) (_first_shot s) (Some r) (trace s)).

Definition get_first_shot : Sched bool := fun s => Done (_first_shot s) s.

(** [self._now()] *)
Definition _now : Sched T := fun s => Done (clock e (tick s)) (bump s).

Definition stop_is_set : Sched bool := fun s => Done (stop_set e (tick s)) (bump s).
Definition pause_is_set : Sched bool := fun s => Done (pause_set e (tick s)) (bump s).

Definition sleep (d : T) : Sched unit := emit (Sleep d).
Definition log_info (msg : string) : Sched unit := emit (LogInfo msg).

(** [self.proto.inject_lfa(addr)]; a failed write raises. *)
Definition inject_lfa (addr : string) : Sched unit :=
  fun s => if tx_ok e (tick s)
           then (emit (Tx (inject_lfa_command addr)) ;;; (fun s' => Done tt (bump s'))) s
           else Raised (bump s).

(** [next(addr_it)] *)
Definition next_addr : Sched (option string) :=
  fun s => match gen_next (area s) with
           | Some (addr, a') =>
               Done (Some addr)
                 (mk_state (tick s) a' (_first_shot s) (finished_reason s) (trace s))
           | None => Done None s
           end.

Definition when (b : bool) (m : Sched unit) : Sched unit :=
  if b then m else ret tt.

Definition _maybe_first_shot_delay : Sched unit :=
  first <- get_first_shot ;;
  when (first && ltb (of_Q 0) (_startup_delay_s cfg)) (sleep (_startup_delay_s cfg)) ;;;
  set_first_shot false.

Definition _inject (addr : string) (use_ack : bool) (ack_timeout : T) : Sched unit :=
  let msg := "N " +:+ addr in
  emit (LogTx msg) ;;;
  when (has_tx_echo cfg) (emit (TxEcho msg)) ;;;
  when (use_ack && has_ack_tracker cfg) (emit AckStart) ;;;
  inject_lfa addr ;;;
  when (use_ack && has_ack_tracker cfg) (emit (AckWait ack_timeout)).

(** [while self._now() < t_deadline: pass] *)
Fixpoint spin (fuel : nat) (t_deadline : T) : Sched unit :=
  match fuel with
  | O => fun s => NoFuel s
  | S f =>
      now <- _now ;;
      if ltb now t_deadline then spin f t_deadline else ret tt
  end.

Fixpoint _sleep_until (fuel : nat) (t_deadline : T) : Sched unit :=
  match fuel with
  | O => fun s => NoFuel s
  | S f =>
      now <- _now ;;
      let remaining := sub t_deadline now in
      if leb remaining (of_Q 0) then ret tt
      else if ltb _spin_threshold_s remaining
           then sleep (sub remaining _spin_threshold_s) ;;; _sleep_until f t_deadline
           else spin f t_deadline
  end.

(** [while self.pause_evt.is_set() and not self.stop_evt.is_set()] *)
Fixpoint pause_wait (fuel : nat) : Sched unit :=
  match fuel with
  | O => fun s => NoFuel s
  | S f =>
      paused <- pause_is_set ;;
      if paused
      then stopped <- stop_is_set ;;
           if stopped then ret tt
           else sleep (of_Q (5 # 100)) ;;; pause_wait f
      else ret tt
  end.

Definition _log_profile_end (reason : string) : Sched unit :=
  let msg := end_condition_prompt reason in
  log_info ("Time profile [" +:+ name +:+ "] finished."
            +:+ (if String.eqb msg "" then "" else " " +:+ msg)).

(** How one turn of the [for] loop ends. *)
Inductive ctl : Type :=
| Continue : Z -> Z -> ctl     (* on to the next address, with [k] and [shots] *)
| Break : ctl
| Return : ctl.

Definition duration_elapsed (t0 : T) : Sched bool :=
  match duration_s cfg with
  | Some dur => now <- _now ;; ret (leb dur (sub now t0))
  | None => ret false
  end.

Definition max_reached (shots : Z) : bool :=
  match max_shots cfg with
  | Some m => (m <=? shots)%Z
  | None => false
  end.

(** [self.ack and self.ack_timeout_s > 0.0 and self.ack_tracker is not None] *)
Definition ack_gated : bool :=
  ack cfg && ltb (of_Q 0) (ack_timeout_s cfg) && has_ack_tracker cfg.

(** Transmission and the deadline that follows it. *)
Definition shoot (t0 : T) (k : Z) (addr : string) : Sched T :=
  if ack_gated
  then emit AckStart ;;;
       _inject addr false (of_Q (15 # 10)) ;;;
       emit (AckWait (ack_timeout_s cfg)) ;;;
       now <- _now ;;
       ret (if ltb (of_Q 0) (period cfg) then add now (period cfg) else now)
  else _inject addr false (of_Q (15 # 10)) ;;;
       if ltb (of_Q 0) (period cfg)
       then ret (add t0 (mul (of_int (k + 1)) (period cfg)))
       else _now.

(** The body of [for addr in addr_it]. *)
Definition body (fuel : nat) (t0 : T) (k shots : Z) (addr : string) : Sched ctl :=
  stopped <- stop_is_set ;;
  if stopped then ret Break else
  pause_wait fuel ;;;
  stopped <- stop_is_set ;;
  if stopped then ret Break else
  elapsed <- duration_elapsed t0 ;;
  if elapsed
  then set_finished_reason "duration_elapsed" ;;;
       _log_profile_end "duration_elapsed" ;;;
       ret Return
  else if max_reached shots
  then set_finished_reason "max_reached" ;;;
       _log_profile_end "max_reached" ;;;
       ret Return
  else
    _maybe_first_shot_delay ;;;
    next_deadline <- shoot t0 k addr ;;
    when (ltb (of_Q 0) (period cfg))
      (emit (Deadline next_deadline) ;;; _sleep_until fuel next_deadline) ;;;
    ret (Continue (k + 1) (shots + 1)).

(** The [for] loop; [true] when it is left by exhaustion or [break],
    [false] when [run] returned from inside it. *)
Fixpoint loop (fuel : nat) (t0 : T) (k shots : Z) : Sched bool :=
  match fuel with
  | O => fun s => NoFuel s
  | S f =>
      nxt <- next_addr ;;
      match nxt with
      | None => ret true
      | Some addr =>
          c <- body f t0 k shots addr ;;
          match c with
          | Continue k' shots' => loop f t0 k' shots'
          | Break => ret true
          | Return => ret false
          end
      end
  end.

Definition exit_note : Sched unit := log_info "Exiting. Creating log file.".

Definition run (fuel : nat) : Sched unit :=
  try_except
    (t0 <- _now ;;
     fell_through <- loop fuel t0 0 0 ;;
     when fell_through exit_note)
    exit_note.

Definition initial (a : A) : St := mk_state 0 a true None [].

End Scheduler.

(** The injections and deadlines of a trace, in order. *)
Inductive mark (T : Type) : Type :=
| Shot : string -> mark T
| Until : T -> mark T.
Arguments Shot {T}. Arguments Until {T}.

Definition mark_of {T} (ev : event T) : option (mark T) :=
  match ev with
  | Tx cmd => Some (Shot cmd)
  | Deadline d => Some (Until d)
  | _ => None
  end.

Definition schedule {T} (tr : list (event T)) : list (mark T) := omap mark_of tr.

Definition shots_of {T} (ms : list (mark T)) : list string :=
  omap (fun m => match m with Shot cmd => Some cmd | Until _ => None end) ms.

Definition untils_of {T} (ms : list (mark T)) : list T :=
  omap (fun m => match m with Until d => Some d | Shot _ => None end) ms.

(** The marks one turn of the loop leaves: the injection, and the
    deadline [d] when the period is positive. *)
Definition shot_marks {T} `{Arith T} (cfg : config) (addr : string) (d : T)
  : list (mark T) :=
  Shot (inject_lfa_command addr)
    :: (if ltb (of_Q 0) (period cfg) then [Until d] else []).

(** The schedule without drift: after the injection of index [k]
    (counting from 1) the deadline is [t0 + k * period]. *)
Fixpoint drift_free {T} `{Arith T} (t0 period : T) (k : Z) (cmds : list string)
  : list (mark T) :=
  match cmds with
  | [] => []
  | cmd :: rest =>
      Shot cmd :: Until (add t0 (mul (of_int k) period))
        :: drift_free t0 period (k + 1) rest
  end.

(** The area profile [a] yields the addresses [l] and then ends, as [a']. *)
Fixpoint yields {A} `{AreaProfile A} (a : A) (l : list string) (a' : A) : Prop :=
  match l with
  | [] => gen_next a = None /\ a' = a
  | addr :: rest => exists a1, gen_next a = Some (addr, a1) /\ yields a1 rest a'
  end.

(** Whatever the deadline and the moment, a later reading of the clock
    is past the deadline for both tests of [_sleep_until]. *)
Definition past {T} `{Arith T} (e : env T) (d : T) (j : nat) : bool :=
  leb (sub d (clock e j)) (of_Q 0) && negb (ltb (clock e j) d).

Definition progressive {T} `{Arith T} (e : env T) : Prop :=
  forall (d : T) (i : nat), exists j, i <= j /\ past e d j = true.

(** No stop, no pause, no failed write. *)
Definition undisturbed {T} (e : env T) : Prop :=
  forall n, stop_set e n = false /\ pause_set e n = false /\ tx_ok e n = true.

(** The commands written to the device, the deadlines slept to and the
    number of reads from the transport. *)
Definition sent {T} (tr : list (event T)) : list string :=
  omap (fun ev => match ev with Tx cmd => Some cmd | _ => None end) tr.

Definition deadlines {T} (tr : list (event T)) : list T :=
  omap (fun ev => match ev with Deadline d => Some d | _ => None end) tr.

Definition is_rx_read {T} (ev : event T) : bool :=
  match ev with RxRead => true | _ => false end.

Definition rx_reads {T} (tr : list (event T)) : nat :=
  length (List.filter is_rx_read tr).

(** What of a state waiting, logging and reading the clock leave alone. *)
Definition view {T A} (s : state T A) : A * option string * list (mark T) * nat :=
  (area s, finished_reason s, schedule (trace s), rx_reads (trace s)).

Definition quiet {T A X} (m : M (state T A) X) : Prop :=
  forall s, view (final (m s)) = view s.

(** From [s] to [s'] the schedule grew by [extra] and nothing else in
    view changed. *)
Definition grows {T A} (s s' : state T A) (extra : list (mark T)) : Prop :=
  area s' = area s /\ finished_reason s' = finished_reason s
  /\ rx_reads (trace s') = rx_reads (trace s)
  /\ schedule (trace s') = schedule (trace s) ++ extra.

End Uniform.

(* ===================================================================== *)
(** ** End-of-campaign watcher ([_profile_watcher]) *)
(* ===================================================================== *)

Module Watcher.

(** What the watcher writes when it finds the time profile dead. *)
Inductive output : Type :=
| LogProfArea : string -> output     (* [log.log_prof_area(msg)] *)
| LogProfTime : string -> output     (* [log.log_prof_time(msg)] *)
| Info : string -> output.           (* [_info(msg)] *)

(** [f" {msg.strip()}"] when the stripped message is not empty. *)
Definition suffix_of (msg : string) : string :=
  if String.eqb (PyStr.strip msg) "" then "" else " " +:+ PyStr.strip msg.

Definition truthy_reason (reason : option string) : bool :=
  match reason with
  | Some r => negb (String.eqb r "")
  | None => false
  end.

(** [reason == "area_exhausted"] *)
Definition is_area_exhausted (reason : option string) : bool :=
  match reason with
  | Some r => String.eqb r "area_exhausted"
  | None => false
  end.

(** The report on a finished profile: [reason] is the time profile's
    [finished_reason]; the prompts and names are those of the area and
    time profiles. *)
Definition report (reason : option string)
    (area_name : string) (area_prompt : string -> string)
    (tp_name : string) (tp_prompt : string -> string) : list output :=
  if is_area_exhausted reason
  then
      let suffix := suffix_of (area_prompt "exhausted") in
      let suffix := if String.eqb suffix "" then " (address list exhausted)" else suffix in
      [ LogProfArea "finished";
        Info ("Area profile [" +:+ area_name +:+ "] finished." +:+ suffix) ]
  else
      let suffix :=
        match reason with
        | Some r => if truthy_reason reason then suffix_of (tp_prompt r) else ""
        | None => ""
        end in
      [ LogProfTime (match reason with
                     | Some r => if truthy_reason reason
                                 then "finished (" +:+ r +:+ ")" else "finished"
                     | None => "finished"
                     end);
        Info ("Time profile [" +:+ tp_name +:+ "] finished." +:+ suffix) ].

(** The watcher took the area-exhaustion branch. *)
Definition reports_area_exhausted (out : list output) : bool :=
  existsb (fun o => match o with LogProfArea _ => true | _ => false end) out.

End Watcher.

(* ===================================================================== *)
(** ** Rate cap and reconciliation ([fi/fault_injection.py]) *)
(* ===================================================================== *)

Module RateCap.
Import PrimFloat.
Local Open Scope float_scope.

(** A Python [float] is an IEEE binary64 number, Rocq's primitive
    [float]: its operations round to nearest, overflow to an infinity and
    underflow to zero as the interpreter's do, and NaN compares false with
    everything.

    [float(s)] of a string ([None] is [ValueError]; the strings [nan] and
    [inf] are among those it accepts) and the format [{x:.12g}], which
    this development does not define. *)
Class FloatRuntime : Type := {
  float_of_str : string -> option float;
  format_12g : float -> string
}.

(** [float(n)] of an [int]: the nearest float, ties to even; [None] is
    [OverflowError]. *)
Definition float_of_int (n : Z) : option float :=
  let x := FloatOps.SF2Prim
             (SpecFloat.binary_normalize FloatOps.prec FloatOps.emax n 0 false) in
  if is_infinity x then None else Some x.

(** [int(x)] of a [float]: the fraction is dropped; [None] is the
    [ValueError] for NaN and the [OverflowError] for an infinity. *)
Definition int_of_float (x : float) : option Z :=
  match FloatOps.Prim2SF x with
  | SpecFloat.S754_zero _ => Some 0%Z
  | SpecFloat.S754_finite s m e =>
      let a := match e with
               | Zneg p => Z.shiftr (Zpos m) (Zpos p)
               | _ => Z.shiftl (Zpos m) e
               end in
      Some (if s then (- a)%Z else a)
  | _ => None
  end.

(** The attributes of [fi.settings] read here, as [float] gives them;
    [None] when the module does not define one. *)
Record settings : Type := {
  SEM_ICAP_FMAX_HZ : option float;
  SEM_FREQ_HZ : option float;
  SEM_INJECT_LATENCY_US_AT_FMAX : option float;
  INJECTION_RATE_SAFETY_DERATE : option float;
  INJECTION_RATE_UART_CAP_HZ : option float
}.

(** [a > b] and [a >= b] *)
Definition gt (a b : float) : bool := b <? a.
Definition ge (a b : float) : bool := b <=? a.

(** [max(a, b)] and [min(a, b)] keep their first argument unless the
    second is greater, or smaller: on a tie, and when either is NaN. *)
Definition py_max (a b : float) : float := if gt b a then b else a.
Definition py_min (a b : float) : float := if gt a b then b else a.

(** [1.0 / x]; [None] is [ZeroDivisionError], raised for either zero. *)
Definition recip (x : float) : option float :=
  if is_zero x then None else Some (1 / x).

(** The literal [1e-9] is the float [0x1.12e0be826d695p-30]. *)
Definition _compute_platform_max_rate_hz (st : settings) : option float :=
  let icap_fmax := default 200000000 (SEM_ICAP_FMAX_HZ st) in
  let sem_clk := default 100000000 (SEM_FREQ_HZ st) in
  let lat_us := default 50 (SEM_INJECT_LATENCY_US_AT_FMAX st) in
  let derate := default 1 (INJECTION_RATE_SAFETY_DERATE st) in
  let uart_cap := default 0 (INJECTION_RATE_UART_CAP_HZ st) in
  let lat_s_at_fmax := py_max 0x1.12e0be826d695p-30 (lat_us / 1000000) in
  let scale := icap_fmax / py_max 1 sem_clk in
  let lat_actual_s := lat_s_at_fmax * scale in
  match recip lat_actual_s with
  | None => None
  | Some r =>
      let max_rate := r * py_max 0 (py_min 1 derate) in
      let max_rate := if gt uart_cap 0 then py_min max_rate uart_cap else max_rate in
      Some (py_max 0 max_rate)
  end.

Definition _resolve_requested_rate_hz `{FloatRuntime}
    (time_kwargs : gmap string string) : option float * string :=
  let from_period :=
    match time_kwargs !! "period_s" with
    | Some v =>
        match float_of_str v with
        | Some p => if gt p 0 then (Some (1 / p), "period_s") else (None, "none")
        | None => (None, "none")
        end
    | None => (None, "none")
    end in
  match time_kwargs !! "rate_hz" with
  | Some v =>
      match float_of_str v with
      | Some r => (Some r, "rate_hz")
      | None => from_period
      end
  | None => from_period
  end.

(** The message about capping, by its four numbers. *)
Record cap_info : Type := {
  info_req : float; info_cap : float; info_eff : float; info_period : float
}.

(** The rate the reconciliation settles on. *)
Definition eff_rate_of (req_rate_hz cap_rate_hz : float) : float :=
  if gt cap_rate_hz 0 then py_min req_rate_hz cap_rate_hz else req_rate_hz.

Definition _reconcile_and_cap_time_kwargs `{FloatRuntime} (st : settings)
    (time_kwargs : gmap string string)
  : option (gmap string string * option float * float * option cap_info) :=
  let '(req, _) := _resolve_requested_rate_hz time_kwargs in
  match _compute_platform_max_rate_hz st with
  | None => None
  | Some cap_rate_hz =>
      match req with
      | None => Some (time_kwargs, None, cap_rate_hz, None)
      | Some req_rate_hz =>
          let eff_rate := eff_rate_of req_rate_hz cap_rate_hz in
          let cap_info_msg :=
            if gt cap_rate_hz 0 && gt req_rate_hz cap_rate_hz
            then Some {| info_req := req_rate_hz; info_cap := cap_rate_hz;
                         info_eff := eff_rate;
                         info_period := if gt eff_rate 0 then 1 / eff_rate else 0 |}
            else None in
          let new_kwargs :=
            if gt eff_rate 0
            then <["period_s" := format_12g (1 / eff_rate)]>
                   (<["rate_hz" := format_12g eff_rate]> time_kwargs)
            else time_kwargs in
          Some (new_kwargs, Some req_rate_hz, cap_rate_hz, cap_info_msg)
      end
  end.

End RateCap.

(* ===================================================================== *)
(** ** Concrete instances for the examples *)
(* ===================================================================== *)

Module Concrete.
Import Py TimeBase.

(** A decimal reader standing for [int] and [float] on digit strings. *)
Fixpoint digits (acc : Z) (s : string) : option Z :=
  match s with
  | EmptyString => Some acc
  | String c s' =>
      if PyStr.is_digit c
      then digits (10 * acc + Z.of_N (PyStr.code c - 48)) s'
      else None
  end.

Definition parse_nat (s : string) : option Z :=
  match s with
  | EmptyString => None
  | _ => digits 0 s
  end.

(** A runtime whose shuffle reverses the list. *)
#[global] Program Instance runtime : Runtime :=
  {| int_of_str := parse_nat;
     int_of_str_auto := parse_nat;
     random_shuffle := fun _ l => rev l |}.
Next Obligation. intros. symmetry. apply Permutation_rev. Qed.

(** A float reader and writer for the examples: digit strings, [nan] and
    [inf] are read; a number is written by its whole part. *)
Definition read_float (s : string) : option PrimFloat.float :=
  if String.eqb s "nan" then Some PrimFloat.nan
  else if String.eqb s "inf" then Some PrimFloat.infinity
  else parse_nat s ≫= RateCap.float_of_int.

Definition show_whole (x : PrimFloat.float) : string :=
  match RateCap.int_of_float x with
  | Some n => pretty n
  | None =>
      if PrimFloat.is_nan x then "nan"
      else if PrimFloat.ltb x PrimFloat.zero then "-inf" else "inf"
  end.

#[global] Instance float_runtime : RateCap.FloatRuntime :=
  {| RateCap.float_of_str := read_float;
     RateCap.format_12g := show_whole |}.

(** Rational time. *)
#[global] Instance arith : Arith Q :=
  {| of_Q q := q; of_int z := inject_Z z;
     add := Qplus; sub := Qminus; mul := Qmult; div := Qdiv;
     leb := Qle_bool; ltb a b := negb (Qle_bool b a) |}.

(** A quiet environment: each observation comes 10 ms after the one
    before, no flag is ever set and every write succeeds. *)
Definition steady : env Q :=
  {| clock n := Z.of_nat n # 100;
     stop_set _ := false; pause_set _ := false; tx_ok _ := true |}.

Definition newline : string := String "010" "".

(** A file of three addresses with a comment and a blank line. *)
Definition three_lfa_file : list string :=
  [ "# targets" +:+ newline;
    "00c0ffee00" +:+ newline;
    newline;
    "  0123456789 " +:+ newline;
    "ABCDEFabcd" ].

Definition fs (path : string) : option (list string) :=
  if String.eqb path "lfa.txt" then Some three_lfa_file else None.

(** Scenario A: 10 Hz, [max_shots=3], default start-up delay. *)
Definition uniform_10hz (shots : option Z) : Uniform.config (T:=Q) :=
  {| Uniform.period := Uniform.resolve_period (-1)%Q 10%Q;
     Uniform.duration_s := None;
     Uniform.ack := false;
     Uniform.ack_timeout_s := (15 # 10)%Q;
     Uniform.max_shots := shots;
     Uniform._startup_delay_s := (80 # 1000)%Q;
     Uniform.has_tx_echo := true;
     Uniform.has_ack_tracker := true |}.

Definition sequential_kwargs : list (string * value) :=
  [("path", PStr "lfa.txt"); ("mode", PStr "sequential"); ("seed", PStr "7")].

Definition random_kwargs : list (string * value) :=
  [("path", PStr "lfa.txt"); ("mode", PStr "random"); ("seed", PStr "7")].

Definition three_lfa_area : AddressList.profile :=
  AddressList.mk ["00C0FFEE00"; "0123456789"; "ABCDEFABCD"] 0 "lfa.txt" "sequential" (Some 7%Z).

End Concrete.

(* ===================================================================== *)
(** ** fi/area/base.py: list utilities of the module profile *)
(* ===================================================================== *)

Module AreaBaseLists.

(** One turn of the loop of [dedupe_preserve_order] on [(seen, out)]. *)
Definition dedupe_step (st : gset string * list string) (it : string)
  : gset string * list string :=
  if decide (it ∈ fst st) then st
  else ({[ it ]} ∪ fst st, snd st ++ [it]).

Definition dedupe_preserve_order (items : list string) : list string :=
  snd (fold_left dedupe_step items (∅, [])).

(** The [for idx, it in enumerate(iters)] pass of [round_robin_merge].
    An iterator is the list of the elements it has not yet given, paired
    with its [finished] flag. *)
Fixpoint rr_pass (iters : list (list string * bool)) (out : list string)
    (progressed : bool) (remaining : nat)
  : list (list string * bool) * list string * bool * nat :=
  match iters with
  | [] => ([], out, progressed, remaining)
  | (it, finished) :: rest =>
      if finished
      then let '(rest', o, p, r) := rr_pass rest out progressed remaining in
           ((it, finished) :: rest', o, p, r)
      else match it with
           | x :: it' =>
               let '(rest', o, p, r) := rr_pass rest (out ++ [x]) true remaining in
               ((it', false) :: rest', o, p, r)
           | [] =>
               let '(rest', o, p, r) := rr_pass rest out progressed (remaining - 1) in
               (([], true) :: rest', o, p, r)
           end
  end.

(** The [while remaining > 0] loop; [fuel] bounds its turns. *)
Fixpoint rr_loop (fuel : nat) (iters : list (list string * bool))
    (out : list string) (remaining : nat) : option (list string) :=
  match fuel with
  | O => None
  | S fuel' =>
      if (0 <? remaining)%nat
      then let '(iters', out', progressed, remaining') :=
             rr_pass iters out false remaining in
           if negb progressed then Some out'
           else rr_loop fuel' iters' out' remaining'
      else Some out
  end.

Definition round_robin_merge (fuel : nat) (lists : list (list string))
  : option (list string) :=
  rr_loop fuel (map (fun lst => (lst, false)) lists) [] (length lists).

(** Element [j] of every list that has one, in the order of the lists. *)
Definition column (j : nat) (lists : list (list string)) : list string :=
  omap (fun l => l !! j) lists.

(** The iterator of [l] after [j] passes, the number of lists of length
    [j] and the number of lists at least that long. *)
Definition at_pass (j : nat) (l : list string) : list string * bool :=
  (drop j l, (length l <? j)%nat).

Definition at_len (j : nat) (lists : list (list string)) : nat :=
  length (List.filter (fun l => (length l =? j)%nat) lists).

Definition alive (j : nat) (lists : list (list string)) : nat :=
  length (List.filter (fun l => (j <=? length l)%nat) lists).

End AreaBaseLists.

(* ===================================================================== *)
(** ** fi/fault_injection.py: the echo gate and the RX printer *)
(* ===================================================================== *)

Module TxEchoGate.

(** [_queue], [_printed], [_completed], and the texts handed to
    [print_func] so far, oldest first. *)
Record t : Type := mk {
  _queue : list string;
  _printed : nat;
  _completed : nat;
  shown : list string
}.

Definition init : t :=
  {| _queue := []; _printed := 0; _completed := 0; shown := [] |}.

Definition send_echo (text : string) (g : t) : t :=
  if (_printed g <=? _completed g)%nat
  then {| _queue := _queue g; _printed := _printed g + 1;
          _completed := _completed g; shown := shown g ++ [text] |}
  else {| _queue := _queue g ++ [text]; _printed := _printed g;
          _completed := _completed g; shown := shown g |}.

Definition on_sc00 (g : t) : t :=
  let completed := _completed g + 1 in
  match _queue g with
  | text :: queue =>
      if (_printed g <=? completed)%nat
      then {| _queue := queue; _printed := _printed g + 1;
              _completed := completed; shown := shown g ++ [text] |}
      else {| _queue := _queue g; _printed := _printed g;
              _completed := completed; shown := shown g |}
  | [] =>
      {| _queue := []; _printed := _printed g;
         _completed := completed; shown := shown g |}
  end.

(** Calls on one gate, in the order its lock serialises them. *)
Inductive call : Type :=
| SendEcho : string -> call
| OnSc00 : call.

Definition step (g : t) (c : call) : t :=
  match c with
  | SendEcho text => send_echo text g
  | OnSc00 => on_sc00 g
  end.

Definition run (cs : list call) (g : t) : t := fold_left step cs g.

(** The texts of the [send_echo] calls, in call order. *)
Definition sent_texts (cs : list call) : list string :=
  omap (fun c => match c with SendEcho text => Some text | OnSc00 => None end) cs.

Definition releases (cs : list call) : nat :=
  length (List.filter (fun c => match c with OnSc00 => true | SendEcho _ => false end) cs).

End TxEchoGate.

Module RxPrinter.
Import Regex.

(** [\w] of a [str] pattern, on code points below 256: letters, digits,
    numeric characters and the underscore. *)
Definition is_word (c : ascii) : bool :=
  let n := PyStr.code c in
  (((48 <=? n) && (n <=? 57)) || ((65 <=? n) && (n <=? 90)) ||
  ((97 <=? n) && (n <=? 122)) || (n =? 95) ||
  (n =? 170) || (n =? 178) || (n =? 179) || (n =? 181) ||
  (n =? 185) || (n =? 186) || ((188 <=? n) && (n <=? 190)) ||
  ((192 <=? n) && (n <=? 214)) || ((216 <=? n) && (n <=? 246)) ||
  (248 <=? n))%N.

(** [_RE_I_N = re.compile(r'^\s*I>\s+N\b')]; [match] anchors at the
    start only, and [\b] after [N] asks for the end of the line or a
    character that is not of [\w]. *)
Definition _RE_I_N : regex :=
  Cat (Star ws) (Cat (chr "I") (Cat (chr ">") (Cat (plus ws) (Cat (chr "N")
    (opt (Cat (Cls (fun c => negb (is_word c))) anything)))))).

Definition match_I_N (ln : string) : bool := fullmatch _RE_I_N ln.

(** What the printer keeps between lines: [in_inject_context], the
    tracker and the gate ([None] when the gate is disabled in the
    settings). *)
Record state : Type := mk {
  in_inject_context : bool;
  ack_tracker : AckTracker.t;
  inj_tx_gate : option TxEchoGate.t
}.

(** One turn of [for ln in lines], logging and console echo left out. *)
Definition on_line (ln : string) (st : state) : state :=
  let in_ctx := if match_I_N ln then true else in_inject_context st in
  let '(sc00_from_pending, ack) := AckTracker.on_rx ln (ack_tracker st) in
  let is_sc00 :=
    match AckTracker.match_SC ln with
    | Some g => match PyStr.int16 g with Some v => (v =? 0)%N | None => false end
    | None => false
    end in
  match inj_tx_gate st with
  | Some g =>
      if is_sc00 && (in_ctx || sc00_from_pending)
      then {| in_inject_context := false; ack_tracker := ack;
              inj_tx_gate := Some (TxEchoGate.on_sc00 g) |}
      else {| in_inject_context := in_ctx; ack_tracker := ack;
              inj_tx_gate := Some g |}
  | None =>
      {| in_inject_context := in_ctx; ack_tracker := ack; inj_tx_gate := None |}
  end.

Definition on_lines (lines : list string) (st : state) : state :=
  fold_left (fun st ln => on_line ln st) lines st.

End RxPrinter.

(* ===================================================================== *)
(** ** Keyword arguments as text: [_parse_kwargs] and [_kv_csv] *)
(* ===================================================================== *)

Module KwargsCsv.
Import Py.

(** [s.split(sep)] for a one-character separator. *)
Fixpoint split (sep : ascii) (s : string) : list string :=
  match s with
  | EmptyString => [EmptyString]
  | String c rest =>
      if Ascii.eqb c sep then EmptyString :: split sep rest
      else match split sep rest with
           | hd :: tl => String c hd :: tl
           | [] => [String c EmptyString]
           end
  end.

(** [sep.join(parts)] *)
Fixpoint join (sep : string) (parts : list string) : string :=
  match parts with
  | [] => EmptyString
  | [p] => p
  | p :: rest => p +:+ sep +:+ join sep rest
  end.

(** [c in s] for one character. *)
Fixpoint contains (c : ascii) (s : string) : bool :=
  match s with
  | EmptyString => false
  | String x rest => Ascii.eqb x c || contains c rest
  end.

(** [s.split(sep, 1)] when [sep] occurs in [s]: what precedes its first
    occurrence, and what follows it. *)
Fixpoint split_once (sep : ascii) (s : string) : string * string :=
  match s with
  | EmptyString => (EmptyString, EmptyString)
  | String c rest =>
      if Ascii.eqb c sep then (EmptyString, rest)
      else let '(k, v) := split_once sep rest in (String c k, v)
  end.

(** One turn of the loop of [_parse_kwargs]. *)
Definition parse_part (out : gmap string string) (part : string)
  : gmap string string :=
  let part := PyStr.strip part in
  if String.eqb part "" then out
  else if contains "=" part
  then let '(k, v) := split_once "=" part in
       <[PyStr.strip k := PyStr.strip v]> out
  else <[part := "true"]> out.

(** [_parse_kwargs(csv)]; the empty string also stands for [None]. *)
Definition _parse_kwargs (csv : string) : gmap string string :=
  if String.eqb csv "" then ∅
  else fold_left parse_part (split "," csv) ∅.

(** The items [_kv_csv] keeps, each as its text [k=v]. *)
Fixpoint kv_parts (opts : list (string * value)) : list string :=
  match opts with
  | [] => []
  | (k, v) :: rest =>
      match v with
      | PNone => kv_parts rest
      | PStr s =>
          if String.eqb (PyStr.strip s) "" then kv_parts rest
          else (k +:+ "=" +:+ Py.str v) :: kv_parts rest
      | PInt _ => (k +:+ "=" +:+ Py.str v) :: kv_parts rest
      end
  end.

(** [_kv_csv(opts)] of fatori-v.py; [opts] lists the items of the dict
    in insertion order. *)
Definition _kv_csv (opts : list (string * value)) : string :=
  join "," (kv_parts opts).

End KwargsCsv.

(* ===================================================================== *)
(** ** fi/area/modules.py: the MODULES area profile *)
(* ===================================================================== *)

Module Modules.
Import Py AreaBase AreaBaseLists.

Definition name : string := "MODULES".

(** What [dedupe] is given as: a [bool], [None] or a string. *)
Inductive flag : Type :=
| FBool : bool -> flag
| FNone : flag
| FStr : string -> flag.

(** [pathlib], which this development does not define:
    [str(pathlib.Path(p))] and [str(pathlib.Path(root) / name)]. *)
Class PathRuntime : Type := {
  path_str : string -> string;
  path_join : string -> string -> string
}.

(** [_parse_bool(val, default)] *)
Definition _parse_bool (val : flag) (dflt : bool) : bool :=
  match val with
  | FBool b => b
  | FNone => dflt
  | FStr v =>
      let s := PyStr.lower (PyStr.strip v) in
      String.eqb s "1" || String.eqb s "true" || String.eqb s "yes" || String.eqb s "on"
  end.

(** [_parse_int(val, default)]; an [int] is its own value. *)
Definition _parse_int `{Runtime} (val : value) (dflt : option Z) : option Z :=
  match val with
  | PNone => dflt
  | PInt z => Some z
  | PStr s =>
      match int_of_str (PyStr.strip s) with
      | Some z => Some z
      | None => dflt
      end
  end.

(** Truth value of a [str | None] argument. *)
Definition given (s : option string) : bool :=
  match s with
  | Some v => negb (String.eqb v "")
  | None => false
  end.

(** [_mode_to_merge(mode)] *)
Definition _mode_to_merge (mode : option string) : string * string :=
  if negb (given mode) then ("concat", "sequential")
  else
    let m := PyStr.lower (PyStr.strip (default "" mode)) in
    if String.eqb m "random" then ("concat", "shuffle")
    else if String.eqb m "round_robin" || String.eqb m "roundrobin"
            || String.eqb m "round-robin"
    then ("roundrobin", "sequential")
    else ("concat", "sequential").

(** [[t.strip() for t in s.split(",") if t.strip()]] *)
Definition items (s : string) : list string :=
  List.filter (fun t => negb (String.eqb t ""))
    (map PyStr.strip (KwargsCsv.split "," s)).

(** The [TypeError] of a call with a keyword that is no parameter, the
    [ValueError] of the constructor and the error of [open]. *)
Inductive error : Type :=
| UnexpectedKeyword : error
| NoSource : error
| CannotOpen : string -> error.

(** The parameters of [Profile.__init__]: all keyword-only, and no
    [**kwargs] beside them. *)
Definition parameters : list string :=
  ["path"; "paths"; "label"; "labels"; "root";
   "mode"; "strategy"; "order"; "dedupe"; "seed"].

Record profile : Type := mk {
  _addresses : list string;
  _dedup : bool;
  _seed : option Z;
  _order : string;
  _files : list string;
  _strategy : string
}.

Section Init.
Context `{Runtime} `{PathRuntime}.

(** [file_list], each path as [str(p)] gives it. *)
Definition file_list (path paths label labels : option string) (root : string)
  : list string :=
  let file_list := if given path then [path_str (default "" path)] else [] in
  let file_list :=
    if given paths then file_list ++ map path_str (items (default "" paths))
    else file_list in
  let label_list := if given label then [PyStr.strip (default "" label)] else [] in
  let label_list :=
    if given labels then label_list ++ items (default "" labels) else label_list in
  if negb (length label_list =? 0)%nat && negb (String.eqb root "")
  then file_list ++ map (fun lb => path_join root (lb +:+ ".txt")) label_list
  else file_list.

(** [[load_addresses_file(str(p)) for p in unique_files]]; [fs] maps a
    path to the lines of the file there. *)
Fixpoint load_all (fs : string -> option (list string)) (files : list string)
  : error + list (list string) :=
  match files with
  | [] => inr []
  | p :: rest =>
      match fs p with
      | None => inl (CannotOpen p)
      | Some raws =>
          match load_all fs rest with
          | inl err => inl err
          | inr lists => inr (load_addresses_file raws :: lists)
          end
      end
  end.

(** The body of [Profile.__init__] on its parameters; [None] when [fuel]
    does not cover the loop of [round_robin_merge]. *)
Definition body (fs : string -> option (list string))
    (path paths label labels : option string) (root : string)
    (mode : option string) (strategy order : string)
    (dedupe : flag) (seed : value) (os_entropy : N) (fuel : nat)
  : option (error + profile) :=
  let '(mode_strategy, mode_order) := _mode_to_merge mode in
  let eff_strategy :=
    PyStr.lower (PyStr.strip
      (if given mode then mode_strategy
       else if String.eqb strategy "" then "concat" else strategy)) in
  let eff_order :=
    PyStr.lower (PyStr.strip
      (if given mode then mode_order
       else if String.eqb order "" then "sequential" else order)) in
  let file_list := file_list path paths label labels root in
  if (length file_list =? 0)%nat then Some (inl NoSource)
  else
    let unique_files := dedupe_preserve_order file_list in
    match load_all fs unique_files with
    | inl err => Some (inl err)
    | inr lists =>
        match (if String.eqb eff_strategy "roundrobin"
               then round_robin_merge fuel lists
               else Some (concat lists)) with
        | None => None
        | Some merged =>
            let dedup := _parse_bool dedupe false in
            let merged := if dedup then dedupe_preserve_order merged else merged in
            let seed := _parse_int seed None in
            let order :=
              if String.eqb eff_order "sequential" || String.eqb eff_order "shuffle"
              then eff_order else "sequential" in
            Some (inr {| _addresses := apply_ordering merged order seed os_entropy;
                         _dedup := dedup; _seed := seed; _order := order;
                         _files := unique_files; _strategy := eff_strategy |})
        end
    end.

(** [Profile] called with the items of a [Dict[str, str]] as keywords,
    as [_load_area] calls it: a key that is not a parameter is a [TypeError], and a parameter
    that is not given takes its default. *)
Definition init (fs : string -> option (list string))
    (kwargs : gmap string string) (os_entropy : N) (fuel : nat)
  : option (error + profile) :=
  if bool_decide (dom kwargs ⊆ list_to_set parameters)
  then body fs
         (kwargs !! "path") (kwargs !! "paths")
         (kwargs !! "label") (kwargs !! "labels")
         (default "" (kwargs !! "root"))
         (kwargs !! "mode")
         (default "concat" (kwargs !! "strategy"))
         (default "sequential" (kwargs !! "order"))
         (match kwargs !! "dedupe" with Some s => FStr s | None => FNone end)
         (match kwargs !! "seed" with Some s => PStr s | None => PNone end)
         os_entropy fuel
  else Some (inl UnexpectedKeyword).

End Init.

(** What [iter_addresses] yields. *)
Definition iter_addresses (p : profile) : list string := _addresses p.

(** The lists the files of a profile hold, read as the loader reads
    them. *)
Definition loaded (fs : string -> option (list string)) (files : list string)
    (lists : list (list string)) : Prop :=
  Forall2 (fun p l => exists raws, fs p = Some raws /\ l = load_addresses_file raws)
    files lists.

End Modules.

(* ===================================================================== *)
(** ** fi/fault_injection.py: the keyword arguments of the area profile *)
(* ===================================================================== *)

Module LoadArea.

(** [d.setdefault(key, value)] *)
Definition setdefault (key value : string) (d : gmap string string)
  : gmap string string :=
  if bool_decide (is_Some (d !! key)) then d else <[key := value]> d.

(** What [main] hands to [_load_area]: the arguments of [--area-args],
    the global seed when they give no seed, and the run name and the
    session label when they give none. *)
Definition area_kwargs (area_args : string) (global_seed : Z)
    (run_name session : string) : gmap string string :=
  let area_kwargs := KwargsCsv._parse_kwargs area_args in
  let area_kwargs :=
    if bool_decide (is_Some (area_kwargs !! "seed")) then area_kwargs
    else <["seed" := pretty global_seed]> area_kwargs in
  let area_kwargs := setdefault "run_name" run_name area_kwargs in
  setdefault "session_label" session area_kwargs.

End LoadArea.

(* ===================================================================== *)
(** ** Vocabulary for call sequences and round trips *)
(* ===================================================================== *)

Module AddressListCalls.
Import AddressList.

(** The profile after the calls [cs]. *)
Fixpoint after (cs : list call) (p : profile) : profile :=
  match cs with
  | [] => p
  | CallNext :: cs' => after cs' (snd (next_address p))
  | CallReset :: cs' => after cs' (reset p)
  end.

(** The profile once [iter_addresses] has run to its end. *)
Definition drained (p : profile) : profile :=
  {| _addrs := _addrs p; _idx := Nat.max (_idx p) (length (_addrs p));
     _path := _path p; _mode := _mode p; _seed := _seed p |}.

End AddressListCalls.

Module AckTrackerCalls.
Import AckTracker.

(** How many [on_rx] calls of [ops] answer [True], and how many calls
    are [start]. *)
Fixpoint resolved_count (ops : list op) (s : t) : nat :=
  match ops with
  | [] => 0
  | o :: ops' =>
      let '(r, s1) := step o s in
      (match o, r with
       | Rx _, Some true => 1
       | _, _ => 0
       end) + resolved_count ops' s1
  end.

Definition starts (ops : list op) : nat :=
  length (List.filter (fun o => match o with Start => true | _ => false end) ops).

End AckTrackerCalls.

Module KwargsCsvItems.
Import Py KwargsCsv.

(** The values [_kv_csv] writes out: not [None], not a blank string. *)
Definition kept (v : value) : bool :=
  match v with
  | PNone => false
  | PStr s => negb (String.eqb (PyStr.strip s) "")
  | PInt _ => true
  end.

(** The items [_kv_csv] writes out, each value as its text. *)
Definition kept_items (opts : list (string * value)) : list (string * string) :=
  omap (fun kv => if kept (snd kv) then Some (fst kv, Py.str (snd kv)) else None) opts.

(** Text that survives a trip through the CSV form: already stripped,
    not empty and without a comma. *)
Definition plain (s : string) : bool :=
  String.eqb (PyStr.strip s) s && negb (String.eqb s "") && negb (contains "," s).

(** An item whose key and value are plain, the key without [=]. *)
Definition clean_item (kv : string * string) : Prop :=
  plain (fst kv) = true /\ contains "=" (fst kv) = false /\ plain (snd kv) = true.

End KwargsCsvItems.

(* ===================================================================== *)
(** ** The shape of a scheduler trace *)
(* ===================================================================== *)

Module UniformTrace.
Import AreaBase TimeBase Uniform.

(** Waiting and logging, as opposed to what an injection does. *)
Definition is_idle {T} (ev : event T) : bool :=
  match ev with
  | Sleep _ | LogInfo _ => true
  | _ => false
  end.

(** The trace without its waits and log lines. *)
Definition acts {T} (tr : list (event T)) : list (event T) :=
  List.filter (fun ev => negb (is_idle ev)) tr.

(** What waiting and logging leave alone. *)
Definition core {T A} (s : state T A) : A * option string * list (event T) :=
  (area s, finished_reason s, acts (trace s)).

(** A computation that only waits or logs, and raises nothing. *)
Definition still {T A X} (m : M (state T A) X) : Prop :=
  forall s, core (final (m s)) = core s
            /\ match m s with Raised _ => False | _ => True end.

Section Blocks.
Context {T : Type} `{Arith T}.
Variable cfg : config (T:=T).

(** What one turn of the loop leaves up to the write: the tracker armed
    when gating, the log entry and the console echo. *)
Definition attempt (addr : string) : list (event T) :=
  (if ack_gated cfg then [AckStart] else [])
  ++ LogTx ("N " +:+ addr)
  :: (if has_tx_echo cfg then [TxEcho ("N " +:+ addr)] else []).

(** A whole turn: the attempt, the write, the wait for the
    acknowledgement when gating, and the deadline [d] when the period is
    positive. *)
Definition shot (addr : string) (d : T) : list (event T) :=
  attempt addr
  ++ Tx (inject_lfa_command addr)
  :: (if ack_gated cfg then [AckWait (ack_timeout_s cfg)] else [])
  ++ (if ltb (of_Q 0) (period cfg) then [Deadline d] else []).

Fixpoint shots (addrs : list string) (ds : list T) : list (event T) :=
  match addrs, ds with
  | addr :: addrs', d :: ds' => shot addr d ++ shots addrs' ds'
  | _, _ => []
  end.

End Blocks.

(** The area profile [a] gives the addresses [l] and is then [a']. *)
Fixpoint gives {A} `{AreaProfile A} (a : A) (l : list string) (a' : A) : Prop :=
  match l with
  | [] => a' = a
  | addr :: rest => exists a1, gen_next a = Some (addr, a1) /\ gives a1 rest a'
  end.

(** The log entries, console echoes and writes of a trace, and the calls
    on the tracker together with the writes. *)
Definition is_tx_step {T} (ev : event T) : bool :=
  match ev with
  | LogTx _ | TxEcho _ | Tx _ => true
  | _ => false
  end.

Definition tx_steps {T} (tr : list (event T)) : list (event T) :=
  List.filter is_tx_step tr.

Definition is_ack_or_tx {T} (ev : event T) : bool :=
  match ev with
  | AckStart | AckWait _ | Tx _ => true
  | _ => false
  end.

Definition ack_and_tx {T} (tr : list (event T)) : list (event T) :=
  List.filter is_ack_or_tx tr.

End UniformTrace.

(* ===================================================================== *)
(** ** fi/time/uniform.py: the constructor *)
(* ===================================================================== *)

Module UniformInit.
Import Py RateCap PrimFloat.

Section Init.
Context `{Runtime} `{FloatRuntime}.
Local Open Scope float_scope.

(** [float(v)] and [int(v)] of a keyword value; [None] is the exception
    raised.  Keyword values are strings, integers or [None]. *)
Definition py_float (v : value) : option float :=
  match v with
  | PNone => None
  | PStr s => float_of_str s
  | PInt z => float_of_int z
  end.

Definition py_int (v : value) : option Z :=
  match v with
  | PNone => None
  | PStr s => int_of_str s
  | PInt z => Some z
  end.

Definition _coerce_float (v : value) (dflt : float) : float :=
  match v with
  | PNone => dflt
  | _ =>
      match py_float v with
      | Some x => x
      | None =>
          match int_of_str_auto (Py.str v) with
          | Some z => default dflt (float_of_int z)
          | None => dflt
          end
      end
  end.

Definition _coerce_int (v : value) (dflt : option Z) : option Z :=
  match v with
  | PNone => dflt
  | _ =>
      match py_int v with
      | Some z => Some z
      | None =>
          match py_float v with
          | Some x =>
              match int_of_float x with
              | Some z => Some z
              | None => dflt
              end
          | None => dflt
          end
      end
  end.

Definition _coerce_bool (v : value) (dflt : bool) : bool :=
  match v with
  | PNone => dflt
  | _ =>
      let s := PyStr.lower (PyStr.strip (Py.str v)) in
      if existsb (String.eqb s) ["1"; "true"; "yes"; "on"] then true
      else if existsb (String.eqb s) ["0"; "false"; "no"; "off"] then false
      else dflt
  end.

(** [_norm_keys] of uniform.py: a later item overwrites an earlier one
    under the same normalised key. *)
Definition _norm_keys (d : list (string * value)) : gmap string value :=
  fold_left (fun m kv => <[PyStr.lower (PyStr.strip (fst kv)) := snd kv]> m) d ∅.

(** [for k in candidates: if k in kw: val = kw.pop(k); break] *)
Fixpoint pop_first (candidates : list string) (kw : gmap string value)
  : value * gmap string value :=
  match candidates with
  | [] => (PNone, kw)
  | k :: rest =>
      match kw !! k with
      | Some v => (v, delete k kw)
      | None => pop_first rest kw
      end
  end.

(** [_to_float(x, default)] of fi/time/base.py *)
Definition _to_float (x : value) (dflt : float) : float := default dflt (py_float x).

(** [Profile.__init__] on the normalised keyword arguments; [tx_echo]
    and [ack_tracker] tell whether the wiring supplies a callable echo
    and a tracker. *)
Definition init_kw (kw : gmap string value) (tx_echo ack_tracker : bool)
  : Uniform.config (T:=float) :=
  let '(period_val, kw) := pop_first ["period_s"; "period"; "period_sec"] kw in
  let '(rate_val, kw) :=
    pop_first ["rate_hz"; "rate"; "hz"; "freq_hz"; "frequency_hz"] kw in
  let period_s := _coerce_float period_val (-1) in
  let rate_hz := _coerce_float rate_val 1 in
  let period :=
    if ge period_s 0 then period_s
    else if gt rate_hz 0 then 1 / rate_hz else 0 in
  let '(duration_val, kw) :=
    if bool_decide (is_Some (kw !! "duration_s"))
       || bool_decide (is_Some (kw !! "duration"))
    then let '(d, kw) := pop "duration" PNone kw in pop "duration_s" d kw
    else (PNone, kw) in
  let duration :=
    match duration_val with
    | PNone => None
    | _ => let dv := _coerce_float duration_val 0 in
           if gt dv 0 then Some dv else None
    end in
  let '(ack_val, kw) := pop "ack" PNone kw in
  let '(ack_timeout_val, kw) := pop "ack_timeout_s" PNone kw in
  let '(max_shots_val, kw) := pop "max_shots" PNone kw in
  let startup_delay_ms := default (PInt 80) (kw !! "startup_delay_ms") in
  {| Uniform.period := period;
     Uniform.duration_s := duration;
     Uniform.ack := _coerce_bool ack_val false;
     Uniform.ack_timeout_s := _coerce_float ack_timeout_val 1.5;
     Uniform.max_shots := _coerce_int max_shots_val None;
     Uniform._startup_delay_s := py_max 0 (_to_float startup_delay_ms 80 / 1000);
     Uniform.has_tx_echo := tx_echo;
     Uniform.has_ack_tracker := ack_tracker |}.

Definition init (kwargs : list (string * value)) (tx_echo ack_tracker : bool)
  : Uniform.config (T:=float) :=
  init_kw (_norm_keys kwargs) tx_echo ack_tracker.

End Init.

(** The keys [Profile.__init__] reads the cadence from. *)
Definition cadence_keys : list string :=
  ["period_s"; "period"; "period_sec";
   "rate_hz"; "rate"; "hz"; "freq_hz"; "frequency_hz"].

End UniformInit.

(* ===================================================================== *)
(** ** Further concrete instances for the examples *)
(* ===================================================================== *)

Module Samples.

(** No attribute of [fi.settings] defined: every default applies. *)
Definition default_settings : RateCap.settings :=
  {| RateCap.SEM_ICAP_FMAX_HZ := None; RateCap.SEM_FREQ_HZ := None;
     RateCap.SEM_INJECT_LATENCY_US_AT_FMAX := None;
     RateCap.INJECTION_RATE_SAFETY_DERATE := None;
     RateCap.INJECTION_RATE_UART_CAP_HZ := None |}.

(** An environment with the given stop and pause flags, the clock of
    [Concrete.steady] and writes that succeed. *)
Definition flagged (stop pause : bool) : TimeBase.env Q :=
  {| TimeBase.clock := TimeBase.clock Concrete.steady;
     TimeBase.stop_set := fun _ => stop;
     TimeBase.pause_set := fun _ => pause;
     TimeBase.tx_ok := fun _ => true |}.


(** Paths as written, joined with a slash. *)
Definition plain_paths : Modules.PathRuntime :=
  {| Modules.path_str := fun p => p;
     Modules.path_join := fun root name => root +:+ "/" +:+ name |}.

(** Two module files, the second under the root [m]. *)
Definition two_modules (p : string) : option (list string) :=
  if String.eqb p "a.txt"
  then Some ["00000000AA"; " 00000000bb "; "00000000DD"]
  else if String.eqb p "m/b.txt"
  then Some ["# module b"; "00000000bb"; "00000000CC"]
  else None.

End Samples.

(* ===================================================================== *)
(** * Properties *)
(* ===================================================================== *)

(** ** Regular expressions: the matcher decides the denotation *)

#[local] Arguments String.append !_ _ / : simpl nomatch.

Section RegexFacts.
Import Regex.

Lemma append_nil_r (s : string) : s +:+ "" = s.
Proof. induction s as [|c s IH]; simpl; [reflexivity | now rewrite IH]. Qed.

Lemma append_assoc (a b c : string) : (a +:+ b) +:+ c = a +:+ (b +:+ c).
Proof. induction a as [|x a IH]; simpl; [reflexivity | now rewrite IH]. Qed.

Lemma append_eq_nil (a b : string) : a +:+ b = "" -> a = "" /\ b = "".
Proof. destruct a; simpl; [auto | discriminate]. Qed.

Lemma lang_cat_inv r1 r2 s :
  lang (Cat r1 r2) s -> exists s1 s2, s = s1 +:+ s2 /\ lang r1 s1 /\ lang r2 s2.
Proof. intros Hl. inversion Hl; subst. eauto. Qed.

Lemma nullable_lang (r : regex) : nullable r = true <-> lang r "".
Proof.
  induction r as [| |p|r1 IH1 r2 IH2|r1 IH1 r2 IH2|r IH]; simpl.
  - split; [discriminate | intros Hl; inversion Hl].
  - split; [constructor | reflexivity].
  - split; [discriminate | intros Hl; inversion Hl].
  - split; intros Hn.
    + apply andb_true_iff in Hn as [H1 H2].
      change "" with ("" +:+ ""). constructor; [now apply IH1 | now apply IH2].
    + apply lang_cat_inv in Hn as (s1 & s2 & Heq & H1 & H2).
      symmetry in Heq. apply append_eq_nil in Heq as [-> ->].
      apply andb_true_iff. split; [now apply IH1 | now apply IH2].
  - split; intros Hn.
    + apply orb_true_iff in Hn as [H1|H2];
        [apply L_alt_l; now apply IH1 | apply L_alt_r; now apply IH2].
    + apply orb_true_iff.
      inversion Hn; subst; [left; now apply IH1 | right; now apply IH2].
  - split; [constructor | reflexivity].
Qed.

Lemma lang_star_inv r s :
  lang (Star r) s ->
  s = "" \/ exists c s1 s2, s = String c s1 +:+ s2 /\ lang r (String c s1) /\ lang (Star r) s2.
Proof. intros Hl. inversion Hl; subst; [now left | right; eauto 6]. Qed.

Lemma deriv_lang (r : regex) : forall c s, lang (deriv c r) s <-> lang r (String c s).
Proof.
  induction r as [| |p|r1 IH1 r2 IH2|r1 IH1 r2 IH2|r IH]; intros c s; simpl.
  - split; intros Hl; inversion Hl.
  - split; intros Hl; inversion Hl.
  - destruct (p c) eqn:Hp; split; intros Hl.
    + inversion Hl; subst. now constructor.
    + inversion Hl; subst. constructor.
    + inversion Hl.
    + inversion Hl; subst. congruence.
  - split.
    + intros Hl.
      assert (Hleft : lang (Cat (deriv c r1) r2) s -> lang (Cat r1 r2) (String c s)).
      { intros Hc. apply lang_cat_inv in Hc as (s1 & s2 & -> & H1 & H2).
        change (String c (s1 +:+ s2)) with (String c s1 +:+ s2).
        constructor; [now apply IH1 | assumption]. }
      destruct (nullable r1) eqn:Hn; [| now apply Hleft].
      inversion Hl; subst; [now apply Hleft |].
      change (String c s) with ("" +:+ String c s).
      constructor; [now apply nullable_lang | now apply IH2].
    + intros Hl. apply lang_cat_inv in Hl as (s1 & s2 & Heq & H1 & H2).
      destruct s1 as [|c1 s1]; simpl in Heq.
      * subst s2. apply nullable_lang in H1. rewrite H1.
        apply L_alt_r. now apply IH2.
      * injection Heq as -> ->.
        assert (Hc : lang (Cat (deriv c1 r1) r2) (s1 +:+ s2))
          by (constructor; [now apply IH1 | assumption]).
        destruct (nullable r1); [now apply L_alt_l | assumption].
  - split; intros Hl; inversion Hl; subst.
    + apply L_alt_l. now apply IH1.
    + apply L_alt_r. now apply IH2.
    + apply L_alt_l. now apply IH1.
    + apply L_alt_r. now apply IH2.
  - split; intros Hl.
    + apply lang_cat_inv in Hl as (s1 & s2 & -> & H1 & H2).
      change (String c (s1 +:+ s2)) with (String c s1 +:+ s2).
      constructor; [now apply IH | assumption].
    + apply lang_star_inv in Hl as [Heq | (c1 & s1 & s2 & Heq & H1 & H2)];
        [discriminate |].
      simpl in Heq. injection Heq as -> ->.
      constructor; [now apply IH | assumption].
Qed.

Lemma fullmatch_lang (s : string) : forall r, fullmatch r s = true <-> lang r s.
Proof.
  induction s as [|c s IH]; intros r; simpl.
  - apply nullable_lang.
  - rewrite IH. apply deriv_lang.
Qed.

End RegexFacts.

(** ** Acknowledgement tracker *)

Section AckTrackerFacts.
Import AckTracker AckProtocol.

Lemma lang_star_cls p (s : string) :
  Regex.lang (Regex.Star (Regex.Cls p)) s <-> PyStr.forallb_str p s = true.
Proof.
  induction s as [|a s IH]; simpl.
  - split; [reflexivity | constructor].
  - split.
    + intros Hl. apply lang_star_inv in Hl as [Hx | (c & s1 & s2 & Heq & H1 & H2)];
        [discriminate |].
      inversion H1 as [|q x Hp| | | | |]; subst.
      simpl in Heq. injection Heq as -> ->.
      rewrite Hp. now apply IH.
    + intros [Ha Hs]%andb_true_iff.
      change (String a s) with (String a "" +:+ s).
      constructor; [now constructor | now apply IH].
Qed.

Lemma lang_chr (c : ascii) (s : string) :
  Regex.lang (Regex.chr c) s <-> s = String c "".
Proof.
  unfold Regex.chr. split.
  - intros Hl. inversion Hl as [|q x Hp| | | | |]; subst.
    apply Ascii.eqb_eq in Hp. now subst.
  - intros ->. constructor. apply Ascii.eqb_refl.
Qed.

Lemma lang_cls p (s : string) :
  Regex.lang (Regex.Cls p) s <-> exists c, s = String c "" /\ p c = true.
Proof.
  split.
  - intros Hl. inversion Hl; subst. eauto.
  - intros (c & -> & Hp). now constructor.
Qed.

Lemma lang_dollar_iff (s : string) :
  Regex.lang Regex.dollar s <-> s = "" \/ s = String "010" "".
Proof.
  unfold Regex.dollar, Regex.opt. split.
  - intros Hl. inversion Hl as [| | |? ? ? Hc|? ? ? He| |]; subst.
    + apply lang_chr in Hc. now right.
    + inversion He. now left.
  - intros [-> | ->]; [apply Regex.L_alt_r; constructor |].
    apply Regex.L_alt_l. now apply lang_chr.
Qed.

(** The words of [_RE_SC]. *)
Lemma lang_RE_SC (line : string) :
  Regex.lang _RE_SC line <->
  exists w h1 h2 nl,
    line = "SC" +:+ w +:+ String h1 (String h2 nl)
    /\ w <> "" /\ PyStr.forallb_str PyStr.isspace w = true
    /\ PyStr.is_hex h1 = true /\ PyStr.is_hex h2 = true
    /\ (nl = "" \/ nl = String "010" "").
Proof.
  unfold _RE_SC, Regex.plus, Regex.ws. split.
  - intros Hl.
    apply lang_cat_inv in Hl as (a1 & r1 & -> & ->%lang_chr & Hl).
    apply lang_cat_inv in Hl as (a2 & r2 & -> & ->%lang_chr & Hl).
    apply lang_cat_inv in Hl as (w & r3 & -> & Hw & Hl).
    apply lang_cat_inv in Hw as (w1 & w2 & -> & (c & -> & Hc)%lang_cls & Hw2%lang_star_cls).
    apply lang_cat_inv in Hl as (a4 & r4 & -> & (h1 & -> & Hh1)%lang_cls & Hl).
    apply lang_cat_inv in Hl as (a5 & nl & -> & (h2 & -> & Hh2)%lang_cls & Hnl%lang_dollar_iff).
    exists (String c w2), h1, h2, nl. simpl. rewrite Hc, Hw2.
    repeat split; try assumption. discriminate.
  - intros (w & h1 & h2 & nl & -> & Hne & Hw & Hh1 & Hh2 & Hnl).
    destruct w as [|c w]; [contradiction |]. simpl in Hw.
    apply andb_true_iff in Hw as [Hc Hw].
    change ("SC" +:+ String c w +:+ String h1 (String h2 nl))
      with (String "S" "" +:+ (String "C" "" +:+ ((String c "" +:+ w)
              +:+ (String h1 "" +:+ (String h2 "" +:+ nl))))).
    repeat (constructor; try (now apply lang_chr); try (now apply lang_cls; eauto);
            try (now apply lang_star_cls); try (now apply lang_dollar_iff)).
Qed.

Lemma hex_not_newline (c : ascii) : PyStr.is_hex c = true -> Ascii.eqb c "010" = false.
Proof.
  destruct (Ascii.eqb_spec c "010") as [-> | _]; [| reflexivity].
  vm_compute. discriminate.
Qed.

Lemma chomp_append (a b : string) : b <> "" -> chomp (a +:+ b) = a +:+ chomp b.
Proof.
  intros Hb. induction a as [|x a IH]; [reflexivity |].
  simpl. destruct (a +:+ b) eqn:Hab.
  - apply append_eq_nil in Hab as [_ ->]. contradiction.
  - now rewrite <- IH.
Qed.

Lemma last_two_append (a : string) (x y : ascii) :
  last_two (a +:+ String x (String y "")) = String x (String y "").
Proof.
  induction a as [|c a IH]; [reflexivity |].
  simpl. destruct (a +:+ String x (String y "")) as [|c1 [|c2 r]] eqn:Hab.
  - destruct a; discriminate.
  - destruct a as [|? [|? ?]]; discriminate.
  - exact IH.
Qed.

(** What [match_SC] captures: the line is [SC], white space, the two
    hexadecimal digits captured, and at most a newline. *)
Lemma match_SC_spec (line g : string) :
  match_SC line = Some g <->
  exists w h1 h2 nl,
    line = "SC" +:+ w +:+ g +:+ nl /\ g = String h1 (String h2 "")
    /\ w <> "" /\ PyStr.forallb_str PyStr.isspace w = true
    /\ PyStr.is_hex h1 = true /\ PyStr.is_hex h2 = true
    /\ (nl = "" \/ nl = String "010" "").
Proof.
  assert (Hgroup : forall w h1 h2 nl,
    PyStr.is_hex h2 = true -> (nl = "" \/ nl = String "010" "") ->
    last_two (chomp ("SC" +:+ w +:+ String h1 (String h2 nl)))
    = String h1 (String h2 "")).
  { intros w h1 h2 nl Hh2 Hnl.
    replace ("SC" +:+ w +:+ String h1 (String h2 nl))
      with (("SC" +:+ w) +:+ String h1 (String h2 nl))
      by (now rewrite append_assoc).
    rewrite chomp_append by discriminate.
    assert (Hc : chomp (String h1 (String h2 nl)) = String h1 (String h2 "")).
    { destruct Hnl as [-> | ->]; simpl; [now rewrite (hex_not_newline h2 Hh2) | reflexivity]. }
    rewrite Hc. apply last_two_append. }
  unfold match_SC. split.
  - destruct (Regex.fullmatch _RE_SC line) eqn:Hm; [| discriminate].
    apply fullmatch_lang, lang_RE_SC in Hm
      as (w & h1 & h2 & nl & -> & Hne & Hw & Hh1 & Hh2 & Hnl).
    rewrite (Hgroup w h1 h2 nl Hh2 Hnl). intros [= <-].
    exists w, h1, h2, nl. repeat split; assumption.
  - intros (w & h1 & h2 & nl & -> & -> & Hne & Hw & Hh1 & Hh2 & Hnl).
    assert (Hm : Regex.fullmatch _RE_SC ("SC" +:+ w +:+ String h1 (String h2 "") +:+ nl) = true).
    { apply fullmatch_lang, lang_RE_SC. exists w, h1, h2, nl. repeat split; assumption. }
    rewrite Hm. f_equal. exact (Hgroup w h1 h2 nl Hh2 Hnl).
Qed.

Lemma hex_val_zero (c : ascii) : PyStr.hex_val c = Some 0%N -> c = "0"%char.
Proof.
  destruct c as [[] [] [] [] [] [] [] []]; vm_compute; intros Hc;
    first [reflexivity | discriminate].
Qed.

Lemma hex_val_some (c : ascii) :
  PyStr.is_hex c = true -> exists v, PyStr.hex_val c = Some v /\ (v < 16)%N.
Proof.
  destruct c as [[] [] [] [] [] [] [] []]; vm_compute; intros Hc;
    try discriminate; eexists; split; reflexivity.
Qed.

(** The lines that count as [SC 00]. *)
Lemma is_sc00_spec (line : string) :
  is_sc00 line = true <->
  exists w nl,
    line = "SC" +:+ w +:+ "00" +:+ nl
    /\ w <> "" /\ PyStr.forallb_str PyStr.isspace w = true
    /\ (nl = "" \/ nl = String "010" "").
Proof.
  unfold is_sc00, sc_value. split.
  - destruct (match_SC line) as [g|] eqn:Hm; [| discriminate].
    apply match_SC_spec in Hm as (w & h1 & h2 & nl & -> & -> & Hne & Hw & Hh1 & Hh2 & Hnl).
    destruct (hex_val_some h1 Hh1) as (v1 & Hv1 & Hlt1).
    destruct (hex_val_some h2 Hh2) as (v2 & Hv2 & Hlt2).
    unfold PyStr.int16. cbn [PyStr.int16_from]. rewrite Hv1, Hv2.
    intros Hz. apply N.eqb_eq in Hz.
    assert (v1 = 0%N) by lia. assert (v2 = 0%N) by lia. subst.
    apply hex_val_zero in Hv1, Hv2. subst. exists w, nl. repeat split; assumption.
  - intros (w & nl & -> & Hne & Hw & Hnl).
    assert (Hm : match_SC ("SC" +:+ w +:+ "00" +:+ nl) = Some "00").
    { apply match_SC_spec. exists w, "0"%char, "0"%char, nl. repeat split; assumption. }
    rewrite Hm. reflexivity.
Qed.

Lemma on_rx_idle line s : pending s = false -> on_rx line s = (false, s).
Proof. intros Hp. unfold on_rx. now rewrite Hp. Qed.

Lemma on_rx_pending line s :
  pending s = true ->
  on_rx line s = if is_sc00 line then (true, resolved) else (false, s).
Proof.
  intros Hp. unfold on_rx, is_sc00, sc_value. rewrite Hp. simpl.
  destruct (match_SC line) as [g|]; [| reflexivity].
  destruct (PyStr.int16 g) as [v|]; [| reflexivity].
  now destruct (v =? 0)%N.
Qed.

Lemma feed_idle lines : forall s,
  pending s = false -> feed lines s = (map (fun _ => false) lines, s).
Proof.
  induction lines as [|ln rest IH]; intros s Hp; simpl; [reflexivity |].
  rewrite (on_rx_idle ln s Hp), (IH s Hp). reflexivity.
Qed.

Lemma feed_pending lines : forall s,
  pending s = true ->
  feed lines s =
    (first_hit is_sc00 lines, if existsb is_sc00 lines then resolved else s).
Proof.
  induction lines as [|ln rest IH]; intros s Hp; simpl; [reflexivity |].
  rewrite (on_rx_pending ln s Hp).
  destruct (is_sc00 ln); simpl.
  - now rewrite feed_idle.
  - now rewrite (IH s Hp).
Qed.

Lemma count_all_false (lines : list string) :
  count_occ bool_dec (map (fun _ => false) lines) true = 0.
Proof. induction lines as [|ln rest IH]; simpl; [reflexivity | exact IH]. Qed.

Lemma count_first_hit p (lines : list string) :
  count_occ bool_dec (first_hit p lines) true = if existsb p lines then 1 else 0.
Proof.
  induction lines as [|ln rest IH]; simpl; [reflexivity |].
  destruct (p ln); simpl; [now rewrite count_all_false | exact IH].
Qed.

Lemma existsb_middle p (pre post : list string) ln :
  p ln = true -> existsb p (pre ++ ln :: post) = true.
Proof.
  intros Hp. rewrite existsb_app. simpl. rewrite Hp.
  now rewrite orb_true_r.
Qed.

Lemma parse_step_spec (flags : bool * bool * bool) (ln : string) :
  Injector.parse_step flags ln =
    (fst (fst flags) || is_echo ln, snd (fst flags) || is_sc10 ln,
     snd flags || is_sc00 ln).
Proof.
  destruct flags as [[echo sc10] sc00].
  unfold Injector.parse_step, is_echo, is_sc10, is_sc00, sc_value,
    Injector.match_SC_LINE. simpl.
  destruct (Injector.match_ECHO_N ln); simpl;
    destruct (match_SC ln) as [g|]; simpl; rewrite ?orb_false_r, ?orb_true_r;
    try reflexivity;
    (destruct (PyStr.int16 g) as [v|]; simpl; rewrite ?orb_false_r, ?orb_true_r;
     try reflexivity;
     destruct (N.eqb_spec v 16) as [-> | Hne]; simpl;
     rewrite ?orb_false_r, ?orb_true_r; try reflexivity;
     destruct (v =? 0)%N; simpl; rewrite ?orb_false_r, ?orb_true_r; reflexivity).
Qed.

Lemma parse_fold (lines : list string) : forall flags,
  fold_left Injector.parse_step lines flags =
    (fst (fst flags) || existsb is_echo lines,
     snd (fst flags) || existsb is_sc10 lines,
     snd flags || existsb is_sc00 lines).
Proof.
  induction lines as [|ln rest IH]; intros [[echo sc10] sc00]; cbn [fold_left existsb].
  - simpl. now rewrite !orb_false_r.
  - rewrite IH, parse_step_spec. simpl. now rewrite !orb_assoc.
Qed.

End AckTrackerFacts.

(** C1, as the specification words it, fails: armed and fed the single
    line [SC 00], with no echo and no [SC 10] before it, the tracker
    resolves. *)
Lemma C1_bare_sc00_resolves : ~ AckProtocol.needs_echo_and_transition.
Proof.
  intros Hclaim. specialize (Hclaim ["SC 00"]).
  vm_compute in Hclaim. specialize (Hclaim eq_refl). discriminate.
Qed.

(** C1, amended: fed any sequence of lines, an armed tracker answers
    [True] at the first line that is a status-code reply of value 00, and
    only there, whatever came before it; it is then resolved, and stays
    armed when no such line comes.  The blocking helper's
    [_parse_inject_ack] likewise reports the echo, [SC 10] and [SC 00] as
    three separate observations, in whatever order the lines show them. *)
Theorem C1_resolved_by_first_sc00 (lines : list string) (s : AckTracker.t) :
  AckTracker.feed lines (AckTracker.start s) =
    (AckProtocol.first_hit AckTracker.is_sc00 lines,
     if existsb AckTracker.is_sc00 lines
     then AckProtocol.resolved else AckTracker.start s)
  /\ Injector._parse_inject_ack lines =
       (existsb AckProtocol.is_echo lines, existsb AckProtocol.is_sc10 lines,
        existsb AckTracker.is_sc00 lines).
Proof.
  split.
  - generalize (AckTracker.start s) (eq_refl : AckTracker.pending (AckTracker.start s) = true).
    clear s. intros s Hp.
    induction lines as [|ln rest IH]; simpl; [reflexivity |].
    rewrite (on_rx_pending ln s Hp).
    destruct (AckTracker.is_sc00 ln); simpl.
    + now rewrite feed_idle.
    + now rewrite IH.
  - unfold Injector._parse_inject_ack. now rewrite parse_fold.
Qed.

(** C2: armed by [start()] and fed lines among which an echo, an [SC 10]
    and an [SC 00] come in this order, [on_rx] answers [True] exactly once,
    and never again on the lines that follow while resolved; a tracker
    that was never armed answers [False] on every line, [SC 00] included. *)
Theorem C2_resolves_exactly_once
    (s : AckTracker.t) (pre mid1 mid2 post later : list string)
    (echo sc10 sc00 : string)
    (Hecho : AckProtocol.is_echo echo = true)
    (H10 : AckProtocol.is_sc10 sc10 = true)
    (H00 : AckTracker.is_sc00 sc00 = true) :
  let lines := pre ++ echo :: mid1 ++ sc10 :: mid2 ++ sc00 :: post in
  AckTracker.resolutions lines (AckTracker.start s) = 1
  /\ AckTracker.resolutions later
       (snd (AckTracker.feed lines (AckTracker.start s))) = 0
  /\ (forall unarmed : list string,
        AckTracker.feed unarmed AckTracker.init
        = (map (fun _ => false) unarmed, AckTracker.init))
  /\ AckTracker.on_rx "SC 00" AckTracker.init = (false, AckTracker.init).
Proof.
  intros lines.
  assert (Hex : existsb AckTracker.is_sc00 lines = true).
  { unfold lines.
    replace (pre ++ echo :: mid1 ++ sc10 :: mid2 ++ sc00 :: post)
      with ((pre ++ echo :: mid1 ++ sc10 :: mid2) ++ sc00 :: post).
    - now apply existsb_middle.
    - rewrite <- !app_assoc. simpl. rewrite <- !app_assoc. reflexivity. }
  unfold AckTracker.resolutions.
  rewrite (feed_pending lines (AckTracker.start s) eq_refl), Hex. simpl.
  repeat split.
  - rewrite count_first_hit, Hex. reflexivity.
  - rewrite feed_idle by reflexivity. apply count_all_false.
  - intros unarmed. now apply feed_idle.
Qed.

Lemma C2_resolves_exactly_once_witness :
  AckProtocol.is_echo "I> N 00C0FFEE00" = true
  /\ AckProtocol.is_sc10 "SC 10" = true
  /\ AckTracker.is_sc00 "SC 00" = true
  /\ AckTracker.resolutions
       (["O> "] ++ "I> N 00C0FFEE00" :: [] ++ "SC 10" :: ["FC 00"] ++ "SC 00" :: ["SC 00"])
       (AckTracker.start AckTracker.init) = 1.
Proof.
  assert (He : AckProtocol.is_echo "I> N 00C0FFEE00" = true) by (vm_compute; reflexivity).
  assert (H10 : AckProtocol.is_sc10 "SC 10" = true) by (vm_compute; reflexivity).
  assert (H00 : AckTracker.is_sc00 "SC 00" = true) by (vm_compute; reflexivity).
  split; [exact He |]. split; [exact H10 |]. split; [exact H00 |].
  exact (proj1 (C2_resolves_exactly_once AckTracker.init ["O> "] [] ["FC 00"] ["SC 00"]
                  ["SC 00"] "I> N 00C0FFEE00" "SC 10" "SC 00" He H10 H00)).
Defined.

(** C8: [wait(timeout)] leaves the tracker as it finds it.  After a wait
    that timed out on an armed tracker the acknowledgement is still
    pending, an [SC 00] that comes later resolves it, and the next
    [start()] clears that resolution. *)
Theorem C8_wait_is_read_only
    (s : AckTracker.t) (t1 t2 t3 : Q) (late : string)
    (Hlate : AckTracker.is_sc00 late = true) :
  (forall (tm : Q) (s0 : AckTracker.t), snd (AckTracker.wait tm s0) = s0)
  /\ AckTracker.pending (snd (AckTracker.wait t1 (AckTracker.start s))) = true
  /\ AckTracker.run
       [AckTracker.Start; AckTracker.Wait t1; AckTracker.Rx late;
        AckTracker.Wait t2; AckTracker.Start; AckTracker.Wait t3] s
     = ([None; Some false; Some true; Some true; None; Some false],
        AckTracker.mk true false).
Proof.
  split; [reflexivity |]. split; [reflexivity |].
  cbn [AckTracker.run AckTracker.step AckTracker.wait].
  rewrite (on_rx_pending late (AckTracker.start s) eq_refl), Hlate. reflexivity.
Qed.

Lemma C8_wait_is_read_only_witness :
  AckTracker.is_sc00 "SC 00" = true
  /\ AckTracker.pending
       (snd (AckTracker.wait (1 # 2) (AckTracker.start AckTracker.init))) = true.
Proof.
  assert (H00 : AckTracker.is_sc00 "SC 00" = true) by (vm_compute; reflexivity).
  split; [exact H00 |].
  exact (proj1 (proj2 (C8_wait_is_read_only AckTracker.init (1 # 2) 1 1 "SC 00" H00))).
Defined.

(** ** End-condition prompts *)

(** C10: for every reason, [end_condition_prompt] gives the message of the
    profile's table when the reason, stripped and lowercased, is one of its
    keys ([exhausted] for the address list; [duration_elapsed] and
    [max_reached] for the uniform profile) and the empty string otherwise.
    Both are total functions: no reason makes them fail. *)
Theorem C10_end_condition_prompt (reason : string) :
  let key := PyStr.lower (PyStr.strip reason) in
  AddressList.end_condition_prompt reason =
    (if String.eqb key "exhausted" then "Address list exhausted." else "")
  /\ Uniform.end_condition_prompt reason =
       (if String.eqb key "duration_elapsed" then "Duration limit reached."
        else if String.eqb key "max_reached" then "Maximum shots limit reached."
        else "").
Proof.
  intros key. split.
  - unfold AddressList.end_condition_prompt, AddressList._END_MESSAGES. fold key.
    destruct (String.eqb_spec key "exhausted") as [-> | Hne].
    + now rewrite lookup_singleton_eq.
    + rewrite lookup_singleton_ne by congruence. reflexivity.
  - unfold Uniform.end_condition_prompt, Uniform._END_MESSAGES. fold key.
    destruct (String.eqb_spec key "duration_elapsed") as [-> | Hne1].
    + now rewrite lookup_insert_eq.
    + rewrite lookup_insert_ne by congruence.
      destruct (String.eqb_spec key "max_reached") as [-> | Hne2].
      * now rewrite lookup_singleton_eq.
      * rewrite lookup_singleton_ne by congruence. reflexivity.
Qed.

Example end_prompt_trims_and_lowers :
  AddressList.end_condition_prompt "  EXHAUSTED " = "Address list exhausted."
  /\ Uniform.end_condition_prompt "Max_Reached" = "Maximum shots limit reached."
  /\ Uniform.end_condition_prompt "area_exhausted" = "".
Proof. vm_compute. auto. Qed.

(** ** Strings *)

Section StringFacts.
Import PyStr.

Lemma rstrip_last (s : string) : forall t c,
  rstrip s = t +:+ String c "" -> isspace c = false.
Proof.
  induction s as [|a s IH]; intros t c Heq; simpl in Heq.
  - destruct t; discriminate.
  - destruct (rstrip s) as [|b r] eqn:Hr.
    + destruct (isspace a) eqn:Ha; [destruct t; discriminate |].
      destruct t as [|x t]; simpl in Heq.
      * now injection Heq as <-.
      * injection Heq as _ Heq. destruct t; discriminate.
    + destruct t as [|x t]; simpl in Heq; [discriminate |].
      injection Heq as _ Heq. now apply (IH t c).
Qed.

Lemma rstrip_idem (s : string) : rstrip (rstrip s) = rstrip s.
Proof.
  induction s as [|a s IH]; simpl; [reflexivity |].
  destruct (rstrip s) as [|b r] eqn:Hr.
  - destruct (isspace a) eqn:Ha; simpl; [reflexivity | now rewrite Ha].
  - change (rstrip (String a (String b r))) with
      (match rstrip (String b r) with
       | "" => if isspace a then "" else String a ""
       | String x y => String a (String x y)
       end).
    now rewrite IH.
Qed.

Lemma rstrip_head (a : ascii) (s : string) :
  isspace a = false -> exists r, rstrip (String a s) = String a r.
Proof.
  intros Ha. simpl. destruct (rstrip s); [rewrite Ha |]; eauto.
Qed.

Lemma lstrip_head (s : string) :
  lstrip s = "" \/ exists a r, lstrip s = String a r /\ isspace a = false.
Proof.
  induction s as [|a s IH]; simpl; [now left |].
  destruct (isspace a) eqn:Ha; [exact IH | right; eauto].
Qed.

Lemma strip_idem (s : string) : strip (strip s) = strip s.
Proof.
  unfold strip.
  destruct (lstrip_head s) as [-> | (a & r & -> & Ha)]; [reflexivity |].
  destruct (rstrip_head a r Ha) as [r' Hr']. rewrite Hr'.
  simpl lstrip. rewrite Ha, <- Hr'. apply rstrip_idem.
Qed.

Lemma strip_no_trailing_space (s t : string) (c : ascii) :
  strip s = t +:+ String c "" -> isspace c = false.
Proof. apply rstrip_last. Qed.

Lemma length_append (a b : string) :
  String.length (a +:+ b) = String.length a + String.length b.
Proof. induction a as [|x a IH]; simpl; [reflexivity | now rewrite IH]. Qed.

Lemma forallb_str_append p (a b : string) :
  forallb_str p (a +:+ b) = forallb_str p a && forallb_str p b.
Proof.
  induction a as [|x a IH]; simpl; [reflexivity |].
  now rewrite IH, andb_assoc.
Qed.

Lemma length_map_chars f (s : string) :
  String.length (map_chars f s) = String.length s.
Proof. induction s as [|c s IH]; simpl; [reflexivity | now rewrite IH]. Qed.

Lemma upper_char_hex (c : ascii) :
  is_hex c = true -> AddressList.is_upper_hex_digit (upper_char c) = true.
Proof.
  destruct c as [[] [] [] [] [] [] [] []]; vm_compute; intros Hc;
    first [reflexivity | discriminate].
Qed.

Lemma upper_hex_valid (s : string) :
  forallb_str is_hex s = true ->
  forallb_str AddressList.is_upper_hex_digit (upper s) = true.
Proof.
  unfold upper. induction s as [|c s IH]; simpl; [reflexivity |].
  intros [Hc Hs]%andb_true_iff.
  now rewrite (upper_char_hex c Hc), IH.
Qed.

End StringFacts.

(** ** The ten-digit pattern *)

Section Hex10Facts.
Import Regex AddressList.

Lemma lang_dollar (s : string) : lang dollar s -> s = "" \/ s = String "010" "".
Proof.
  intros Hl. inversion Hl as [| | |? ? ? Hc|? ? ? He| |]; subst.
  - inversion Hc as [|p c Hp| | | | |]; subst.
    apply Ascii.eqb_eq in Hp. subst. now right.
  - inversion He. now left.
Qed.

Lemma lang_times (n : nat) p k : forall s,
  lang (times n (Cls p) k) s ->
  exists s1 s2, s = s1 +:+ s2 /\ String.length s1 = n
                /\ PyStr.forallb_str p s1 = true /\ lang k s2.
Proof.
  induction n as [|n IH]; intros s Hl; simpl in Hl.
  - exists "", s. auto.
  - apply lang_cat_inv in Hl as (s1 & s2 & -> & H1 & H2).
    inversion H1 as [|q c Hp| | | | |]; subst.
    apply IH in H2 as (t1 & t2 & -> & Hlen & Hall & Hk).
    exists (String c t1), t2. simpl. rewrite Hp, Hall, Hlen. auto.
Qed.

(** On a stripped string the pattern accepts ten hexadecimal digits and
    nothing else: the newline that [$] tolerates cannot be there. *)
Lemma hex10_stripped (x : string) :
  fullmatch _HEX10_RE (PyStr.strip x) = true -> is_hex10 (PyStr.strip x) = true.
Proof.
  intros Hm. apply fullmatch_lang in Hm. unfold _HEX10_RE in Hm.
  apply lang_times in Hm as (s1 & s2 & Heq & Hlen & Hall & Hd).
  apply lang_dollar in Hd as [-> | ->].
  - rewrite append_nil_r in Heq. rewrite Heq.
    unfold is_hex10. now rewrite Hlen, Hall.
  - apply strip_no_trailing_space in Heq. discriminate.
Qed.

Lemma hex10_upper_valid (s : string) :
  is_hex10 s = true -> valid_lfa (PyStr.upper s) = true.
Proof.
  unfold is_hex10, valid_lfa. intros [Hlen Hall]%andb_true_iff.
  unfold PyStr.upper at 1. rewrite length_map_chars, Hlen.
  now rewrite upper_hex_valid.
Qed.

End Hex10Facts.

(** ** Address list profile *)

Section AddressListFacts.
Import Py AreaBase AddressList.
Context `{Runtime}.

Lemma validate_inr (raw_addrs : list string) : forall idx addrs,
  validate idx raw_addrs = inr addrs ->
  addrs = map (fun l => PyStr.upper (PyStr.strip l)) raw_addrs
  /\ Forall (fun l => is_hex10 (PyStr.strip l) = true) raw_addrs.
Proof.
  induction raw_addrs as [|line rest IH]; intros idx addrs Hv; simpl in Hv.
  - injection Hv as <-. split; [reflexivity | constructor].
  - destruct (Regex.fullmatch _HEX10_RE (PyStr.strip line)) eqn:Hm; [| discriminate].
    destruct (validate (S idx) rest) as [e | addrs'] eqn:Hrest; [discriminate |].
    injection Hv as <-.
    destruct (IH _ _ Hrest) as [-> Hall].
    split; [reflexivity |].
    constructor; [now apply hex10_stripped | exact Hall].
Qed.

Lemma load_keeps (raws : list string) (raw : string) :
  In raw raws ->
  String.eqb (PyStr.strip raw) "" = false ->
  PyStr.startswith "#" (PyStr.strip raw) = false ->
  In (PyStr.strip raw) (load_addresses_file raws).
Proof.
  intros Hin Hne Hnc. induction raws as [|r rest IH]; simpl in *; [contradiction |].
  destruct Hin as [-> | Hin].
  - rewrite Hne, Hnc. simpl. now left.
  - destruct (_ || _); [| right]; now apply IH.
Qed.

Lemma load_stripped (raws : list string) :
  Forall (fun l => PyStr.strip l = l) (load_addresses_file raws).
Proof.
  induction raws as [|r rest IH]; simpl; [constructor |].
  destruct (_ || _); [exact IH |].
  constructor; [apply strip_idem | exact IH].
Qed.

Lemma length_load (raws : list string) :
  length (load_addresses_file raws) <= length raws.
Proof.
  induction raws as [|r rest IH]; simpl; [lia |].
  destruct (_ || _); simpl; lia.
Qed.

Lemma resolve_mode_some (cands : list value) (m : string) :
  resolve_mode cands = Some m -> m = "sequential" \/ m = "random".
Proof.
  induction cands as [|c rest IH]; simpl; [discriminate |].
  assert (Hstep : forall s,
    (if String.eqb s "sequential" || String.eqb s "random" then Some s
     else if String.eqb s "shuffle" then Some "random"
     else resolve_mode rest) = Some m -> m = "sequential" \/ m = "random").
  { intros s.
    destruct (String.eqb_spec s "sequential") as [-> | _]; simpl.
    - intros [= <-]. now left.
    - destruct (String.eqb_spec s "random") as [-> | _].
      + intros [= <-]. now right.
      + destruct (String.eqb s "shuffle"); [intros [= <-]; now right | exact IH]. }
  destruct c; [exact IH | apply Hstep | apply Hstep].
Qed.

(** What a successful construction has done. *)
Lemma init_inr fs kwargs ent p :
  init fs kwargs ent = inr p ->
  exists raws addrs,
    fs (_path p) = Some raws
    /\ validate 1 (load_addresses_file raws) = inr addrs
    /\ _idx p = 0
    /\ ((_mode p = "sequential" /\ _addrs p = addrs)
        \/ (_mode p = "random"
            /\ _addrs p = random_shuffle
                 (match _seed p with Some z => Seeded z | None => FromOS ent end) addrs)).
Proof.
  unfold init, pop. cbv zeta.
  set (kw := _norm_keys kwargs).
  set (path := default _ (delete "file" kw !! "path")).
  destruct (negb (truthy path) || negb (is_str path)); [discriminate |].
  destruct (fs (Py.str path)) as [raws|] eqn:Hfs; [| discriminate].
  destruct (validate 1 (load_addresses_file raws)) as [e | addrs] eqn:Hv; [discriminate |].
  match goal with
  | |- context [resolve_mode ?c] => destruct (resolve_mode c) as [m|] eqn:Hm; [| discriminate]
  end.
  intros [= <-]. simpl.
  exists raws, addrs. repeat split; try assumption.
  apply resolve_mode_some in Hm as [-> | ->]; [left | right]; split; reflexivity.
Qed.

Lemma next_address_spec (p : profile) :
  next_address p =
    match _addrs p !! _idx p with
    | Some out => (Some out, mk (_addrs p) (S (_idx p)) (_path p) (_mode p) (_seed p))
    | None => (None, p)
    end.
Proof.
  unfold next_address.
  destruct (Nat.leb_spec (length (_addrs p)) (_idx p)) as [Hle | Hlt];
    [| reflexivity].
  now rewrite (lookup_ge_None_2 _ _ Hle).
Qed.

Lemma serve_spec (n : nat) : forall p,
  serve n p = take n (drop (_idx p) (_addrs p)).
Proof.
  induction n as [|n IH]; intros p; simpl; [reflexivity |].
  rewrite next_address_spec.
  destruct (_addrs p !! _idx p) as [out|] eqn:Hl.
  - rewrite IH. simpl. now rewrite (drop_S _ _ _ Hl).
  - apply lookup_ge_None_1 in Hl. now rewrite drop_ge.
Qed.

Lemma answers_valid (cs : list call) : forall p a,
  Forall (fun x => valid_lfa x = true) (_addrs p) ->
  In (Some a) (answers cs p) -> valid_lfa a = true.
Proof.
  induction cs as [|c cs IH]; intros p a Hall Hin; simpl in Hin; [contradiction |].
  destruct c.
  - rewrite next_address_spec in Hin.
    destruct (_addrs p !! _idx p) as [out|] eqn:Hl; simpl in Hin;
      destruct Hin as [Heq | Hin]; try discriminate.
    + injection Heq as <-. exact (Forall_lookup_1 _ _ _ _ Hall Hl).
    + eapply IH; [| exact Hin]. exact Hall.
    + eapply IH; [| exact Hin]. exact Hall.
  - eapply IH; [| exact Hin]. exact Hall.
Qed.

Lemma validated_valid (raw_addrs : list string) idx addrs :
  validate idx raw_addrs = inr addrs -> Forall (fun x => valid_lfa x = true) addrs.
Proof.
  intros Hv. apply validate_inr in Hv as [-> Hall].
  induction Hall as [|l rest Hl _ IH]; simpl; constructor;
    [now apply hex10_upper_valid | exact IH].
Qed.

Lemma init_addrs_valid fs kwargs ent p :
  init fs kwargs ent = inr p -> Forall (fun x => valid_lfa x = true) (_addrs p).
Proof.
  intros Hi. apply init_inr in Hi as (raws & addrs & _ & Hv & _ & Hmode).
  apply validated_valid in Hv.
  destruct Hmode as [[_ ->] | [_ ->]]; [exact Hv |].
  eapply Permutation_Forall; [| exact Hv].
  symmetry. apply random_shuffle_perm.
Qed.

Lemma init_no_bad_line fs kwargs ent p raws raw :
  init fs kwargs ent = inr p -> fs (_path p) = Some raws ->
  In raw raws -> bad_line raw = false.
Proof.
  intros Hi Hfs Hin.
  apply init_inr in Hi as (raws' & addrs & Hfs' & Hv & _).
  rewrite Hfs in Hfs'. injection Hfs' as <-.
  apply validate_inr in Hv as [_ Hall].
  unfold bad_line.
  destruct (String.eqb (PyStr.strip raw) "") eqn:Hne; [reflexivity |].
  destruct (PyStr.startswith "#" (PyStr.strip raw)) eqn:Hnc; [reflexivity |].
  pose proof (load_keeps raws raw Hin Hne Hnc) as Hk.
  rewrite Forall_forall in Hall. specialize (Hall _ (proj2 (list_elem_of_In _ _) Hk)).
  rewrite strip_idem in Hall. now rewrite Hall.
Qed.

End AddressListFacts.

(** C6: every address the profile gives out through [next_address], in any
    sequence of calls after a successful construction, is ten characters
    of [0-9A-F]; a construction that succeeds has read a file with no line
    that is neither blank, nor a comment, nor ten hexadecimal digits, so a
    file with such a line makes construction fail. *)
Theorem C6_only_valid_addresses_served `{Py.Runtime}
    (fs : string -> option (list string)) (kwargs : list (string * Py.value))
    (os_entropy : N) :
  (forall p, AddressList.init fs kwargs os_entropy = inr p ->
     forall cs a, In (Some a) (AddressList.answers cs p) ->
       AddressList.valid_lfa a = true)
  /\ (forall p raws raw, AddressList.init fs kwargs os_entropy = inr p ->
        fs (AddressList._path p) = Some raws -> In raw raws ->
        AddressList.bad_line raw = false)
  /\ (forall raws raw, (forall path, fs path = Some raws) ->
        In raw raws -> AddressList.bad_line raw = true ->
        exists e, AddressList.init fs kwargs os_entropy = inl e).
Proof.
  split; [| split].
  - intros p Hi cs a Hin.
    exact (answers_valid cs p a (init_addrs_valid _ _ _ _ Hi) Hin).
  - intros p raws raw Hi Hfs Hin. exact (init_no_bad_line _ _ _ _ _ _ Hi Hfs Hin).
  - intros raws raw Hfs Hin Hbad.
    destruct (AddressList.init fs kwargs os_entropy) as [e | p] eqn:Hi; [eauto |].
    rewrite (init_no_bad_line _ _ _ _ _ _ Hi (Hfs _) Hin) in Hbad. discriminate.
Qed.

Lemma C6_only_valid_addresses_served_witness :
  AddressList.init Concrete.fs Concrete.sequential_kwargs 0 = inr Concrete.three_lfa_area
  /\ In (Some "0123456789")
       (AddressList.answers
          [AddressList.CallNext; AddressList.CallReset; AddressList.CallNext;
           AddressList.CallNext] Concrete.three_lfa_area)
  /\ AddressList.valid_lfa "0123456789" = true.
Proof.
  assert (Hi : AddressList.init Concrete.fs Concrete.sequential_kwargs 0
               = inr Concrete.three_lfa_area) by (vm_compute; reflexivity).
  assert (Hin : In (Some "0123456789")
                  (AddressList.answers
                     [AddressList.CallNext; AddressList.CallReset; AddressList.CallNext;
                      AddressList.CallNext] Concrete.three_lfa_area))
    by (vm_compute; auto).
  split; [exact Hi |]. split; [exact Hin |].
  exact (proj1 (C6_only_valid_addresses_served Concrete.fs Concrete.sequential_kwargs 0)
           _ Hi _ _ Hin).
Defined.

Example bad_line_fails_construction :
  AddressList.init (fun _ => Some ["00C0FFEE00"; "# ok"; "00C0FFEE0"])
    Concrete.sequential_kwargs 0
  = inl (AddressList.InvalidLFA 2 "00C0FFEE0").
Proof. vm_compute. reflexivity. Qed.

(** C7: two constructions over the same file in random mode with the same
    integer seed serve the same addresses in the same order, whatever else
    differs between the runs; in sequential mode the addresses are served
    in the order of the file's lines. *)
Theorem C7_ordering_deterministic `{Py.Runtime}
    (fs : string -> option (list string)) :
  (forall kw1 kw2 e1 e2 p1 p2 z,
     AddressList.init fs kw1 e1 = inr p1 ->
     AddressList.init fs kw2 e2 = inr p2 ->
     AddressList._path p1 = AddressList._path p2 ->
     AddressList._mode p1 = "random" -> AddressList._mode p2 = "random" ->
     AddressList._seed p1 = Some z -> AddressList._seed p2 = Some z ->
     forall n, AddressList.serve n p1 = AddressList.serve n p2)
  /\ (forall kw e p raws,
        AddressList.init fs kw e = inr p ->
        AddressList._mode p = "sequential" ->
        fs (AddressList._path p) = Some raws ->
        forall n, length raws <= n ->
          AddressList.serve n p = map PyStr.upper (AreaBase.load_addresses_file raws)).
Proof.
  split.
  - intros kw1 kw2 e1 e2 p1 p2 z Hi1 Hi2 Hpath Hm1 Hm2 Hs1 Hs2 n.
    apply init_inr in Hi1 as (raws1 & addrs1 & Hfs1 & Hv1 & Hidx1 & Hmode1).
    apply init_inr in Hi2 as (raws2 & addrs2 & Hfs2 & Hv2 & Hidx2 & Hmode2).
    rewrite Hpath, Hfs2 in Hfs1. injection Hfs1 as <-.
    rewrite Hv2 in Hv1. injection Hv1 as <-.
    rewrite Hm1, Hs1 in Hmode1. rewrite Hm2, Hs2 in Hmode2.
    destruct Hmode1 as [[Hx _] | [_ Ha1]]; [discriminate |].
    destruct Hmode2 as [[Hx _] | [_ Ha2]]; [discriminate |].
    rewrite !serve_spec, Hidx1, Hidx2, Ha1, Ha2. reflexivity.
  - intros kw e p raws Hi Hm Hfs n Hn.
    apply init_inr in Hi as (raws' & addrs & Hfs' & Hv & Hidx & Hmode).
    rewrite Hfs in Hfs'. injection Hfs' as <-.
    rewrite Hm in Hmode. destruct Hmode as [[_ Ha] | [Hx _]]; [| discriminate].
    apply validate_inr in Hv as [-> _].
    rewrite serve_spec, Hidx, Ha, drop_0.
    rewrite take_ge by (rewrite length_map; pose proof (length_load raws); lia).
    apply map_ext_Forall. eapply Forall_impl; [apply load_stripped |].
    intros l Hl. simpl in Hl. now rewrite Hl.
Qed.

Lemma C7_ordering_deterministic_witness :
  (exists p1 p2,
     AddressList.init Concrete.fs Concrete.random_kwargs 1 = inr p1
     /\ AddressList.init Concrete.fs (("order", Py.PStr "shuffle") :: Concrete.random_kwargs) 2
        = inr p2
     /\ AddressList.serve 3 p1 = AddressList.serve 3 p2)
  /\ AddressList.serve 5 Concrete.three_lfa_area
     = map PyStr.upper (AreaBase.load_addresses_file Concrete.three_lfa_file).
Proof.
  split.
  - eexists _, _. split; [vm_compute; reflexivity |]. split; [vm_compute; reflexivity |].
    eapply (proj1 (C7_ordering_deterministic Concrete.fs)
              Concrete.random_kwargs
              (("order", Py.PStr "shuffle") :: Concrete.random_kwargs) 1%N 2%N _ _ 7%Z);
      vm_compute; reflexivity.
  - eapply (proj2 (C7_ordering_deterministic Concrete.fs) Concrete.sequential_kwargs 0%N);
      [vm_compute; reflexivity | reflexivity | reflexivity | simpl; lia].
Defined.

(** ** Binary64 comparisons and signs *)

Section FloatFacts.
Local Open Scope float_scope.
Import SpecFloat PrimFloat FloatOps FloatAxioms.

Lemma SFcompare_refl (x : spec_float) :
  SFcompare x x = None \/ SFcompare x x = Some Eq.
Proof.
  destruct x as [s | s | | s m e]; simpl; auto.
  - destruct s; auto.
  - destruct s; rewrite Z.compare_refl, Pos.compare_cont_refl; auto.
Qed.

Lemma SFcompare_antisym (x y : spec_float) :
  SFcompare y x = option_map CompOpp (SFcompare x y).
Proof.
  destruct x as [sx | sx | | sx mx ex], y as [sy | sy | | sy my ey]; simpl;
    try reflexivity; try (destruct sx; reflexivity); try (destruct sy; reflexivity);
    try (destruct sx, sy; reflexivity).
  assert (Hm : Pos.compare_cont Eq my mx = CompOpp (Pos.compare_cont Eq mx my))
    by (rewrite Pos.compare_cont_antisym; reflexivity).
  destruct sx, sy; try reflexivity; simpl; f_equal;
    rewrite (Z.compare_antisym ex ey), Hm;
    destruct (ex ?= ey)%Z; simpl; try reflexivity;
    destruct (Pos.compare_cont Eq mx my); reflexivity.
Qed.

Lemma ltb_irrefl (x : float) : ltb x x = false.
Proof.
  rewrite ltb_spec. unfold SFltb.
  destruct (SFcompare_refl (Prim2SF x)) as [-> | ->]; reflexivity.
Qed.

Lemma ltb_asym (x y : float) : ltb x y = true -> ltb y x = false.
Proof.
  rewrite !ltb_spec. unfold SFltb. rewrite (SFcompare_antisym (Prim2SF x) (Prim2SF y)).
  destruct (SFcompare (Prim2SF x) (Prim2SF y)) as [[| |]|]; simpl; congruence.
Qed.

Lemma ltb_leb (x y : float) : ltb x y = true -> leb x y = true.
Proof.
  rewrite ltb_spec, leb_spec. unfold SFltb, SFleb.
  destruct (SFcompare (Prim2SF x) (Prim2SF y)) as [[| |]|]; congruence.
Qed.

Lemma ltb_not_leb (x y : float) : ltb x y = true -> leb y x = false.
Proof.
  rewrite ltb_spec, leb_spec. unfold SFltb, SFleb.
  rewrite (SFcompare_antisym (Prim2SF x) (Prim2SF y)).
  destruct (SFcompare (Prim2SF x) (Prim2SF y)) as [[| |]|]; simpl; congruence.
Qed.

Lemma eqb_not_ltb (x y : float) : eqb x y = true -> ltb y x = false.
Proof.
  rewrite eqb_spec, ltb_spec. unfold SFeqb, SFltb.
  rewrite (SFcompare_antisym (Prim2SF x) (Prim2SF y)).
  destruct (SFcompare (Prim2SF x) (Prim2SF y)) as [[| |]|]; simpl; congruence.
Qed.

Lemma is_nan_compare (x : float) :
  is_nan x = false <-> SFcompare (Prim2SF x) (Prim2SF x) = Some Eq.
Proof.
  unfold is_nan. rewrite negb_false_iff, eqb_spec. unfold SFeqb.
  destruct (SFcompare_refl (Prim2SF x)) as [-> | ->]; split; congruence.
Qed.

Lemma is_nan_SF (x : float) : is_nan x = true <-> Prim2SF x = S754_nan.
Proof.
  unfold is_nan. rewrite negb_true_iff, eqb_spec. unfold SFeqb.
  destruct (Prim2SF x) as [s | s | | s m e]; simpl.
  - split; discriminate.
  - destruct s; split; discriminate.
  - split; reflexivity.
  - destruct s; rewrite Z.compare_refl, Pos.compare_cont_refl; split; discriminate.
Qed.

Lemma compare_some (x y : float) :
  is_nan x = false -> is_nan y = false ->
  exists c, SFcompare (Prim2SF x) (Prim2SF y) = Some c.
Proof.
  intros Hx Hy.
  assert (Hx' : Prim2SF x <> S754_nan)
    by (intros Hn; apply is_nan_SF in Hn; congruence).
  assert (Hy' : Prim2SF y <> S754_nan)
    by (intros Hn; apply is_nan_SF in Hn; congruence).
  destruct (Prim2SF x) as [sx | sx | | sx mx ex], (Prim2SF y) as [sy | sy | | sy my ey];
    simpl; try congruence; eauto.
Qed.

Lemma leb_total (x y : float) :
  is_nan x = false -> is_nan y = false -> ltb y x = false -> leb x y = true.
Proof.
  intros Hx Hy. rewrite ltb_spec, leb_spec. unfold SFltb, SFleb.
  rewrite (SFcompare_antisym (Prim2SF x) (Prim2SF y)).
  destruct (compare_some x y Hx Hy) as [c ->]. destruct c; simpl; congruence.
Qed.

Lemma leb_refl (x : float) : is_nan x = false -> leb x x = true.
Proof.
  intros Hx. rewrite leb_spec. unfold SFleb.
  apply is_nan_compare in Hx. now rewrite Hx.
Qed.

Lemma ltb_numbers (x y : float) :
  ltb x y = true -> is_nan x = false /\ is_nan y = false.
Proof.
  rewrite ltb_spec. unfold SFltb. intros Hlt.
  split; apply not_true_is_false; intros Hn; apply is_nan_SF in Hn;
    rewrite Hn in Hlt; [| destruct (Prim2SF x)]; discriminate.
Qed.

Lemma leb_numbers (x y : float) :
  leb x y = true -> is_nan x = false /\ is_nan y = false.
Proof.
  rewrite leb_spec. unfold SFleb. intros Hle.
  split; apply not_true_is_false; intros Hn; apply is_nan_SF in Hn;
    rewrite Hn in Hle; [| destruct (Prim2SF x)]; discriminate.
Qed.


Lemma iter_pos_keeps {X : Type} (P : X -> Prop) (f : X -> X) :
  (forall x, P x -> P (f x)) -> forall p x, P x -> P (iter_pos f p x).
Proof.
  intros Hf. induction p as [p IH | p IH |]; intros x Hx; simpl; auto.
Qed.

Lemma shr_1_nonneg (mrs : shr_record) :
  (0 <= shr_m mrs)%Z -> (0 <= shr_m (shr_1 mrs))%Z.
Proof.
  destruct mrs as [m r s]. simpl.
  destruct m as [| [p | p |] | [p | p |]]; simpl; lia.
Qed.

Lemma shr_fexp_nonneg (m e : Z) (l : location) :
  (0 <= m)%Z -> (0 <= shr_m (fst (shr_fexp prec emax m e l)))%Z.
Proof.
  intros Hm. unfold shr_fexp, shr.
  assert (H0 : (0 <= shr_m (shr_record_of_loc m l))%Z)
    by (destruct l as [| []]; exact Hm).
  destruct (_ - e)%Z as [| p | p]; simpl; try exact H0.
  apply (iter_pos_keeps (fun mrs => (0 <= shr_m mrs)%Z)); [apply shr_1_nonneg | exact H0].
Qed.

Lemma round_nearest_even_nonneg (m : Z) (l : location) :
  (0 <= m)%Z -> (0 <= round_nearest_even m l)%Z.
Proof.
  intros Hm. destruct l as [| []]; simpl; try lia. destruct (Z.even m); lia.
Qed.

(** What the rounding of a mantissa that is not negative gives: a zero,
    an infinity or a finite number of the sign asked for. *)
Lemma binary_round_aux_sign (s : bool) (m e : Z) (l : location) :
  (0 <= m)%Z ->
  match binary_round_aux prec emax s m e l with
  | S754_zero s' | S754_infinity s' | S754_finite s' _ _ => s' = s
  | S754_nan => False
  end.
Proof.
  intros Hm. unfold binary_round_aux.
  pose proof (shr_fexp_nonneg m e l Hm) as H1.
  destruct (shr_fexp prec emax m e l) as [mrs' e']. simpl in H1.
  pose proof (shr_fexp_nonneg _ e' loc_Exact
                (round_nearest_even_nonneg _ (loc_of_shr_record mrs') H1)) as H2.
  destruct (shr_fexp prec emax _ e' loc_Exact) as [mrs'' e'']. simpl in H2.
  destruct (shr_m mrs'') as [| p | p]; [reflexivity | | lia].
  destruct (e'' <=? emax - prec)%Z; reflexivity.
Qed.

Lemma SFdiv_core_nonneg (m1 m2 : positive) (e1 e2 : Z) :
  (0 <= fst (fst (SFdiv_core_binary prec emax (Zpos m1) e1 (Zpos m2) e2)))%Z.
Proof.
  unfold SFdiv_core_binary. cbv zeta.
  set (s := (e1 - e2 - _)%Z).
  set (m' := match s with Zpos _ => Z.shiftl (Zpos m1) s | Z0 => Zpos m1 | Zneg _ => Z0 end).
  assert (Hm' : (0 <= m')%Z).
  { subst m'. destruct s; try lia. apply Z.shiftl_nonneg. lia. }
  pose proof (Z.div_pos m' (Zpos m2) Hm' ltac:(lia)) as Hq.
  unfold Z.div in Hq. destruct (Z.div_eucl m' (Zpos m2)) as [q r]. exact Hq.
Qed.

Lemma Prim2SF_one : Prim2SF 1 = S754_finite false 4503599627370496 (-52).
Proof. reflexivity. Qed.

Lemma Prim2SF_zero : Prim2SF 0 = S754_zero false.
Proof. reflexivity. Qed.

(** [x > 0.0]: a positive infinity or a positive finite number. *)
Lemma positive_SF (x : float) :
  ltb 0 x = true ->
  Prim2SF x = S754_infinity false \/ exists m e, Prim2SF x = S754_finite false m e.
Proof.
  rewrite ltb_spec, Prim2SF_zero. unfold SFltb.
  destruct (Prim2SF x) as [s | [|] | | [|] m e]; simpl; try discriminate; eauto.
Qed.

(** [1.0 / x] for [x > 0.0] is a number that is not negative. *)
Lemma recip_nonneg (x : float) : ltb 0 x = true -> leb 0 (1 / x) = true.
Proof.
  intros Hx. rewrite leb_spec, div_spec, Prim2SF_zero, Prim2SF_one.
  destruct (positive_SF x Hx) as [-> | (m & e & ->)]; [reflexivity |].
  unfold SF64div, SFdiv.
  pose proof (SFdiv_core_nonneg 4503599627370496 m (-52) e) as Hq.
  destruct (SFdiv_core_binary prec emax 4503599627370496 (-52) (Zpos m) e) as [[mz ez] lz].
  simpl in Hq. pose proof (binary_round_aux_sign (xorb false false) mz ez lz Hq) as Hs.
  destruct (binary_round_aux prec emax (xorb false false) mz ez lz) as [s | s | | s p q];
    try contradiction; subst s; reflexivity.
Qed.

(** [r * 0.0] is a zero or NaN: never above zero. *)
Lemma mul_zero_not_positive (r : float) : ltb 0 (r * 0) = false.
Proof.
  rewrite ltb_spec, mul_spec, Prim2SF_zero. unfold SF64mul.
  destruct (Prim2SF r) as [s | s | | s m e]; reflexivity.
Qed.

(** What is above a positive number is positive. *)
Lemma above_positive (c r : float) :
  ltb 0 c = true -> ltb c r = true -> ltb 0 r = true.
Proof.
  intros Hc. destruct (positive_SF c Hc) as [Hs | (m & e & Hs)];
    rewrite !ltb_spec, Prim2SF_zero, Hs; unfold SFltb, SFcompare;
    destruct (Prim2SF r) as [s | [|] | | [|] m' e']; cbv beta iota;
    intros Hr; try discriminate Hr; reflexivity.
Qed.

(** [d <= 0.0] gives [d < 1.0]. *)
Lemma nonpositive_below_one (d : float) : leb d 0 = true -> ltb d 1 = true.
Proof.
  rewrite leb_spec, ltb_spec, Prim2SF_zero, Prim2SF_one. unfold SFleb, SFltb, SFcompare.
  destruct (Prim2SF d) as [s | [|] | | [|] m e]; cbv beta iota;
    intros Hd; try discriminate Hd; reflexivity.
Qed.

End FloatFacts.

(** ** Rate cap *)

Section RateCapFacts.
Import RateCap PrimFloat.
Local Open Scope float_scope.

Lemma py_max_lower (a b : float) : is_nan a = false -> ge (py_max a b) a = true.
Proof.
  intros Ha. unfold py_max, ge, gt. destruct (a <? b) eqn:Hg.
  - now apply ltb_leb.
  - now apply leb_refl.
Qed.

(** Python's [min] gives one of its arguments, which is above neither;
    of two numbers it gives the smaller. *)
Lemma py_min_spec (a b : float) :
  (py_min a b = a \/ py_min a b = b)
  /\ gt (py_min a b) a = false /\ gt (py_min a b) b = false
  /\ (is_nan a = false -> is_nan b = false ->
      ge a (py_min a b) = true /\ ge b (py_min a b) = true).
Proof.
  unfold py_min, gt, ge. destruct (b <? a) eqn:Hg.
  - split; [now right |]. split; [now apply ltb_asym |]. split; [apply ltb_irrefl |].
    intros Ha Hb. split; [now apply ltb_leb | now apply leb_refl].
  - split; [now left |]. split; [apply ltb_irrefl |]. split; [exact Hg |].
    intros Ha Hb. split; [now apply leb_refl | now apply leb_total].
Qed.

Lemma py_min_nan (b : float) (a : float) : is_nan a = true -> py_min a b = a.
Proof.
  intros Ha. unfold py_min, gt. destruct (b <? a) eqn:Hg; [| reflexivity].
  apply ltb_numbers in Hg as [_ Hn]. congruence.
Qed.

Lemma cap_nonneg (st : settings) (cap : float) :
  _compute_platform_max_rate_hz st = Some cap -> ge cap 0 = true.
Proof.
  unfold _compute_platform_max_rate_hz. cbv zeta.
  destruct (recip _) as [r|]; [| discriminate].
  intros [= <-]. now apply py_max_lower.
Qed.

Lemma resolve_requested `{FloatRuntime} (kwargs : gmap string string) req src :
  _resolve_requested_rate_hz kwargs = (Some req, src) ->
  (src = "rate_hz"
   /\ exists v, kwargs !! "rate_hz" = Some v /\ float_of_str v = Some req)
  \/ (src = "period_s"
      /\ exists v p, kwargs !! "period_s" = Some v /\ float_of_str v = Some p
                     /\ gt p 0 = true /\ req = 1 / p).
Proof.
  unfold _resolve_requested_rate_hz. cbv zeta.
  assert (Hper :
    match kwargs !! "period_s" with
    | Some v =>
        match float_of_str v with
        | Some p => if gt p 0 then (Some (1 / p), "period_s") else (None, "none")
        | None => (None, "none")
        end
    | None => (None, "none")
    end = (Some req, src) ->
    src = "period_s"
    /\ exists v p, kwargs !! "period_s" = Some v /\ float_of_str v = Some p
                   /\ gt p 0 = true /\ req = 1 / p).
  { destruct (kwargs !! "period_s") as [v|]; [| discriminate].
    destruct (float_of_str v) as [p|] eqn:Hp; [| discriminate].
    destruct (gt p 0) eqn:Hg; [| discriminate].
    intros [= <- <-]. split; [reflexivity |]. eauto 6. }
  destruct (kwargs !! "rate_hz") as [v|]; [| intros Hx; right; now apply Hper].
  destruct (float_of_str v) as [r|] eqn:Hr; [| intros Hx; right; now apply Hper].
  intros [= <- <-]. left. eauto.
Qed.

End RateCapFacts.

Section RateCapClaims.
Import PrimFloat.
Local Open Scope float_scope.

(** C9, as the specification words it, fails: with the safety derate set
    to 0 the platform maximum is 0, which the reconciliation takes to mean
    that there is no cap; a request for 5 Hz is then kept, and is not the
    minimum of 5 and 0. *)
Lemma C9_zero_cap_keeps_request :
  let st := {| RateCap.SEM_ICAP_FMAX_HZ := None; RateCap.SEM_FREQ_HZ := None;
               RateCap.SEM_INJECT_LATENCY_US_AT_FMAX := None;
               RateCap.INJECTION_RATE_SAFETY_DERATE := Some 0;
               RateCap.INJECTION_RATE_UART_CAP_HZ := None |} in
  let kwargs : gmap string string := {[ "rate_hz" := "5" ]} in
  exists new cap,
    RateCap._reconcile_and_cap_time_kwargs st kwargs = Some (new, Some 5, cap, None)
    /\ cap = 0
    /\ new !! "rate_hz" = Some (RateCap.format_12g 5)
    /\ RateCap.eff_rate_of 5 cap = 5
    /\ RateCap.py_min 5 cap = 0
    /\ PrimFloat.eqb (RateCap.eff_rate_of 5 cap) (RateCap.py_min 5 cap) = false.
Proof.
  eexists _, _. split; [vm_compute; reflexivity |].
  repeat split; vm_compute; reflexivity.
Qed.

(** C9, amended: when the settings give a platform maximum and the
    arguments give a requested rate ([rate_hz] when it reads as a float,
    else the quotient [1.0 / period_s] for a positive [period_s]), the
    platform maximum is a number that is not negative, and the rate
    settled on is Python's [min] of the two when the platform maximum is
    positive: one of the two, above neither, the smaller of them when the
    request is a number, and the request itself when that is NaN.  When
    the platform maximum is 0 the rate settled on is the requested rate.
    When the rate settled on is positive, [rate_hz] and [period_s] are
    rewritten to it and to the float quotient [1.0 / rate], formatted to
    12 significant digits; otherwise (a rate that is zero, negative or
    NaN) the arguments are left as they are. *)
Theorem C9_rate_capped_when_cap_positive `{RateCap.FloatRuntime}
    (st : RateCap.settings) (kwargs : gmap string string)
    (cap req : PrimFloat.float) (src : string)
    (Hcap : RateCap._compute_platform_max_rate_hz st = Some cap)
    (Hreq : RateCap._resolve_requested_rate_hz kwargs = (Some req, src)) :
  let eff := RateCap.eff_rate_of req cap in
  RateCap.ge cap 0 = true
  /\ (RateCap.gt cap 0 = true ->
      eff = RateCap.py_min req cap
      /\ (eff = req \/ eff = cap)
      /\ RateCap.gt eff req = false /\ RateCap.gt eff cap = false
      /\ (PrimFloat.is_nan req = false ->
          RateCap.ge req eff = true /\ RateCap.ge cap eff = true)
      /\ (PrimFloat.is_nan req = true -> eff = req))
  /\ (PrimFloat.eqb cap 0 = true -> eff = req)
  /\ (exists msg,
        RateCap._reconcile_and_cap_time_kwargs st kwargs =
          Some (if RateCap.gt eff 0
                then <["period_s" := RateCap.format_12g (1 / eff)]>
                       (<["rate_hz" := RateCap.format_12g eff]> kwargs)
                else kwargs,
                Some req, cap, msg))
  /\ (PrimFloat.is_nan eff = true -> RateCap.gt eff 0 = false)
  /\ ((src = "rate_hz"
       /\ exists v, kwargs !! "rate_hz" = Some v /\ RateCap.float_of_str v = Some req)
      \/ (src = "period_s"
          /\ exists v p, kwargs !! "period_s" = Some v
                         /\ RateCap.float_of_str v = Some p
                         /\ RateCap.gt p 0 = true /\ req = 1 / p)).
Proof.
  intros eff. pose proof (cap_nonneg st cap Hcap) as Hnn.
  split; [exact Hnn |]. split; [| split; [| split; [| split]]].
  - intros Hpos. unfold eff, RateCap.eff_rate_of. rewrite Hpos.
    destruct (py_min_spec req cap) as (Hor & Hgr & Hgc & Hnum).
    split; [reflexivity |]. split; [exact Hor |]. split; [exact Hgr |].
    split; [exact Hgc |]. split.
    + intros Hn. apply Hnum; [exact Hn |]. apply (leb_numbers 0 cap Hnn).
    + apply py_min_nan.
  - intros Hz. unfold eff, RateCap.eff_rate_of, RateCap.gt.
    now rewrite (eqb_not_ltb cap 0 Hz).
  - unfold RateCap._reconcile_and_cap_time_kwargs. rewrite Hreq, Hcap.
    fold eff. eexists. reflexivity.
  - intros Hn. unfold RateCap.gt. destruct (PrimFloat.ltb 0 eff) eqn:Hg; [| reflexivity].
    apply ltb_numbers in Hg as [_ Hg]. congruence.
  - exact (resolve_requested kwargs req src Hreq).
Qed.

Lemma C9_rate_capped_when_cap_positive_witness :
  let st := {| RateCap.SEM_ICAP_FMAX_HZ := None; RateCap.SEM_FREQ_HZ := None;
               RateCap.SEM_INJECT_LATENCY_US_AT_FMAX := None;
               RateCap.INJECTION_RATE_SAFETY_DERATE := None;
               RateCap.INJECTION_RATE_UART_CAP_HZ := None |} in
  let kwargs : gmap string string := {[ "rate_hz" := "20000" ]} in
  exists cap req,
    RateCap._compute_platform_max_rate_hz st = Some cap
    /\ RateCap._resolve_requested_rate_hz kwargs = (Some req, "rate_hz")
    /\ RateCap.ge cap 0 = true
    /\ RateCap.eff_rate_of req cap = RateCap.py_min req cap.
Proof.
  intros st kwargs.
  destruct (RateCap._compute_platform_max_rate_hz st) as [cap|] eqn:Hcap;
    [| exfalso; vm_compute in Hcap; discriminate Hcap].
  destruct (RateCap._resolve_requested_rate_hz kwargs) as [[req|] src] eqn:Hreq;
    [| exfalso; vm_compute in Hreq; discriminate Hreq].
  assert (Hsrc : src = "rate_hz")
    by (pose proof Hreq as Hv; vm_compute in Hv; now injection Hv as _ <-).
  subst src.
  assert (Hpos : RateCap.gt cap 0 = true)
    by (pose proof Hcap as Hv; vm_compute in Hv; injection Hv as <-; reflexivity).
  destruct (C9_rate_capped_when_cap_positive st kwargs cap req "rate_hz" Hcap Hreq)
    as (Hnn & Hmin & _).
  exists cap, req. split; [reflexivity |]. split; [reflexivity |].
  split; [exact Hnn | exact (proj1 (Hmin Hpos))].
Defined.

Example default_cap_is_10_kHz :
  RateCap._compute_platform_max_rate_hz
    {| RateCap.SEM_ICAP_FMAX_HZ := None; RateCap.SEM_FREQ_HZ := None;
       RateCap.SEM_INJECT_LATENCY_US_AT_FMAX := None;
       RateCap.INJECTION_RATE_SAFETY_DERATE := None;
       RateCap.INJECTION_RATE_UART_CAP_HZ := None |}
  = Some 10000
  /\ RateCap.eff_rate_of 20000 10000 = 10000.
Proof. split; reflexivity. Qed.

(** A request that reads as NaN is settled on as NaN, which is not
    positive: nothing is rewritten and no capping is reported. *)
Example nan_request_passes_unchanged :
  exists req cap,
    RateCap._reconcile_and_cap_time_kwargs
      {| RateCap.SEM_ICAP_FMAX_HZ := None; RateCap.SEM_FREQ_HZ := None;
         RateCap.SEM_INJECT_LATENCY_US_AT_FMAX := None;
         RateCap.INJECTION_RATE_SAFETY_DERATE := None;
         RateCap.INJECTION_RATE_UART_CAP_HZ := None |}
      {[ "rate_hz" := "nan" ]}
    = Some ({[ "rate_hz" := "nan" ]}, Some req, cap, None)
    /\ PrimFloat.is_nan req = true
    /\ PrimFloat.is_nan (RateCap.eff_rate_of req cap) = true.
Proof.
  eexists _, _. split; [vm_compute; reflexivity |]. split; reflexivity.
Qed.

(** In binary64 a rate times its own reciprocal need not be 1. *)
Example reciprocal_is_rounded :
  PrimFloat.eqb (49 * (1 / 49)) 1 = false.
Proof. reflexivity. Qed.

End RateCapClaims.

(** ** Uniform scheduler *)

Section SchedulerFacts.
Import AreaBase TimeBase Uniform.
Context {T : Type} `{Arith T} {A : Type} `{AreaProfile A}.
Variable e : env T.
Variable cfg : config (T:=T).

Local Open Scope sched_scope.

Lemma quiet_ret {X} (x : X) : quiet (ret (S:=state T A) x).
Proof. intros s. reflexivity. Qed.

Lemma quiet_bind {X Y} (m : M (state T A) X) (k : X -> M (state T A) Y) :
  quiet m -> (forall x, quiet (k x)) -> quiet (bind m k).
Proof.
  intros Hm Hk s. unfold bind. specialize (Hm s).
  destruct (m s) as [x s' | s' | s']; simpl in *; try assumption.
  now rewrite Hk.
Qed.

Lemma quiet_when (b : bool) (m : M (state T A) unit) : quiet m -> quiet (when b m).
Proof. intros Hm. destruct b; [exact Hm | apply quiet_ret]. Qed.

Lemma quiet_emit (ev : event T) :
  mark_of ev = None -> is_rx_read ev = false -> quiet (emit (A:=A) ev).
Proof.
  intros Hm Hr s. unfold view, schedule, rx_reads. simpl.
  rewrite omap_app, List.filter_app, length_app. simpl.
  rewrite Hm, Hr. simpl. now rewrite app_nil_r, Nat.add_0_r.
Qed.

Lemma quiet_now : quiet (_now (A:=A) e).
Proof. intros s. reflexivity. Qed.

Lemma quiet_stop : quiet (stop_is_set (A:=A) e).
Proof. intros s. reflexivity. Qed.

Lemma quiet_pause : quiet (pause_is_set (A:=A) e).
Proof. intros s. reflexivity. Qed.

Lemma quiet_sleep (d : T) : quiet (sleep (A:=A) d).
Proof. now apply quiet_emit. Qed.

Lemma quiet_log_info (msg : string) : quiet (log_info (T:=T) (A:=A) msg).
Proof. now apply quiet_emit. Qed.

Lemma quiet_spin (fuel : nat) (d : T) : quiet (spin (A:=A) e fuel d).
Proof.
  induction fuel as [|f IH]; simpl; [intros s; reflexivity |].
  apply quiet_bind; [apply quiet_now |].
  intros now. destruct (ltb now d); [exact IH | apply quiet_ret].
Qed.

Lemma quiet_sleep_until (fuel : nat) (d : T) : quiet (_sleep_until (A:=A) e fuel d).
Proof.
  induction fuel as [|f IH]; simpl; [intros s; reflexivity |].
  apply quiet_bind; [apply quiet_now |].
  intros now. destruct (leb _ _); [apply quiet_ret |].
  destruct (ltb _ _); [| apply quiet_spin].
  apply quiet_bind; [apply quiet_sleep | intros _; exact IH].
Qed.

Lemma quiet_pause_wait (fuel : nat) : quiet (pause_wait (A:=A) e fuel).
Proof.
  induction fuel as [|f IH]; simpl; [intros s; reflexivity |].
  apply quiet_bind; [apply quiet_pause |].
  intros [|]; [| apply quiet_ret].
  apply quiet_bind; [apply quiet_stop |].
  intros [|]; [apply quiet_ret |].
  apply quiet_bind; [apply quiet_sleep | intros _; exact IH].
Qed.

Lemma quiet_first_shot_delay : quiet (_maybe_first_shot_delay (A:=A) cfg).
Proof.
  unfold _maybe_first_shot_delay.
  apply quiet_bind; [intros s; reflexivity |]. intros first.
  apply quiet_bind; [apply quiet_when, quiet_sleep |].
  intros _ s. reflexivity.
Qed.

Lemma quiet_log_profile_end (reason : string) :
  quiet (_log_profile_end (T:=T) (A:=A) reason).
Proof. apply quiet_log_info. Qed.

Lemma quiet_duration_elapsed (t0 : T) : quiet (duration_elapsed (A:=A) e cfg t0).
Proof.
  unfold duration_elapsed. destruct (duration_s cfg); [| apply quiet_ret].
  apply quiet_bind; [apply quiet_now | intros now; apply quiet_ret].
Qed.

Lemma grows_refl (s : state T A) : grows s s [].
Proof. unfold grows. now rewrite app_nil_r. Qed.

Lemma grows_view (s s' : state T A) : view s' = view s -> grows s s' [].
Proof.
  unfold view, grows. intros [= -> -> -> ->]. now rewrite app_nil_r.
Qed.

Lemma grows_trans (s1 s2 s3 : state T A) x y :
  grows s1 s2 x -> grows s2 s3 y -> grows s1 s3 (x ++ y).
Proof.
  unfold grows. intros (-> & -> & -> & Hs) (-> & -> & -> & ->).
  now rewrite Hs, app_assoc.
Qed.

Ltac solve_grows :=
  unfold grows, schedule, rx_reads; simpl;
  rewrite ?omap_app, ?List.filter_app, ?length_app; simpl;
  rewrite ?app_nil_r, ?Nat.add_0_r; auto.

Lemma shoot_effect t0 k addr (s : state T A) :
  if tx_ok e (tick s)
  then exists d s', shoot e cfg t0 k addr s = Done d s'
       /\ grows s s' [Shot (inject_lfa_command addr)]
       /\ (ack_gated cfg = false -> ltb (of_Q 0) (period cfg) = true ->
           d = add t0 (mul (of_int (k + 1)) (period cfg)))
  else exists s', shoot e cfg t0 k addr s = Raised s' /\ grows s s' [].
Proof.
  unfold shoot, _inject, inject_lfa, when, bind, emit, _now, ret, bump. simpl.
  destruct (ack_gated cfg), (has_tx_echo cfg), (ltb (of_Q 0) (period cfg)); simpl.
  all: destruct (tx_ok e (tick s)) eqn:Htx; simpl.
  all: repeat eexists; try solve_grows; try discriminate.
Qed.

Ltac chain :=
  unfold grows, view, schedule, rx_reads, bump in *; simpl in *;
  repeat match goal with H : _ /\ _ |- _ => destruct H end;
  rewrite ?omap_app, ?List.filter_app, ?length_app in *; simpl in *;
  repeat split;
  try congruence;
  repeat match goal with
         | H : omap mark_of (trace ?x) = _ |- _ => rewrite H; clear H
         end;
  rewrite <- ?app_assoc, ?app_nil_r; simpl; try reflexivity; try lia.

Ltac step_quiet lem s1 Hq :=
  match goal with
  | |- context [bind ?m ?k ?s] =>
      pose proof (lem s) as Hq;
      unfold bind at 1;
      destruct (m s) as [? s1 | s1 | s1]; simpl final in Hq;
      apply grows_view in Hq; cbn iota beta
  end.

Lemma body_effect fuel t0 k shots addr (s : state T A) :
  match body e cfg fuel t0 k shots addr s with
  | Done (Continue k' shots') s' =>
      k' = (k + 1)%Z /\ shots' = (shots + 1)%Z /\ max_reached cfg shots = false
      /\ exists d, grows s s' (shot_marks cfg addr d)
           /\ (ack_gated cfg = false -> ltb (of_Q 0) (period cfg) = true ->
               d = add t0 (mul (of_int (k + 1)) (period cfg)))
  | Done Break s' => grows s s' []
  | Done Return s' =>
      area s' = area s /\ rx_reads (trace s') = rx_reads (trace s)
      /\ schedule (trace s') = schedule (trace s)
      /\ (finished_reason s' = Some "duration_elapsed"
          \/ (finished_reason s' = Some "max_reached" /\ max_reached cfg shots = true))
  | Raised s' | NoFuel s' =>
      grows s s' []
      \/ exists d, grows s s' (shot_marks cfg addr d)
           /\ (ack_gated cfg = false -> ltb (of_Q 0) (period cfg) = true ->
               d = add t0 (mul (of_int (k + 1)) (period cfg)))
  end.
Proof.
  unfold body. cbn [bind stop_is_set ret].
  destruct (stop_set e (tick s)); [chain |].
  step_quiet (quiet_pause_wait fuel) s1 Hq1; [| left; chain | left; chain].
  cbn [bind stop_is_set ret].
  destruct (stop_set e (tick s1)); [chain |].
  step_quiet (quiet_duration_elapsed t0) s2 Hq2; [| left; chain | left; chain].
  destruct b.
  { cbn. chain. now left. }
  destruct (max_reached cfg shots) eqn:Hmax.
  { cbn. chain. now right. }
  step_quiet quiet_first_shot_delay s3 Hq3; [| left; chain | left; chain].
  pose proof (shoot_effect t0 k addr s3) as Hshoot.
  unfold bind at 1.
  destruct (tx_ok e (tick s3)).
  2:{ destruct Hshoot as (s4 & -> & Hg). left. chain. }
  destruct Hshoot as (d & s4 & -> & Hg & Hd).
  unfold shot_marks.
  destruct (ltb (of_Q 0) (period cfg)) eqn:Hp; cbn [when].
  2:{ cbn. repeat split; try reflexivity. exists d. split; [chain | exact Hd]. }
  unfold bind at 1. unfold bind at 1. cbn [emit].
  match goal with
  | |- context [_sleep_until e fuel d ?s5] =>
      pose proof (quiet_sleep_until fuel d s5) as Hq5;
      destruct (_sleep_until e fuel d s5) as [u5 s6 | s6 | s6];
      simpl final in Hq5; apply grows_view in Hq5; cbn
  end.
  - repeat split; try reflexivity. exists d. split; [chain | exact Hd].
  - right. exists d. split; [chain | exact Hd].
  - right. exists d. split; [chain | exact Hd].
Qed.

Lemma sent_shots (tr : list (event T)) : sent tr = shots_of (schedule tr).
Proof.
  induction tr as [|ev tr IH]; [reflexivity |].
  destruct ev; simpl; try exact IH. now rewrite IH.
Qed.

Lemma shots_of_app (m1 m2 : list (mark T)) :
  shots_of (m1 ++ m2) = shots_of m1 ++ shots_of m2.
Proof. apply omap_app. Qed.

Lemma schedule_app (tr1 tr2 : list (event T)) :
  schedule (tr1 ++ tr2) = schedule tr1 ++ schedule tr2.
Proof. apply omap_app. Qed.

Section DriftFree.
Hypothesis Hng : ack_gated cfg = false.
Hypothesis Hp : ltb (of_Q 0) (period cfg) = true.

Lemma loop_schedule (t0 : T) (fuel : nat) : forall k shots (s : state T A),
  exists cmds,
    schedule (trace (final (loop e cfg fuel t0 k shots s)))
    = schedule (trace s) ++ drift_free t0 (period cfg) (k + 1) cmds.
Proof.
  induction fuel as [|f IH]; intros k shots s.
  - exists []. simpl. now rewrite app_nil_r.
  - cbn [loop]. unfold bind at 1, next_addr.
    destruct (gen_next (area s)) as [[addr a']|].
    2:{ exists []. simpl. now rewrite app_nil_r. }
    set (s1 := mk_state (tick s) a' (_first_shot s) (finished_reason s) (trace s)).
    pose proof (body_effect f t0 k shots addr s1) as Hb.
    unfold bind at 1.
    destruct (body e cfg f t0 k shots addr s1) as [[k' shots' | |] s2 | s2 | s2].
    + destruct Hb as (-> & -> & _ & d & Hg & Hd).
      specialize (Hd Hng Hp). subst d.
      destruct (IH (k + 1)%Z (shots + 1)%Z s2) as [cmds Hc].
      exists (inject_lfa_command addr :: cmds).
      rewrite Hc. destruct Hg as (_ & _ & _ & ->).
      unfold shot_marks. rewrite Hp. cbn [drift_free].
      rewrite <- app_assoc. reflexivity.
    + exists []. cbn [final ret drift_free]. destruct Hb as (_ & _ & _ & ->). reflexivity.
    + exists []. cbn [final ret drift_free]. destruct Hb as (_ & _ & -> & _).
      now rewrite app_nil_r.
    + cbn [final]. destruct Hb as [Hg | (d & Hg & Hd)].
      * exists []. destruct Hg as (_ & _ & _ & ->). reflexivity.
      * exists [inject_lfa_command addr]. specialize (Hd Hng Hp). subst d.
        destruct Hg as (_ & _ & _ & ->). unfold shot_marks. now rewrite Hp.
    + cbn [final]. destruct Hb as [Hg | (d & Hg & Hd)].
      * exists []. destruct Hg as (_ & _ & _ & ->). reflexivity.
      * exists [inject_lfa_command addr]. specialize (Hd Hng Hp). subst d.
        destruct Hg as (_ & _ & _ & ->). unfold shot_marks. now rewrite Hp.
Qed.

Lemma run_schedule (fuel : nat) (a : A) :
  exists cmds,
    schedule (trace (final (run e cfg fuel (initial a))))
    = drift_free (clock e 0) (period cfg) 1 cmds.
Proof.
  unfold run, try_except. unfold bind at 1. cbn [_now initial tick].
  destruct (loop_schedule (clock e 0) fuel 0 0 (bump (initial a))) as [cmds Hc].
  exists cmds. unfold bind at 1.
  destruct (loop e cfg fuel (clock e 0) 0 0 (bump (initial a))) as [fell s1 | s1 | s1];
    simpl final in Hc; simpl in Hc.
  - destruct fell; cbn [when]; [| exact Hc].
    cbn [exit_note log_info emit final trace]. rewrite schedule_app, Hc.
    apply app_nil_r.
  - cbn [exit_note log_info emit final trace]. rewrite schedule_app, Hc.
    apply app_nil_r.
  - exact Hc.
Qed.

End DriftFree.

Section Termination.
Hypothesis Hund : undisturbed e.
Hypothesis Hprog : progressive e.

Lemma spin_done (d : T) (j : nat) :
  ltb (clock e j) d = false ->
  forall n (s : state T A), tick s + n = j ->
    exists s', view s' = view s
               /\ forall fuel, n < fuel -> spin e fuel d s = Done tt s'.
Proof.
  intros Hj. induction n as [|n IH]; intros s Ht.
  - exists (bump s). split; [reflexivity |].
    intros [|f] Hf; [lia |]. cbn [spin]. unfold bind, _now.
    replace (tick s) with j by lia. now rewrite Hj.
  - destruct (ltb (clock e (tick s)) d) eqn:Hl.
    + destruct (IH (bump s)) as (s' & Hv & Hs'); [simpl; lia |].
      exists s'. split; [exact Hv |].
      intros [|f] Hf; [lia |]. cbn [spin]. unfold bind, _now. rewrite Hl.
      apply Hs'. lia.
    + exists (bump s). split; [reflexivity |].
      intros [|f] Hf; [lia |]. cbn [spin]. unfold bind, _now. now rewrite Hl.
Qed.

Lemma sleep_until_done (d : T) (j : nat) :
  past e d j = true ->
  forall n (s : state T A), tick s + n = j ->
    exists s', view s' = view s
               /\ forall fuel, S n < fuel -> _sleep_until e fuel d s = Done tt s'.
Proof.
  intros [Hle Hlt%negb_true_iff]%andb_true_iff.
  induction n as [|n IH]; intros s Ht.
  - exists (bump s). split; [reflexivity |].
    intros [|f] Hf; [lia |]. cbn [_sleep_until]. unfold bind at 1. unfold _now.
    replace (tick s) with j by lia. now rewrite Hle.
  - destruct (leb (sub d (clock e (tick s))) (of_Q 0)) eqn:Hr.
    { exists (bump s). split; [reflexivity |].
      intros [|f] Hf; [lia |]. cbn [_sleep_until]. unfold bind at 1. unfold _now.
      now rewrite Hr. }
    destruct (ltb _spin_threshold_s (sub d (clock e (tick s)))) eqn:Hs.
    + set (s1 := mk_state (S (tick s)) (area s) (_first_shot s) (finished_reason s)
                   (trace s ++ [Sleep (sub (sub d (clock e (tick s))) _spin_threshold_s)])).
      destruct (IH s1) as (s' & Hv & Hs'); [simpl; lia |].
      exists s'. split.
      { rewrite Hv. unfold view, s1. simpl. unfold schedule, rx_reads.
        rewrite omap_app, List.filter_app, length_app. simpl.
        now rewrite app_nil_r, Nat.add_0_r. }
      intros [|f] Hf; [lia |]. cbn [_sleep_until]. unfold bind at 1. unfold _now.
      rewrite Hr, Hs. unfold bind, sleep, emit. cbn [bump tick area _first_shot finished_reason trace].
      apply Hs'. lia.
    + destruct (spin_done d j Hlt n (bump s)) as (s' & Hv & Hs'); [simpl; lia |].
      exists s'. split; [exact Hv |].
      intros [|f] Hf; [lia |]. cbn [_sleep_until]. unfold bind at 1. unfold _now.
      rewrite Hr, Hs. apply Hs'. lia.
Qed.

Lemma sleep_until_terminates (d : T) (s : state T A) :
  exists s' B, view s' = view s
               /\ forall fuel, B <= fuel -> _sleep_until e fuel d s = Done tt s'.
Proof.
  destruct (Hprog d (tick s)) as (j & Hj & Hpast).
  destruct (sleep_until_done d j Hpast (j - tick s) s) as (s' & Hv & Hs'); [lia |].
  exists s', (S (S (j - tick s))). split; [exact Hv |].
  intros fuel Hf. apply Hs'. lia.
Qed.

Lemma pause_wait_unpaused (f : nat) (s : state T A) :
  pause_set e (tick s) = false -> pause_wait e (S f) s = Done tt (bump s).
Proof. intros Hp. cbn [pause_wait]. unfold bind, pause_is_set. now rewrite Hp. Qed.

Variable t0 : T.
Hypothesis Hdur :
  match duration_s cfg with
  | Some dur => forall j, leb dur (sub (clock e j) t0) = false
  | None => True
  end.

Lemma duration_not_elapsed (s : state T A) :
  exists s', duration_elapsed e cfg t0 s = Done false s' /\ view s' = view s.
Proof.
  unfold duration_elapsed. destruct (duration_s cfg) as [dur|].
  - exists (bump s). unfold bind, _now, ret. now rewrite Hdur.
  - exists s. split; reflexivity.
Qed.

Lemma body_done k shots addr (s : state T A) :
  max_reached cfg shots = false ->
  exists s' B d,
    grows s s' (shot_marks cfg addr d)
    /\ forall fuel, B <= fuel ->
         body e cfg fuel t0 k shots addr s
         = Done (Continue (k + 1) (shots + 1)) s'.
Proof.
  intros Hmax.
  assert (Hstop : forall n, stop_set e n = false) by (intros n; apply Hund).
  assert (Hpause : forall n, pause_set e n = false) by (intros n; apply Hund).
  assert (Htx : forall n, tx_ok e n = true) by (intros n; apply Hund).
  destruct (duration_not_elapsed (bump (bump (bump s)))) as (s2 & Hd2 & Hq2).
  apply grows_view in Hq2.
  destruct (_maybe_first_shot_delay cfg s2) as [u s3 | s3 | s3] eqn:Hd3.
  2,3: exfalso; revert Hd3; unfold _maybe_first_shot_delay, bind, get_first_shot,
         when, sleep, emit, set_first_shot, ret;
       destruct (_first_shot s2 && _); discriminate.
  pose proof (quiet_first_shot_delay s2) as Hq3. rewrite Hd3 in Hq3.
  simpl final in Hq3. apply grows_view in Hq3.
  pose proof (shoot_effect t0 k addr s3) as Hsh. rewrite Htx in Hsh.
  destruct Hsh as (d & s4 & Hsh & Hg4 & _).
  assert (Hpre : forall f,
    body e cfg (S f) t0 k shots addr s
    = (when (ltb (of_Q 0) (period cfg))
         (emit (Deadline d) ;;; _sleep_until e (S f) d) ;;;
       ret (Continue (k + 1) (shots + 1))) s4).
  { intros f. unfold body.
    unfold bind at 1. unfold stop_is_set at 1. rewrite Hstop.
    unfold bind at 1. rewrite (pause_wait_unpaused f (bump s) (Hpause _)).
    unfold bind at 1. unfold stop_is_set at 1. rewrite Hstop.
    unfold bind at 1. cbn [bump tick]. rewrite Hd2, Hmax.
    unfold bind at 1. rewrite Hd3.
    unfold bind at 1. rewrite Hsh. reflexivity. }
  unfold shot_marks.
  destruct (ltb (of_Q 0) (period cfg)) eqn:Hp.
  - set (s5 := mk_state (tick s4) (area s4) (_first_shot s4) (finished_reason s4)
                 (trace s4 ++ [Deadline d])).
    destruct (sleep_until_terminates d s5) as (s6 & B & Hv & Hs6).
    exists s6, (S B), d. split.
    { apply grows_view in Hv. subst s5. chain. }
    intros [|f] Hf; [lia |]. rewrite Hpre. cbn [when].
    unfold bind at 1. unfold bind at 1. cbn [emit]. fold s5.
    rewrite Hs6 by lia. reflexivity.
  - exists s4, 1, d. split.
    { chain. }
    intros [|f] Hf; [lia |]. rewrite Hpre. reflexivity.
Qed.

Lemma loop_done (l : list string) : forall (s : state T A) k shots a',
  yields (area s) l a' ->
  (forall i, (0 <= i < Z.of_nat (length l))%Z -> max_reached cfg (shots + i) = false) ->
  exists s' B,
    area s' = a' /\ finished_reason s' = finished_reason s
    /\ rx_reads (trace s') = rx_reads (trace s)
    /\ sent (trace s') = sent (trace s) ++ map inject_lfa_command l
    /\ forall fuel, B <= fuel -> loop e cfg fuel t0 k shots s = Done true s'.
Proof.
  induction l as [|addr rest IH]; intros s k shots a' Hy Hmax.
  - destruct Hy as [Hnone ->]. exists s, 1.
    repeat split; [simpl; now rewrite app_nil_r |].
    intros [|f] Hf; [lia |]. cbn [loop]. unfold bind, next_addr. now rewrite Hnone.
  - destruct Hy as (a1 & Hsome & Hy).
    set (s1 := mk_state (tick s) a1 (_first_shot s) (finished_reason s) (trace s)).
    destruct (body_done k shots addr s1) as (s2 & B1 & d & Hg & Hbody).
    { rewrite <- (Z.add_0_r shots). apply Hmax. simpl length. lia. }
    destruct Hg as (Ha2 & Hf2 & Hr2 & Hs2).
    destruct (IH s2 (k + 1)%Z (shots + 1)%Z a') as (s3 & B2 & Ha3 & Hf3 & Hr3 & Hs3 & Hloop).
    { now rewrite Ha2. }
    { intros i Hi. rewrite <- Z.add_assoc. apply Hmax. simpl length. lia. }
    exists s3, (S (Nat.max B1 B2)).
    split; [exact Ha3 |]. split; [now rewrite Hf3, Hf2 |].
    split; [now rewrite Hr3, Hr2 |]. split.
    + rewrite Hs3, (sent_shots (trace s2)), Hs2, shots_of_app, <- sent_shots.
      unfold shot_marks. subst s1. cbn [trace map].
      rewrite <- app_assoc. f_equal.
      destruct (ltb (of_Q 0) (period cfg)); reflexivity.
    + intros [|f] Hf; [lia |]. cbn [loop]. unfold bind at 1. unfold next_addr.
      rewrite Hsome. fold s1. unfold bind at 1. rewrite Hbody by lia.
      apply Hloop. lia.
Qed.

Lemma run_done (a a' : A) (l : list string) :
  t0 = clock e 0 ->
  yields a l a' ->
  (forall i, (0 <= i < Z.of_nat (length l))%Z -> max_reached cfg i = false) ->
  exists s' B,
    area s' = a' /\ finished_reason s' = None
    /\ rx_reads (trace s') = 0
    /\ sent (trace s') = map inject_lfa_command l
    /\ forall fuel, B <= fuel -> run e cfg fuel (initial a) = Done tt s'.
Proof.
  intros Ht0 Hy Hmax.
  destruct (loop_done l (bump (initial a)) 0 0 a' Hy Hmax)
    as (s1 & B & Ha & Hf & Hr & Hs & Hloop).
  exists (mk_state (tick s1) (area s1) (_first_shot s1) (finished_reason s1)
            (trace s1 ++ [LogInfo "Exiting. Creating log file."])), B.
  cbn [area finished_reason trace].
  split; [exact Ha |]. split; [exact Hf |]. split; [| split].
  - unfold rx_reads in *. rewrite List.filter_app, length_app, Hr. reflexivity.
  - unfold sent in *. rewrite omap_app, Hs. simpl. now rewrite app_nil_r.
  - intros fuel Hfuel. unfold run, try_except. unfold bind at 1. cbn [_now initial tick].
    unfold bind at 1. change (mk_state 1 a true None []) with (bump (initial a)).
    rewrite <- Ht0, Hloop by exact Hfuel. reflexivity.
Qed.

End Termination.

End SchedulerFacts.

Section ScheduleShape.
Import AreaBase TimeBase Uniform.
Context {T : Type} `{Arith T}.

Lemma shots_drift_free (t0 period : T) (cmds : list string) : forall k,
  shots_of (drift_free t0 period k cmds) = cmds.
Proof.
  induction cmds as [|c rest IH]; intros k; [reflexivity |].
  cbn. f_equal. apply IH.
Qed.

Lemma untils_drift_free (t0 period : T) (cmds : list string) : forall k i d,
  untils_of (drift_free t0 period k cmds) !! i = Some d ->
  d = add t0 (mul (of_int (k + Z.of_nat i)) period).
Proof.
  induction cmds as [|c rest IH]; intros k i d Hl; [discriminate |].
  cbn in Hl. destruct i as [|i]; cbn in Hl.
  - injection Hl as <-. now rewrite Z.add_0_r.
  - apply IH in Hl. subst d. do 3 f_equal. lia.
Qed.

Lemma deadlines_untils (tr : list (event T)) :
  deadlines tr = untils_of (schedule tr).
Proof.
  induction tr as [|ev tr IH]; [reflexivity |].
  destruct ev; simpl; try exact IH. now rewrite IH.
Qed.

Lemma yields_end {A} `{AreaProfile A} (l : list string) : forall a a' : A,
  yields a l a' -> gen_next a' = None.
Proof.
  induction l as [|x rest IH]; intros a a' Hy.
  - destruct Hy as [Hn ->]. exact Hn.
  - destruct Hy as (a1 & _ & Hy). exact (IH _ _ Hy).
Qed.

End ScheduleShape.

Section ConcreteFacts.
Import TimeBase Uniform Concrete.

Lemma steady_undisturbed : undisturbed steady.
Proof. intros n. repeat split. Qed.

Lemma steady_progressive : progressive steady.
Proof.
  intros d i.
  exists (i + Z.to_nat (100 * Z.max 0 (Qnum d))). split; [lia |].
  assert (Hd : (d <= Z.of_nat (i + Z.to_nat (100 * Z.max 0 (Qnum d))) # 100)%Q).
  { destruct d as [n m]. unfold Qle. cbn [Qnum Qden].
    rewrite Nat2Z.inj_add, Z2Nat.id by lia. nia. }
  unfold past. cbn [leb ltb arith clock steady sub of_Q].
  apply andb_true_iff. split.
  - apply Qle_bool_iff. lra.
  - rewrite negb_involutive. now apply Qle_bool_iff.
Qed.

Lemma three_lfa_area_yields :
  yields three_lfa_area ["00C0FFEE00"; "0123456789"; "ABCDEFABCD"]
    (AddressList.mk ["00C0FFEE00"; "0123456789"; "ABCDEFABCD"] 3 "lfa.txt"
       "sequential" (Some 7%Z)).
Proof. cbn. eauto 10. Qed.

End ConcreteFacts.

(** C5: without acknowledgement gating and with a positive period, in
    every run, however the clock and the flags behave and wherever the
    run stops, each injection is followed by a deadline, and the deadline
    after the k-th injection is [t0 + k * period], where [t0] is the first
    reading of the clock; no later reading enters it. *)
Theorem C5_deadlines_from_fixed_origin
    {T : Type} `{TimeBase.Arith T} {A : Type} `{AreaBase.AreaProfile A}
    (e : TimeBase.env T) (cfg : Uniform.config (T:=T)) (fuel : nat) (a : A)
    (Hgate : Uniform.ack_gated cfg = false)
    (Hperiod : TimeBase.ltb (TimeBase.of_Q 0) (Uniform.period cfg) = true) :
  let tr := TimeBase.trace (TimeBase.final (Uniform.run e cfg fuel (Uniform.initial a))) in
  let t0 := TimeBase.clock e 0 in
  Uniform.schedule tr = Uniform.drift_free t0 (Uniform.period cfg) 1 (Uniform.sent tr)
  /\ (forall i d, Uniform.deadlines tr !! i = Some d ->
        d = TimeBase.add t0
              (TimeBase.mul (TimeBase.of_int (1 + Z.of_nat i)) (Uniform.period cfg))).
Proof.
  intros tr t0.
  destruct (run_schedule e cfg Hgate Hperiod fuel a) as [cmds Hc].
  fold tr t0 in Hc.
  assert (Hs : Uniform.sent tr = cmds)
    by (rewrite sent_shots, Hc; apply shots_drift_free).
  split; [now rewrite Hs |].
  intros i d Hl. rewrite deadlines_untils, Hc in Hl.
  exact (untils_drift_free _ _ _ _ _ _ Hl).
Qed.

Lemma C5_deadlines_from_fixed_origin_witness :
  Uniform.ack_gated (Concrete.uniform_10hz (Some 3%Z)) = false
  /\ TimeBase.ltb (TimeBase.of_Q 0) (Uniform.period (Concrete.uniform_10hz (Some 3%Z))) = true
  /\ forall i d,
       Uniform.deadlines
         (TimeBase.trace (TimeBase.final
            (Uniform.run Concrete.steady (Concrete.uniform_10hz (Some 3%Z)) 50
               (Uniform.initial Concrete.three_lfa_area)))) !! i = Some d ->
       d = (TimeBase.clock Concrete.steady 0
            + inject_Z (1 + Z.of_nat i) * Uniform.period (Concrete.uniform_10hz (Some 3%Z)))%Q.
Proof.
  assert (Hg : Uniform.ack_gated (Concrete.uniform_10hz (Some 3%Z)) = false) by reflexivity.
  assert (Hp : TimeBase.ltb (TimeBase.of_Q 0)
                 (Uniform.period (Concrete.uniform_10hz (Some 3%Z))) = true) by reflexivity.
  split; [exact Hg |]. split; [exact Hp |].
  exact (proj2 (C5_deadlines_from_fixed_origin Concrete.steady
                  (Concrete.uniform_10hz (Some 3%Z)) 50 Concrete.three_lfa_area Hg Hp)).
Defined.

Example deadlines_at_10_hz :
  map Qred
    (Uniform.deadlines
       (TimeBase.trace (TimeBase.final
          (Uniform.run Concrete.steady (Concrete.uniform_10hz None) 50
             (Uniform.initial Concrete.three_lfa_area)))))
  = [(1 # 10)%Q; (1 # 5)%Q; (3 # 10)%Q].
Proof. vm_compute. reflexivity. Qed.

(** C3, at the input of scenario A: three addresses in file order, 10 Hz,
    [max_shots=3].  The three commands go out in file order and nothing is
    read from the transport, but the run ends with [finished_reason]
    unset, not with [max_reached]: the guard on the shot count is only
    evaluated when the area profile yields one more address. *)
Theorem C3_exact_fit_leaves_reason_unset :
  exists s',
    Uniform.run Concrete.steady (Concrete.uniform_10hz (Some 3%Z)) 50
      (Uniform.initial Concrete.three_lfa_area) = TimeBase.Done tt s'
    /\ Uniform.sent (TimeBase.trace s') = ["N 00C0FFEE00"; "N 0123456789"; "N ABCDEFABCD"]
    /\ Uniform.rx_reads (TimeBase.trace s') = 0
    /\ TimeBase.finished_reason s' = None.
Proof. eexists. split; [vm_compute; reflexivity |]. repeat split. Qed.

Example max_reached_needs_one_more_address :
  exists s',
    Uniform.run Concrete.steady (Concrete.uniform_10hz (Some 3%Z)) 50
      (Uniform.initial
         (AddressList.mk ["00C0FFEE00"; "0123456789"; "ABCDEFABCD"; "00000000FF"] 0
            "lfa.txt" "sequential" None)) = TimeBase.Done tt s'
    /\ Uniform.sent (TimeBase.trace s') = ["N 00C0FFEE00"; "N 0123456789"; "N ABCDEFABCD"]
    /\ TimeBase.finished_reason s' = Some "max_reached"
    /\ AddressList._idx (TimeBase.area s') = 4.
Proof. eexists. split; [vm_compute; reflexivity |]. repeat split. Qed.

(** C4, at the input of scenario B: three addresses in file order, 10 Hz,
    no duration, no shot limit.  The run ends because the addresses are
    used up, with the three commands sent and [finished_reason] unset;
    the watcher, whose branch for area exhaustion is keyed on the reason
    [area_exhausted] that [ProfileBase] leaves to its subclasses to fill
    in, does not take that branch and reports a plain time-profile
    finish: the end of the address sequence is detected by no one. *)
Lemma C4_watcher_misses_exhaustion :
  exists s',
    Uniform.run Concrete.steady (Concrete.uniform_10hz None) 50
      (Uniform.initial Concrete.three_lfa_area) = TimeBase.Done tt s'
    /\ AreaBase.gen_next (TimeBase.area s') = None
    /\ Uniform.sent (TimeBase.trace s') = ["N 00C0FFEE00"; "N 0123456789"; "N ABCDEFABCD"]
    /\ Watcher.reports_area_exhausted
         (Watcher.report (TimeBase.finished_reason s')
            AddressList.name AddressList.end_condition_prompt
            Uniform.name Uniform.end_condition_prompt) = false
    /\ Watcher.report (TimeBase.finished_reason s')
         AddressList.name AddressList.end_condition_prompt
         Uniform.name Uniform.end_condition_prompt
       = [Watcher.LogProfTime "finished"; Watcher.Info "Time profile [UNIFORM] finished."].
Proof. eexists. split; [vm_compute; reflexivity |]. repeat split. Qed.

(** The behaviour behind C3 and C4 for every environment and area: when
    nothing stops, pauses or fails the run, the clock keeps advancing, no
    duration is set and the shot limit, if any, is not below the number
    of addresses, the run ends once the address sequence is used up,
    having sent one command per address and no more, with
    [finished_reason] unset.  The watcher takes its area-exhaustion branch
    only for the reason [area_exhausted], which no run sets; so it reports
    a plain time-profile finish. *)
Theorem C4_exhaustion_ends_run_unreported
    {T : Type} `{TimeBase.Arith T} {A : Type} `{AreaBase.AreaProfile A}
    (e : TimeBase.env T) (cfg : Uniform.config (T:=T)) (a a' : A) (l : list string)
    (Hquiet : Uniform.undisturbed e)
    (Hclock : Uniform.progressive e)
    (Hdur : Uniform.duration_s cfg = None)
    (Hcap : match Uniform.max_shots cfg with
            | Some m => (Z.of_nat (length l) <= m)%Z
            | None => True
            end)
    (Hyields : Uniform.yields a l a') :
  exists s' bound,
    (forall fuel, bound <= fuel ->
       Uniform.run e cfg fuel (Uniform.initial a) = TimeBase.Done tt s')
    /\ Uniform.sent (TimeBase.trace s') = map TimeBase.inject_lfa_command l
    /\ AreaBase.gen_next (TimeBase.area s') = None
    /\ TimeBase.finished_reason s' = None
    /\ (forall reason an ap tn tp,
          Watcher.reports_area_exhausted (Watcher.report reason an ap tn tp) = true
          <-> reason = Some "area_exhausted")
    /\ (forall an ap tn tp,
          Watcher.report (TimeBase.finished_reason s') an ap tn tp
          = [Watcher.LogProfTime "finished";
             Watcher.Info ("Time profile [" +:+ tn +:+ "] finished." +:+ "")]).
Proof.
  assert (Hnever : match Uniform.duration_s cfg with
                   | Some dur =>
                       forall j, TimeBase.leb dur
                         (TimeBase.sub (TimeBase.clock e j) (TimeBase.clock e 0)) = false
                   | None => True
                   end) by now rewrite Hdur.
  destruct (run_done e cfg Hquiet Hclock (TimeBase.clock e 0) Hnever a a' l eq_refl Hyields)
    as (s' & B & Ha & Hf & _ & Hs & Hrun).
  { intros i Hi. unfold Uniform.max_reached.
    destruct (Uniform.max_shots cfg) as [m|]; [| reflexivity].
    apply Z.leb_gt. lia. }
  exists s', B. split; [exact Hrun |]. split; [exact Hs |].
  split; [rewrite Ha; exact (yields_end l a a' Hyields) |].
  split; [exact Hf |]. split.
  - intros reason an ap tn tp. unfold Watcher.report.
    destruct (Watcher.is_area_exhausted reason) eqn:Hr.
    + split; [intros _ | reflexivity].
      destruct reason as [r|]; [| discriminate].
      apply String.eqb_eq in Hr. now subst.
    + split; [discriminate |]. intros ->. discriminate.
  - intros an ap tn tp. rewrite Hf. reflexivity.
Qed.

Lemma C4_exhaustion_ends_run_unreported_witness :
  Uniform.undisturbed Concrete.steady
  /\ Uniform.progressive Concrete.steady
  /\ exists s' bound,
       (forall fuel, bound <= fuel ->
          Uniform.run Concrete.steady (Concrete.uniform_10hz None) fuel
            (Uniform.initial Concrete.three_lfa_area) = TimeBase.Done tt s')
       /\ Uniform.sent (TimeBase.trace s')
          = map TimeBase.inject_lfa_command ["00C0FFEE00"; "0123456789"; "ABCDEFABCD"]
       /\ TimeBase.finished_reason s' = None.
Proof.
  split; [exact steady_undisturbed |]. split; [exact steady_progressive |].
  destruct (C4_exhaustion_ends_run_unreported Concrete.steady (Concrete.uniform_10hz None)
              Concrete.three_lfa_area _ _ steady_undisturbed steady_progressive
              eq_refl I three_lfa_area_yields)
    as (s' & bound & Hrun & Hs & _ & Hf & _).
  exists s', bound. auto.
Defined.

(* ===================================================================== *)
(** * Further properties of the code around the claims *)
(* ===================================================================== *)

(** ** List utilities of fi/area/base.py *)

Section AreaBaseListsFacts.
Import AreaBaseLists.

Lemma dedupe_fold (items : list string) (seen : gset string) (out : list string) :
  (forall x, x ∈ seen <-> x ∈ out) -> NoDup out ->
  let st := fold_left dedupe_step items (seen, out) in
  (forall x, x ∈ fst st <-> x ∈ snd st) /\ NoDup (snd st) /\
  (forall x, x ∈ snd st <-> x ∈ out \/ x ∈ items) /\
  exists ext, snd st = out ++ ext /\ sublist ext items.
Proof.
  revert seen out. induction items as [|it items IH]; intros seen out Hs Hnd; simpl.
  - split; [exact Hs|]. split; [exact Hnd|]. split.
    + intros x. rewrite elem_of_nil. tauto.
    + exists []. rewrite app_nil_r. split; [reflexivity | constructor].
  - assert (E : dedupe_step (seen, out) it =
      if decide (it ∈ seen) then (seen, out) else ({[ it ]} ∪ seen, out ++ [it]))
      by reflexivity.
    rewrite E. clear E. destruct (decide (it ∈ seen)) as [Hin | Hnin].
    + destruct (IH seen out Hs Hnd) as (H1 & H2 & H3 & ext & H4 & H5).
      split; [exact H1|]. split; [exact H2|]. split.
      * intros x. rewrite H3, elem_of_cons. split; [tauto|].
        intros [?|[->|?]]; auto. left. apply Hs, Hin.
      * exists ext. split; [exact H4|]. apply sublist_cons, H5.
    + assert (Hs' : forall x, x ∈ ({[it]} ∪ seen : gset string) <-> x ∈ out ++ [it]).
      { intros x. rewrite elem_of_union, elem_of_singleton, elem_of_app, list_elem_of_singleton, Hs. tauto. }
      assert (Hnd' : NoDup (out ++ [it])).
      { apply NoDup_app. split; [exact Hnd|]. split.
        - intros x Hx Hx'. apply list_elem_of_singleton in Hx'. subst x. apply Hnin, Hs, Hx.
        - apply NoDup_singleton. }
      destruct (IH _ _ Hs' Hnd') as (H1 & H2 & H3 & ext & H4 & H5).
      split; [exact H1|]. split; [exact H2|]. split.
      * intros x. rewrite H3, elem_of_app, list_elem_of_singleton, elem_of_cons. tauto.
      * exists (it :: ext). split; [rewrite H4, <- app_assoc; reflexivity|].
        apply sublist_skip, H5.
Qed.

Lemma dedupe_seen (items : list string) :
  forall x, x ∈ fst (fold_left dedupe_step items (∅, [])) <-> x ∈ items.
Proof.
  intros x.
  destruct (dedupe_fold items ∅ []) as (H1 & _ & H3 & _).
  - intros y. rewrite elem_of_nil. set_solver.
  - constructor.
  - rewrite H1, H3, elem_of_nil. tauto.
Qed.

Lemma dedupe_snoc (l : list string) (x : string) :
  snd (fold_left dedupe_step (l ++ [x]) (∅, [])) =
    if decide (x ∈ l) then snd (fold_left dedupe_step l (∅, []))
    else snd (fold_left dedupe_step l (∅, [])) ++ [x].
Proof.
  rewrite fold_left_app. simpl. unfold dedupe_step at 1.
  pose proof (dedupe_seen l x) as Hx.
  destruct (decide (x ∈ fst (fold_left dedupe_step l (∅, [])))) as [Hin|Hnin];
    destruct (decide (x ∈ l)) as [Hl|Hl]; try tauto; reflexivity.
Qed.

End AreaBaseListsFacts.

(** X1: [dedupe_preserve_order] returns a list without duplicates that has
    exactly the elements of its argument, as a subsequence of it; an
    element appended to the input is appended to the output when it is new
    and dropped otherwise, so each element stands where it first occurs;
    a list without duplicates comes back unchanged. *)
Theorem X1_dedupe_keeps_first_occurrences (items : list string) :
  NoDup (AreaBaseLists.dedupe_preserve_order items) /\
  (forall x, x ∈ AreaBaseLists.dedupe_preserve_order items <-> x ∈ items) /\
  sublist (AreaBaseLists.dedupe_preserve_order items) items /\
  (forall x, AreaBaseLists.dedupe_preserve_order (items ++ [x]) =
     if decide (x ∈ items) then AreaBaseLists.dedupe_preserve_order items
     else AreaBaseLists.dedupe_preserve_order items ++ [x]) /\
  (NoDup items -> AreaBaseLists.dedupe_preserve_order items = items).
Proof.
  unfold AreaBaseLists.dedupe_preserve_order.
  destruct (dedupe_fold items ∅ []) as (H1 & H2 & H3 & ext & H4 & H5).
  { intros y. rewrite elem_of_nil. set_solver. }
  { constructor. }
  split; [exact H2|]. split.
  { intros x. rewrite H3, elem_of_nil. tauto. }
  split; [rewrite H4; exact H5|].
  split; [intros x; apply dedupe_snoc|].
  clear. induction items as [|x l IH] using rev_ind; intros Hnd; [reflexivity|].
  apply NoDup_app in Hnd as (Hl & Hx & _).
  rewrite dedupe_snoc. destruct (decide (x ∈ l)) as [Hin|Hnin].
  - exfalso. apply (Hx x Hin). apply list_elem_of_singleton. reflexivity.
  - rewrite (IH Hl). reflexivity.
Qed.

Section RoundRobinFacts.
Import AreaBaseLists.

Lemma rr_pass_at (j : nat) (lists : list (list string)) :
  forall out progressed remaining,
  rr_pass (map (at_pass j) lists) out progressed remaining =
  (map (at_pass (S j)) lists, out ++ omap (fun l => l !! j) lists,
   progressed || existsb (fun l => (j <? length l)%nat) lists,
   remaining - at_len j lists).
Proof.
  induction lists as [|l lists IH]; intros out progressed remaining.
  - simpl. rewrite app_nil_r, orb_false_r, Nat.sub_0_r. reflexivity.
  - cbn [map rr_pass]. unfold at_pass at 1. cbn [omap list_omap existsb].
    destruct (length l <? j)%nat eqn:Hfin.
    + apply Nat.ltb_lt in Hfin. rewrite IH.
      rewrite (lookup_ge_None_2 l j) by lia.
      replace (j <? length l)%nat with false by (symmetry; apply Nat.ltb_ge; lia).
      unfold at_len. cbn [List.filter].
      replace (length l =? j)%nat with false by (symmetry; apply Nat.eqb_neq; lia).
      unfold at_pass at 2.
      rewrite (drop_ge l (S j)) by lia. rewrite (drop_ge l j) by lia.
      replace (length l <? S j)%nat with true by (symmetry; apply Nat.ltb_lt; lia).
      reflexivity.
    + apply Nat.ltb_ge in Hfin. destruct (drop j l) as [|x rest] eqn:Hd.
      * assert (Hlen : length l = j).
        { apply (f_equal length) in Hd. rewrite length_drop in Hd. simpl in Hd. lia. }
        rewrite IH. rewrite (lookup_ge_None_2 l j) by lia.
        replace (j <? length l)%nat with false by (symmetry; apply Nat.ltb_ge; lia).
        unfold at_len. cbn [List.filter].
        replace (length l =? j)%nat with true by (symmetry; apply Nat.eqb_eq; lia).
        unfold at_pass at 2. rewrite (drop_ge l (S j)) by lia.
        replace (length l <? S j)%nat with true by (symmetry; apply Nat.ltb_lt; lia).
        cbn [length]. f_equal. lia.
      * assert (Hlk : l !! j = Some x).
        { rewrite <- (take_drop j l) at 1. rewrite Hd.
          assert (Hlen : j < length l).
          { apply (f_equal length) in Hd. rewrite length_drop in Hd. simpl in Hd. lia. }
          rewrite lookup_app_r by (rewrite length_take; lia).
          rewrite length_take. replace (j - j `min` length l) with 0 by lia. reflexivity. }
        assert (Hlen : j < length l) by (apply lookup_lt_is_Some; eauto).
        rewrite IH. rewrite Hlk.
        replace (j <? length l)%nat with true by (symmetry; apply Nat.ltb_lt; lia).
        unfold at_len. cbn [List.filter].
        replace (length l =? j)%nat with false by (symmetry; apply Nat.eqb_neq; lia).
        unfold at_pass at 2.
        replace (length l <? S j)%nat with false by (symmetry; apply Nat.ltb_ge; lia).
        replace (drop (S j) l) with rest.
        2:{ rewrite <- (Nat.add_1_r j), <- drop_drop, Hd. reflexivity. }
        rewrite <- app_assoc. rewrite orb_true_r. reflexivity.
Qed.

Lemma alive_step (j : nat) (lists : list (list string)) :
  alive j lists - at_len j lists = alive (S j) lists.
Proof.
  unfold alive, at_len. induction lists as [|l lists IH]; [reflexivity|].
  cbn [List.filter].
  destruct (Nat.leb_spec j (length l)); destruct (Nat.eqb_spec (length l) j);
    destruct (Nat.leb_spec (S j) (length l)); cbn [length]; try lia.
  assert (H' : length (List.filter (fun l0 => (length l0 =? j)%nat) lists) <=
               length (List.filter (fun l0 => (j <=? length l0)%nat) lists)).
  { clear. induction lists as [|a lists IH]; [simpl; lia|]. cbn [List.filter].
    destruct (Nat.leb_spec j (length a)); destruct (Nat.eqb_spec (length a) j);
      cbn [length]; lia. }
  lia.
Qed.

Lemma alive_pos (j : nat) (lists : list (list string)) :
  lists <> [] -> j <= max_list (length <$> lists) -> 0 < alive j lists.
Proof.
  unfold alive. induction lists as [|l lists IH]; intros Hne Hj; [congruence|].
  cbn [List.filter].
  change (max_list (length <$> l :: lists))
    with (length l `max` max_list (length <$> lists)) in Hj.
  destruct (Nat.leb_spec j (length l)); [cbn [length]; lia|].
  destruct lists as [|l' lists'].
  - change (max_list (length <$> [])) with 0 in Hj. lia.
  - apply IH; [congruence|]. lia.
Qed.

Lemma progress_iff (j : nat) (lists : list (list string)) :
  existsb (fun l => (j <? length l)%nat) lists = (j <? max_list (length <$> lists))%nat.
Proof.
  induction lists as [|l lists IH]; [reflexivity|].
  change (max_list (length <$> l :: lists))
    with (length l `max` max_list (length <$> lists)).
  cbn [existsb]. rewrite IH.
  destruct (Nat.ltb_spec j (length l)); destruct (Nat.ltb_spec j (max_list (length <$> lists)));
    destruct (Nat.ltb_spec j (length l `max` max_list (length <$> lists))); simpl; try reflexivity; lia.
Qed.

Lemma rr_loop_from (lists : list (list string)) :
  forall n j out fuel,
  j + n = max_list (length <$> lists) ->
  S n <= fuel ->
  rr_loop fuel (map (at_pass j) lists) out (alive j lists) =
  Some (out ++ concat ((fun i => omap (fun l => l !! i) lists) <$> seq j n)).
Proof.
  induction n as [|n IH]; intros j out fuel Hj Hfuel;
    (destruct fuel as [|fuel]; [lia|]); cbn [rr_loop].
  - destruct lists as [|l0 lists'] eqn:El.
    + simpl. rewrite app_nil_r. reflexivity.
    + rewrite <- El in *.
      assert (Hpos : 0 < alive j lists) by (apply alive_pos; [subst; congruence | lia]).
      replace (0 <? alive j lists)%nat with true by (symmetry; apply Nat.ltb_lt; exact Hpos).
      rewrite rr_pass_at, progress_iff.
      replace (j <? max_list (length <$> lists))%nat with false by (symmetry; apply Nat.ltb_ge; lia).
      cbn [orb negb seq fmap list_fmap concat]. rewrite app_nil_r.
      replace (omap (fun l => l !! j) lists) with (@nil string); [rewrite app_nil_r; reflexivity|].
      symmetry. clear -Hj. assert (Hall : Forall (fun l => length l <= j) lists).
      { apply Forall_forall. intros l Hl.
        assert (length l <= max_list (length <$> lists)); [|lia].
        apply max_list_elem_of_le. apply list_elem_of_fmap. exists l. split; [reflexivity | exact Hl]. }
      clear Hj. induction Hall as [|l ls Hl _ IH]; [reflexivity|].
      cbn [omap list_omap]. rewrite (lookup_ge_None_2 l j) by lia. exact IH.
  - assert (Hne : lists <> []).
    { intros ->. change (max_list (length <$> [])) with 0 in Hj. lia. }
    assert (Hpos : 0 < alive j lists) by (apply alive_pos; [exact Hne | lia]).
    replace (0 <? alive j lists)%nat with true by (symmetry; apply Nat.ltb_lt; exact Hpos).
    rewrite rr_pass_at, progress_iff.
    replace (j <? max_list (length <$> lists))%nat with true by (symmetry; apply Nat.ltb_lt; lia).
    cbn [orb negb]. rewrite alive_step.
    rewrite (IH (S j)) by lia.
    cbn [seq fmap list_fmap concat]. rewrite <- app_assoc. reflexivity.
Qed.

Lemma columns_perm (lists : list (list string)) :
  forall n, Forall (fun l => length l <= n) lists ->
  Permutation (concat ((fun i => omap (fun l => l !! i) lists) <$> seq 0 n)) (concat lists).
Proof.
  intros n. revert lists. induction n as [|n IH]; intros lists Hall.
  - simpl. replace (concat lists) with (@nil string); [constructor|].
    symmetry. induction Hall as [|l ls Hl _ IHl]; [reflexivity|].
    simpl. destruct l; [exact IHl | simpl in Hl; lia].
  - cbn [seq fmap list_fmap concat]. rewrite <- seq_shift.
    rewrite <- list_fmap_compose.
    assert (Htail : forall i, omap (fun l => l !! S i) lists = omap (fun l => l !! i) (map (drop 1) lists)).
    { intros i. clear. induction lists as [|l ls IHl]; [reflexivity|].
      cbn [map omap list_omap]. rewrite IHl. destruct l as [|x l]; [reflexivity|].
      simpl. rewrite drop_0. reflexivity. }
    etransitivity.
    { apply Permutation_app_head.
      erewrite (list_fmap_ext _ (fun i => omap (fun l => l !! i) (map (drop 1) lists))).
      2:{ intros i x _. simpl. apply Htail. }
      apply IH. apply Forall_forall. intros l Hl. apply list_elem_of_In, in_map_iff in Hl as (l' & <- & Hl').
      rewrite Forall_forall in Hall. apply list_elem_of_In in Hl'.
      specialize (Hall l' Hl'). rewrite length_drop. lia. }
    clear. induction lists as [|l ls IHl]; [reflexivity|].
    cbn [map omap list_omap concat]. destruct l as [|x l].
    + simpl. exact IHl.
    + simpl. rewrite drop_0. constructor.
      rewrite <- IHl. rewrite !app_assoc. apply Permutation_app_tail.
      apply Permutation_app_comm.
Qed.

Lemma alive_all (lists : list (list string)) : length lists = alive 0 lists.
Proof.
  unfold alive. induction lists as [|l ls IH]; [reflexivity|].
  change (S (length ls) =
          S (length (List.filter (fun l0 : list string => (0 <=? length l0)%nat) ls))).
  f_equal. exact IH.
Qed.

End RoundRobinFacts.

(** X2: given fuel for one pass more than the longest list has elements,
    [round_robin_merge] returns the lists read column by column (element 0
    of every list that has one, then element 1, and so on); the result is
    a rearrangement of all the elements of all the lists. *)
Theorem X2_round_robin_merge_by_columns (lists : list (list string)) (fuel : nat) :
  max_list (length <$> lists) < fuel ->
  AreaBaseLists.round_robin_merge fuel lists =
    Some (concat ((fun j => AreaBaseLists.column j lists) <$>
                    seq 0 (max_list (length <$> lists)))) /\
  Permutation
    (concat ((fun j => AreaBaseLists.column j lists) <$>
               seq 0 (max_list (length <$> lists))))
    (concat lists).
Proof.
  intros Hfuel. unfold AreaBaseLists.column. split.
  - unfold AreaBaseLists.round_robin_merge.
    assert (H0 : map (fun lst : list string => (lst, false)) lists
                 = map (AreaBaseLists.at_pass 0) lists).
    { apply map_ext. intros l. unfold AreaBaseLists.at_pass. rewrite drop_0. reflexivity. }
    rewrite H0, (alive_all lists).
    rewrite (rr_loop_from lists (max_list (length <$> lists)) 0 [] fuel);
      [reflexivity | reflexivity | exact Hfuel].
  - apply columns_perm. apply Forall_forall. intros l Hl.
    apply max_list_elem_of_le. apply list_elem_of_fmap. exists l. split; [reflexivity | exact Hl].
Qed.

Lemma X2_round_robin_merge_by_columns_witness :
  AreaBaseLists.round_robin_merge 3 [["A0"; "A1"]; ["B0"]; []; ["C0"; "C1"]]
    = Some ["A0"; "B0"; "C0"; "A1"; "C1"].
Proof.
  assert (Hfuel : max_list (length <$> [["A0"; "A1"]; ["B0"]; []; ["C0"; "C1"]]) < 3)
    by (vm_compute; lia).
  exact (proj1 (X2_round_robin_merge_by_columns _ 3 Hfuel)).
Defined.

(** ** Address files and the [address_list] profile *)

Section AreaFileFacts.
Import Py PyStr AreaBase AddressList AddressListCalls Regex.
Context `{Runtime}.

Lemma load_app (a b : list string) :
  load_addresses_file (a ++ b) = load_addresses_file a ++ load_addresses_file b.
Proof.
  induction a as [|raw a IH]; [reflexivity|]. simpl.
  destruct (String.eqb (strip raw) "" || startswith "#" (strip raw)); simpl; now rewrite IH.
Qed.

Lemma load_kept (raws : list string) :
  Forall (fun s => strip s = s /\ String.eqb s "" = false /\ startswith "#" s = false)
    (load_addresses_file raws).
Proof.
  induction raws as [|raw raws IH]; simpl; [constructor|].
  destruct (String.eqb (strip raw) "") eqn:He; simpl; [exact IH|].
  destruct (startswith "#" (strip raw)) eqn:Hc; [exact IH|].
  constructor; [|exact IH]. split; [apply strip_idem|]. split; assumption.
Qed.

Lemma yields_from (n : nat) : forall p,
  n = length (_addrs p) - _idx p ->
  Uniform.yields p (drop (_idx p) (_addrs p)) (drained p).
Proof.
  induction n as [|n IH]; intros p Hn.
  - rewrite drop_ge by lia. simpl. unfold iter_addresses_next.
    replace (_idx p <? length (_addrs p))%nat with false by (symmetry; apply Nat.ltb_ge; lia).
    split; [reflexivity|]. unfold drained. destruct p as [a i pa m sd]. simpl in *.
    f_equal. lia.
  - destruct (lookup_lt_is_Some_2 (_addrs p) (_idx p)) as [x Hx]; [lia|].
    rewrite (drop_S _ _ _ Hx). simpl. unfold iter_addresses_next.
    replace (_idx p <? length (_addrs p))%nat with true by (symmetry; apply Nat.ltb_lt; lia).
    rewrite next_address_spec, Hx.
    eexists. split; [reflexivity|].
    specialize (IH (mk (_addrs p) (S (_idx p)) (_path p) (_mode p) (_seed p))).
    simpl in IH. replace (drained p) with
      (drained (mk (_addrs p) (S (_idx p)) (_path p) (_mode p) (_seed p))).
    + apply IH. lia.
    + unfold drained. simpl. f_equal. lia.
Qed.

Lemma after_inv (cs : list call) : forall p,
  _idx p <= length (_addrs p) ->
  _addrs (after cs p) = _addrs p /\ _idx (after cs p) <= length (_addrs p) /\
  _path (after cs p) = _path p /\ _mode (after cs p) = _mode p /\
  _seed (after cs p) = _seed p.
Proof.
  induction cs as [|c cs IH]; intros p Hp; [simpl; auto|].
  destruct c; simpl.
  - rewrite next_address_spec. destruct (_addrs p !! _idx p) as [x|] eqn:Hx; simpl.
    + apply lookup_lt_Some in Hx.
      destruct (IH (mk (_addrs p) (S (_idx p)) (_path p) (_mode p) (_seed p))) as (?&?&?&?&?);
        simpl in *; [lia | auto].
    + apply IH, Hp.
  - destruct (IH (reset p)) as (?&?&?&?&?); simpl in *; [lia | auto].
Qed.

Lemma times_lang (n : nat) p k : forall s1 s2,
  String.length s1 = n -> forallb_str p s1 = true -> lang k s2 ->
  lang (times n (Cls p) k) (s1 +:+ s2).
Proof.
  induction n as [|n IH]; intros s1 s2 Hlen Hall Hk.
  - destruct s1; [exact Hk | discriminate].
  - destruct s1 as [|c s1]; [discriminate|]. simpl in Hlen, Hall.
    apply andb_true_iff in Hall as [Hc Hall].
    change (lang (Cat (Cls p) (times n (Cls p) k)) (String c "" +:+ (s1 +:+ s2))).
    apply L_cat; [apply L_cls; exact Hc|]. apply IH; [lia | exact Hall | exact Hk].
Qed.

Lemma hex10_fullmatch (s : string) :
  is_hex10 s = true -> fullmatch _HEX10_RE s = true.
Proof.
  unfold is_hex10. intros Hh. apply andb_true_iff in Hh as [Hlen Hall].
  apply Nat.eqb_eq in Hlen. apply fullmatch_lang.
  rewrite <- (append_nil_r s). apply times_lang; [exact Hlen | exact Hall |].
  apply L_alt_r. constructor.
Qed.

Lemma validate_first_bad (pre : list string) : forall idx line post,
  Forall (fun l => is_hex10 (strip l) = true) pre ->
  is_hex10 (strip line) = false ->
  validate idx (pre ++ line :: post) = inl (InvalidLFA (idx + length pre) line).
Proof.
  induction pre as [|l pre IH]; intros idx line post Hpre Hline; simpl.
  - destruct (fullmatch _HEX10_RE (strip line)) eqn:Hm.
    + apply hex10_stripped in Hm. congruence.
    + rewrite Nat.add_0_r. reflexivity.
  - inversion Hpre as [|? ? Hl Hpre']; subst.
    rewrite (hex10_fullmatch _ Hl). rewrite (IH (S idx) line post Hpre' Hline).
    f_equal. f_equal. lia.
Qed.

End AreaFileFacts.

(** X3: [load_addresses_file] gives the same list when its own output is
    read again, reads two files one after the other as it reads them
    joined, and every line it keeps is stripped, not empty and not a
    comment. *)
Theorem X3_load_addresses_file_canonical (raws more : list string) :
  AreaBase.load_addresses_file (AreaBase.load_addresses_file raws)
    = AreaBase.load_addresses_file raws /\
  AreaBase.load_addresses_file (raws ++ more) =
    AreaBase.load_addresses_file raws ++ AreaBase.load_addresses_file more /\
  Forall (fun s => PyStr.strip s = s /\ s <> "" /\ PyStr.startswith "#" s = false)
    (AreaBase.load_addresses_file raws).
Proof.
  split; [|split; [apply load_app|]].
  - pose proof (load_kept raws) as Hk.
    induction Hk as [|s l (Hs & He & Hc) _ IH]; [reflexivity|].
    simpl. rewrite Hs, He, Hc. simpl. now rewrite IH.
  - eapply Forall_impl; [apply load_kept|].
    intros s (Hs & He & Hc). split; [exact Hs|]. split; [|exact Hc].
    intros ->. discriminate.
Qed.

(** X4: [apply_ordering] only rearranges: its result has the elements of
    its argument, each as often, whatever the order and the seed; and
    unless the order, stripped and lowercased, is [shuffle], the result is
    the argument itself, so an unknown order word means file order. *)
Theorem X4_apply_ordering_permutes `{Py.Runtime} (addresses : list string)
    (order : string) (seed : option Z) (os_entropy : N) :
  Permutation (AreaBase.apply_ordering addresses order seed os_entropy) addresses /\
  length (AreaBase.apply_ordering addresses order seed os_entropy) = length addresses /\
  (PyStr.lower (PyStr.strip order) <> "shuffle" ->
   AreaBase.apply_ordering addresses order seed os_entropy = addresses).
Proof.
  assert (Hp : Permutation (AreaBase.apply_ordering addresses order seed os_entropy) addresses).
  { unfold AreaBase.apply_ordering.
    destruct (String.eqb _ "shuffle"); [apply Py.random_shuffle_perm | reflexivity]. }
  split; [exact Hp|]. split; [apply Permutation_length, Hp|].
  intros Hne. unfold AreaBase.apply_ordering.
  destruct (String.eqb order "") eqn:He.
  - reflexivity.
  - destruct (String.eqb (PyStr.lower (PyStr.strip order)) "shuffle") eqn:Hs; [|reflexivity].
    apply String.eqb_eq in Hs. contradiction.
Qed.

(** X5: as an address source for a scheduler, a profile yields the
    addresses from its index on, each once and in order, and then ends
    with its index at the end of the list; once there it yields nothing
    more; after [reset] it yields the whole list again. *)
Theorem X5_iter_addresses_yields_the_rest (p : AddressList.profile) :
  Uniform.yields p (drop (AddressList._idx p) (AddressList._addrs p))
    (AddressListCalls.drained p) /\
  Uniform.yields (AddressListCalls.drained p) [] (AddressListCalls.drained p) /\
  Uniform.yields (AddressList.reset p) (AddressList._addrs p)
    (AddressListCalls.drained (AddressList.reset p)).
Proof.
  split; [eapply yields_from; reflexivity|]. split.
  - pose proof (yields_from _ (AddressListCalls.drained p) eq_refl) as Hy.
    rewrite drop_ge in Hy by (simpl; lia).
    replace (AddressListCalls.drained (AddressListCalls.drained p))
      with (AddressListCalls.drained p) in Hy; [exact Hy|].
    unfold AddressListCalls.drained. simpl. f_equal. lia.
  - pose proof (yields_from _ (AddressList.reset p) eq_refl) as Hy. simpl in Hy.
    rewrite drop_0 in Hy. exact Hy.
Qed.

(** X6: whatever calls of [next_address] and [reset] are made on a
    profile whose index is within its list, the list stays the same and
    the index stays within it; a [reset] then makes [next_address] give
    the list again from its first address. *)
Theorem X6_reset_replays_from_the_start (cs : list AddressList.call)
    (p : AddressList.profile) (n : nat) :
  AddressList._idx p <= length (AddressList._addrs p) ->
  AddressList._addrs (AddressListCalls.after cs p) = AddressList._addrs p /\
  AddressList._idx (AddressListCalls.after cs p) <= length (AddressList._addrs p) /\
  AddressList.serve n (AddressList.reset (AddressListCalls.after cs p))
    = take n (AddressList._addrs p) /\
  (length (AddressList._addrs p) <= n ->
   AddressList.serve n (AddressList.reset (AddressListCalls.after cs p))
     = AddressList._addrs p).
Proof.
  intros Hp. destruct (after_inv cs p Hp) as (Ha & Hi & _).
  split; [exact Ha|]. split; [exact Hi|].
  assert (Hs : AddressList.serve n (AddressList.reset (AddressListCalls.after cs p))
               = take n (AddressList._addrs p)).
  { rewrite serve_spec. simpl. rewrite drop_0, Ha. reflexivity. }
  split; [exact Hs|]. intros Hn. rewrite Hs. apply take_ge. exact Hn.
Qed.

Lemma X6_reset_replays_from_the_start_witness :
  AddressList.serve 5
    (AddressList.reset
       (AddressListCalls.after
          [AddressList.CallNext; AddressList.CallNext; AddressList.CallReset;
           AddressList.CallNext]
          Concrete.three_lfa_area))
  = ["00C0FFEE00"; "0123456789"; "ABCDEFABCD"].
Proof.
  assert (Hidx : AddressList._idx Concrete.three_lfa_area
                 <= length (AddressList._addrs Concrete.three_lfa_area))
    by (vm_compute; lia).
  assert (Hn : length (AddressList._addrs Concrete.three_lfa_area) <= 5)
    by (vm_compute; lia).
  exact (proj2 (proj2 (proj2 (X6_reset_replays_from_the_start
    [AddressList.CallNext; AddressList.CallNext; AddressList.CallReset;
     AddressList.CallNext] Concrete.three_lfa_area 5 Hidx))) Hn).
Defined.

(** X7: when a file has a line that is neither blank, nor a comment, nor
    ten hexadecimal digits, validation fails at the first such line; the
    error carries that line stripped, and as its number the position among
    the lines the loader kept, so blank lines and comments before it are
    not counted. *)
Theorem X7_first_bad_line_is_reported (pre post : list string) (raw : string) :
  Forall (fun r => AddressList.bad_line r = false) pre ->
  AddressList.bad_line raw = true ->
  AddressList.validate 1 (AreaBase.load_addresses_file (pre ++ raw :: post)) =
    inl (AddressList.InvalidLFA
           (S (length (AreaBase.load_addresses_file pre))) (PyStr.strip raw)).
Proof.
  intros Hpre Hraw. rewrite load_app.
  unfold AddressList.bad_line in Hraw.
  apply andb_true_iff in Hraw as [Hraw Hh]. apply andb_true_iff in Hraw as [He Hc].
  apply negb_true_iff in He, Hc, Hh.
  simpl. rewrite He, Hc. simpl.
  apply (validate_first_bad (AreaBase.load_addresses_file pre) 1 (PyStr.strip raw)).
  - clear -Hpre. induction Hpre as [|r pre Hr _ IH]; simpl; [constructor|].
    unfold AddressList.bad_line in Hr.
    destruct (String.eqb (PyStr.strip r) "") eqn:He; simpl; [exact IH|].
    destruct (PyStr.startswith "#" (PyStr.strip r)) eqn:Hc; [exact IH|].
    constructor; [|exact IH]. simpl in Hr. apply negb_false_iff in Hr.
    rewrite strip_idem. exact Hr.
  - rewrite strip_idem. exact Hh.
Qed.

Lemma X7_first_bad_line_is_reported_witness :
  AddressList.validate 1
    (AreaBase.load_addresses_file
       (["# targets"; "00c0ffee00"; ""] ++ " 12345 " :: ["0123456789"]))
  = inl (AddressList.InvalidLFA 2 "12345").
Proof.
  assert (Hpre : Forall (fun r => AddressList.bad_line r = false)
                   ["# targets"; "00c0ffee00"; ""])
    by (repeat constructor).
  assert (Hraw : AddressList.bad_line " 12345 " = true) by reflexivity.
  exact (X7_first_bad_line_is_reported _ ["0123456789"] _ Hpre Hraw).
Defined.

(** ** The echo gate, the tracker and the RX printer *)

Section TxEchoGateFacts.
Import TxEchoGate.

Lemma gate_invariant (cs : list call) :
  let g := run cs init in
  shown g ++ _queue g = sent_texts cs /\
  _printed g = length (shown g) /\
  _completed g = releases cs /\
  _printed g <= _completed g + 1 /\
  (_queue g <> [] -> _printed g = _completed g + 1).
Proof.
  induction cs as [|c cs IH] using rev_ind.
  - unfold run, releases, sent_texts. simpl.
    split; [reflexivity|]. split; [reflexivity|]. split; [reflexivity|].
    split; [lia|]. intros Hq. congruence.
  - unfold run, sent_texts, releases in *. rewrite fold_left_app, omap_app, List.filter_app, length_app.
    simpl in *. set (g := fold_left step cs init) in *.
    destruct IH as (H1 & H2 & H3 & H4 & H5).
    destruct c as [text|]; simpl.
    + unfold send_echo. destruct (Nat.leb_spec (_printed g) (_completed g)) as [Hle|Hgt]; simpl.
      * assert (Hq : _queue g = []).
        { destruct (_queue g) eqn:Eq; [reflexivity|].
          assert (_printed g = _completed g + 1) by (apply H5; congruence). lia. }
        rewrite Hq in *. rewrite app_nil_r in *. rewrite length_app. simpl.
        split; [rewrite H1; reflexivity|]. split; [lia|]. split; [lia|]. split; [lia|].
        intros Hne. congruence.
      * rewrite app_assoc, H1.
        split; [reflexivity|]. split; [lia|]. split; [lia|]. split; [lia|].
        intros _. lia.
    + unfold on_sc00. destruct (_queue g) as [|text q] eqn:Eq; simpl.
      * rewrite !app_nil_r in *.
        split; [exact H1|]. split; [lia|]. split; [lia|]. split; [lia|].
        intros Hne. congruence.
      * assert (Hp : _printed g = _completed g + 1) by (apply H5; congruence).
        replace (_printed g <=? _completed g + 1)%nat with true
          by (symmetry; apply Nat.leb_le; lia).
        simpl. rewrite <- app_assoc. simpl. rewrite length_app, app_nil_r. simpl.
        split; [rewrite H1; reflexivity|]. split; [lia|]. split; [lia|]. split; [lia|].
        intros _. lia.
Qed.

End TxEchoGateFacts.

Section AckTrackerCallsFacts.
Import AckTracker AckTrackerCalls.

Lemma tracker_slot (ops : list op) : forall s,
  (pending s && event s = false) ->
  resolved_count ops s + Nat.b2n (pending (snd (run ops s)))
    <= starts ops + Nat.b2n (pending s) /\
  pending (snd (run ops s)) && event (snd (run ops s)) = false.
Proof.
  induction ops as [|o ops IH]; intros s Hs.
  - simpl. split; [unfold starts; simpl; lia | exact Hs].
  - cbn [resolved_count run]. destruct o as [|line|tm].
    + cbn [step]. specialize (IH (start s) eq_refl).
      destruct (run ops (start s)) as [rs s2] eqn:Er. simpl in IH |- *.
      unfold starts in *. simpl. destruct IH as [IH1 IH2]. split; [|exact IH2].
      destruct (pending s); simpl; lia.
    + cbn [step]. destruct (pending s) eqn:Hp.
      * rewrite (on_rx_pending line s Hp). destruct (is_sc00 line).
        -- specialize (IH AckProtocol.resolved eq_refl).
           destruct (run ops AckProtocol.resolved) as [rs s2] eqn:Er. simpl in IH |- *.
           unfold starts in *. simpl. destruct IH as [IH1 IH2]. split; [lia | exact IH2].
        -- assert (Hs2 : pending s && event s = false) by (rewrite Hp; exact Hs).
           specialize (IH s Hs2).
           destruct (run ops s) as [rs s2] eqn:Er. simpl in IH |- *.
           unfold starts in *. simpl. rewrite Hp in IH. simpl in IH. exact IH.
      * rewrite (on_rx_idle line s Hp).
        assert (Hs2 : pending s && event s = false) by (rewrite Hp; exact Hs).
        specialize (IH s Hs2).
        destruct (run ops s) as [rs s2] eqn:Er. simpl in IH |- *.
        unfold starts in *. simpl. rewrite Hp in IH. simpl in IH. exact IH.
    + cbn [step wait]. specialize (IH s Hs).
      destruct (run ops s) as [rs s2] eqn:Er. simpl in IH |- *.
      unfold starts in *. simpl. exact IH.
Qed.

End AckTrackerCallsFacts.

Section RxPrinterFacts.
Import Regex RxPrinter.

Lemma match_I_N_head (c : ascii) (rest : string) :
  match_I_N (String c rest) = true -> PyStr.isspace c = true \/ c = "I"%char.
Proof.
  unfold match_I_N. intros Hm. apply fullmatch_lang in Hm. unfold _RE_I_N in Hm.
  apply lang_cat_inv in Hm as (s1 & s2 & Heq & Hs1 & Hs2).
  apply lang_star_cls in Hs1.
  destruct s1 as [|c1 s1].
  - simpl in Heq. subst s2.
    apply lang_cat_inv in Hs2 as (a & b & Heq & Ha & _).
    apply lang_chr in Ha. subst a. simpl in Heq. injection Heq as -> _. now right.
  - simpl in Heq. injection Heq as -> _. simpl in Hs1.
    apply andb_true_iff in Hs1 as [Hc _]. now left.
Qed.

Lemma sc00_not_I_N (ln : string) :
  AckTracker.is_sc00 ln = true -> match_I_N ln = false.
Proof.
  intros Hsc. apply is_sc00_spec in Hsc as (w & nl & -> & _).
  destruct (match_I_N _) eqn:Hm; [|reflexivity].
  simpl in Hm. apply match_I_N_head in Hm as [Hsp | Hc]; discriminate.
Qed.

Lemma on_rx_spec (ln : string) (s : AckTracker.t) :
  AckTracker.on_rx ln s =
    if AckTracker.pending s && AckTracker.is_sc00 ln
    then (true, AckProtocol.resolved) else (false, s).
Proof.
  destruct (AckTracker.pending s) eqn:Hp; simpl.
  - apply on_rx_pending, Hp.
  - apply on_rx_idle, Hp.
Qed.

Lemma is_sc00_inline (ln : string) :
  match AckTracker.match_SC ln with
  | Some g => match PyStr.int16 g with Some v => (v =? 0)%N | None => false end
  | None => false
  end = AckTracker.is_sc00 ln.
Proof.
  unfold AckTracker.is_sc00, AckTracker.sc_value.
  destruct (AckTracker.match_SC ln); reflexivity.
Qed.

End RxPrinterFacts.

(** X8: after any sequence of [send_echo] and [on_sc00] calls on a new
    gate, the texts printed followed by the texts still queued are the
    texts sent, in the order sent: none is lost, repeated or reordered.
    At most one more text has been printed than [on_sc00] was called,
    exactly one more while texts are queued, and nothing is queued once
    [on_sc00] has been called as often as texts were sent. *)
Theorem X8_gate_shows_echoes_in_order (cs : list TxEchoGate.call) :
  TxEchoGate.shown (TxEchoGate.run cs TxEchoGate.init)
    ++ TxEchoGate._queue (TxEchoGate.run cs TxEchoGate.init)
    = TxEchoGate.sent_texts cs /\
  length (TxEchoGate.shown (TxEchoGate.run cs TxEchoGate.init))
    <= TxEchoGate.releases cs + 1 /\
  (TxEchoGate._queue (TxEchoGate.run cs TxEchoGate.init) <> [] ->
   length (TxEchoGate.shown (TxEchoGate.run cs TxEchoGate.init))
     = TxEchoGate.releases cs + 1) /\
  (length (TxEchoGate.sent_texts cs) <= TxEchoGate.releases cs ->
   TxEchoGate._queue (TxEchoGate.run cs TxEchoGate.init) = []).
Proof.
  destruct (gate_invariant cs) as (H1 & H2 & H3 & H4 & H5).
  split; [exact H1|]. split; [lia|]. split.
  - intros Hq. specialize (H5 Hq). lia.
  - intros Hlen.
    destruct (TxEchoGate._queue (TxEchoGate.run cs TxEchoGate.init)) as [|x q] eqn:Eq;
      [reflexivity|].
    assert (Hp : TxEchoGate._printed (TxEchoGate.run cs TxEchoGate.init)
                 = TxEchoGate._completed (TxEchoGate.run cs TxEchoGate.init) + 1)
      by (apply H5; congruence).
    apply (f_equal (@length string)) in H1. rewrite length_app in H1. simpl in H1. lia.
Qed.

(** X9: in any sequence of [start], [on_rx] and [wait] calls on a new
    tracker, [on_rx] answers [True] at most once per [start], a tracker
    left pending counting as a [start] not yet answered; and the tracker
    is never pending with its event set. *)
Theorem X9_one_resolution_per_start (ops : list AckTracker.op) :
  AckTrackerCalls.resolved_count ops AckTracker.init
    + Nat.b2n (AckTracker.pending (snd (AckTracker.run ops AckTracker.init)))
    <= AckTrackerCalls.starts ops /\
  AckTracker.pending (snd (AckTracker.run ops AckTracker.init))
    && AckTracker.event (snd (AckTracker.run ops AckTracker.init)) = false.
Proof.
  destruct (tracker_slot ops AckTracker.init eq_refl) as [H1 H2]. simpl in H1.
  split; [lia | exact H2].
Qed.

(** X10: on each received line the RX printer calls the gate's [on_sc00]
    exactly when the line is a status reply of value 00 and either an
    injection echo [I> N] has been seen since the last release or the
    tracker is pending; [in_inject_context] is then cleared, and is
    otherwise raised by an echo line; the tracker is resolved exactly when
    such a reply finds it pending. *)
Theorem X10_gate_released_only_by_injection_sc00 (ln : string)
    (st : RxPrinter.state) (g : TxEchoGate.t) :
  RxPrinter.inj_tx_gate st = Some g ->
  let release := AckTracker.is_sc00 ln &&
                 (RxPrinter.in_inject_context st
                  || AckTracker.pending (RxPrinter.ack_tracker st)) in
  RxPrinter.inj_tx_gate (RxPrinter.on_line ln st)
    = Some (if release then TxEchoGate.on_sc00 g else g) /\
  RxPrinter.in_inject_context (RxPrinter.on_line ln st) =
    (if release then false
     else RxPrinter.in_inject_context st || RxPrinter.match_I_N ln) /\
  RxPrinter.ack_tracker (RxPrinter.on_line ln st) =
    (if AckTracker.is_sc00 ln && AckTracker.pending (RxPrinter.ack_tracker st)
     then AckProtocol.resolved else RxPrinter.ack_tracker st).
Proof.
  intros Hg. cbv zeta. unfold RxPrinter.on_line. rewrite Hg, on_rx_spec.
  rewrite is_sc00_inline.
  destruct (AckTracker.is_sc00 ln) eqn:Hsc.
  - rewrite (sc00_not_I_N ln Hsc).
    destruct (RxPrinter.in_inject_context st),
      (AckTracker.pending (RxPrinter.ack_tracker st)); simpl; auto.
  - rewrite andb_false_r. simpl.
    destruct (RxPrinter.match_I_N ln), (RxPrinter.in_inject_context st); simpl; auto.
Qed.

Lemma X10_gate_released_only_by_injection_sc00_witness :
  let st := RxPrinter.mk false (AckTracker.start AckTracker.init)
              (Some (TxEchoGate.send_echo "N 0123456789"
                       (TxEchoGate.send_echo "N 00C0FFEE00" TxEchoGate.init))) in
  TxEchoGate.shown <$> RxPrinter.inj_tx_gate (RxPrinter.on_line "SC 00" st)
    = Some ["N 00C0FFEE00"; "N 0123456789"].
Proof.
  intros st.
  assert (Hg : RxPrinter.inj_tx_gate st
               = Some (TxEchoGate.send_echo "N 0123456789"
                         (TxEchoGate.send_echo "N 00C0FFEE00" TxEchoGate.init)))
    by reflexivity.
  rewrite (proj1 (X10_gate_released_only_by_injection_sc00 "SC 00" st _ Hg)).
  reflexivity.
Defined.

(** X11: while no injection echo has been seen and the tracker is not
    pending, lines that are not an injection echo leave the printer's
    state as it is, [SC 00] replies among them: a status reply that
    belongs to no injection releases no queued echo. *)
Theorem X11_stray_sc00_changes_nothing (lines : list string) (st : RxPrinter.state) :
  RxPrinter.in_inject_context st = false ->
  AckTracker.pending (RxPrinter.ack_tracker st) = false ->
  Forall (fun ln => RxPrinter.match_I_N ln = false) lines ->
  RxPrinter.on_lines lines st = st.
Proof.
  intros Hc Hp Hall. unfold RxPrinter.on_lines.
  induction Hall as [|ln lines Hln _ IH]; [reflexivity|].
  simpl. replace (RxPrinter.on_line ln st) with st; [exact IH|].
  unfold RxPrinter.on_line. rewrite on_rx_spec, is_sc00_inline, Hp, Hc, Hln. simpl.
  rewrite andb_false_r. destruct st as [c a [g|]]; simpl in *; subst; reflexivity.
Qed.

Lemma X11_stray_sc00_changes_nothing_witness :
  let st := RxPrinter.mk false AckTracker.init
              (Some (TxEchoGate.send_echo "N 0123456789"
                       (TxEchoGate.send_echo "N 00C0FFEE00" TxEchoGate.init))) in
  RxPrinter.on_lines ["O> "; "SC 00"; "FC 00"; "SC 00"] st = st.
Proof.
  intros st.
  assert (Hc : RxPrinter.in_inject_context st = false) by reflexivity.
  assert (Hp : AckTracker.pending (RxPrinter.ack_tracker st) = false) by reflexivity.
  assert (Hall : Forall (fun ln => RxPrinter.match_I_N ln = false)
                   ["O> "; "SC 00"; "FC 00"; "SC 00"])
    by (repeat constructor).
  exact (X11_stray_sc00_changes_nothing _ st Hc Hp Hall).
Defined.

(** ** Keyword arguments through their CSV form *)

Section KwargsCsvFacts.
Import Py PyStr KwargsCsv KwargsCsvItems.

Lemma contains_append (c : ascii) (a b : string) :
  contains c (a +:+ b) = contains c a || contains c b.
Proof.
  induction a as [|x a IH]; simpl; [reflexivity|]. rewrite IH. apply orb_assoc.
Qed.

Lemma split_plain (sep : ascii) (p : string) :
  contains sep p = false -> split sep p = [p].
Proof.
  induction p as [|c p IH]; simpl; [reflexivity|]. intros Hc.
  apply orb_false_iff in Hc as [Hc Hp]. rewrite Hc, (IH Hp). reflexivity.
Qed.

Lemma split_append (sep : ascii) (p s : string) :
  contains sep p = false -> split sep (p +:+ String sep s) = p :: split sep s.
Proof.
  induction p as [|c p IH]; simpl.
  - intros _. rewrite Ascii.eqb_refl. reflexivity.
  - intros Hc. apply orb_false_iff in Hc as [Hc Hp]. rewrite Hc, (IH Hp). reflexivity.
Qed.

Lemma split_join (sep : ascii) (parts : list string) :
  parts <> [] -> Forall (fun p => contains sep p = false) parts ->
  split sep (join (String sep "") parts) = parts.
Proof.
  intros Hne Hall. induction Hall as [|p parts Hp Hall IH]; [congruence|].
  destruct parts as [|q parts].
  - simpl. apply split_plain, Hp.
  - change (join (String sep "") (p :: q :: parts))
      with (p +:+ String sep "" +:+ join (String sep "") (q :: parts)).
    change (String sep "" +:+ join (String sep "") (q :: parts))
      with (String sep (join (String sep "") (q :: parts))).
    rewrite split_append by exact Hp. rewrite IH by congruence. reflexivity.
Qed.

Lemma length_lstrip (s : string) : String.length (lstrip s) <= String.length s.
Proof.
  induction s as [|c s IH]; simpl; [lia|]. destruct (isspace c); simpl; lia.
Qed.

Lemma length_rstrip (s : string) : String.length (rstrip s) <= String.length s.
Proof.
  induction s as [|c s IH]; simpl; [lia|].
  destruct (rstrip s); [destruct (isspace c)|]; simpl in *; lia.
Qed.

Lemma stripped_head (s : string) :
  strip s = s -> s <> "" -> exists c r, s = String c r /\ isspace c = false /\ rstrip s = s.
Proof.
  intros Hs Hne. destruct s as [|c r]; [congruence|].
  destruct (isspace c) eqn:Hc.
  - exfalso. apply (f_equal String.length) in Hs. unfold strip in Hs. simpl in Hs.
    rewrite Hc in Hs. pose proof (length_rstrip (lstrip r)). pose proof (length_lstrip r). lia.
  - exists c, r. split; [reflexivity|]. split; [exact Hc|].
    unfold strip in Hs. simpl in Hs. rewrite Hc in Hs. exact Hs.
Qed.

Lemma rstrip_append (a b : string) :
  rstrip b = b -> b <> "" -> rstrip (a +:+ b) = a +:+ b.
Proof.
  intros Hb Hne. induction a as [|c a IH]; simpl; [exact Hb|].
  rewrite IH. destruct (a +:+ b) eqn:E; [|reflexivity].
  apply append_eq_nil in E as [_ ->]. congruence.
Qed.

Lemma strip_item (k v : string) :
  strip k = k -> k <> "" -> strip v = v -> v <> "" ->
  strip (k +:+ "=" +:+ v) = k +:+ "=" +:+ v.
Proof.
  intros Hk Hkne Hv Hvne.
  destruct (stripped_head k Hk Hkne) as (c & r & -> & Hc & _).
  destruct (stripped_head v Hv Hvne) as (_ & _ & _ & _ & Hrv).
  unfold strip. simpl. rewrite Hc.
  change (String c (r +:+ String "=" v)) with (String c r +:+ "=" +:+ v).
  rewrite <- append_assoc. apply rstrip_append; assumption.
Qed.

Lemma split_once_item (k v : string) :
  contains "=" k = false ->
  contains "=" (k +:+ "=" +:+ v) = true /\ split_once "=" (k +:+ "=" +:+ v) = (k, v).
Proof.
  intros Hk. split.
  - rewrite contains_append. simpl. apply orb_true_r.
  - induction k as [|c k IH]; simpl; [reflexivity|]. simpl in Hk.
    apply orb_false_iff in Hk as [Hc Hk]. rewrite Hc.
    simpl in IH. rewrite (IH Hk). reflexivity.
Qed.

Lemma plain_spec (s : string) :
  plain s = true -> strip s = s /\ s <> "" /\ contains "," s = false.
Proof.
  unfold plain. intros Hp. apply andb_true_iff in Hp as [Hp H3].
  apply andb_true_iff in Hp as [H1 H2].
  apply String.eqb_eq in H1. apply negb_true_iff in H2, H3.
  split; [exact H1|]. split; [|exact H3]. intros ->. discriminate.
Qed.

Lemma parse_part_item (out : gmap string string) (kv : string * string) :
  clean_item kv ->
  parse_part out (fst kv +:+ "=" +:+ snd kv) = <[fst kv := snd kv]> out.
Proof.
  destruct kv as [k v]. intros (Hk & Hke & Hv). cbn [fst snd] in *.
  apply plain_spec in Hk as (Hk1 & Hk2 & _). apply plain_spec in Hv as (Hv1 & Hv2 & _).
  unfold parse_part. rewrite (strip_item k v Hk1 Hk2 Hv1 Hv2).
  destruct (split_once_item k v Hke) as [Hc Hs]. rewrite Hc, Hs, Hk1, Hv1.
  destruct (String.eqb (k +:+ "=" +:+ v) "") eqn:E; [|reflexivity].
  apply String.eqb_eq in E. apply append_eq_nil in E as [-> _]. congruence.
Qed.

Lemma parse_fold_items (items : list (string * string)) : forall out,
  Forall clean_item items ->
  fold_left parse_part (map (fun kv => fst kv +:+ "=" +:+ snd kv) items) out =
  fold_left (fun m kv => <[fst kv := snd kv]> m) items out.
Proof.
  induction items as [|kv items IH]; intros out Hall; [reflexivity|].
  inversion Hall as [|? ? Hkv Hall']; subst. cbn [map fold_left].
  rewrite (parse_part_item out kv Hkv). apply IH, Hall'.
Qed.

Lemma kv_parts_items (opts : list (string * value)) :
  kv_parts opts = map (fun kv => fst kv +:+ "=" +:+ snd kv) (kept_items opts).
Proof.
  unfold kept_items. induction opts as [|[k v] opts IH]; [reflexivity|].
  simpl. destruct v as [|s|z]; simpl.
  - exact IH.
  - destruct (String.eqb (strip s) ""); simpl; [exact IH | now rewrite IH].
  - now rewrite IH.
Qed.

Lemma fold_insert_list_to_map (items : list (string * string)) :
  NoDup (map fst items) ->
  fold_left (fun m kv => <[fst kv := snd kv]> m) items (∅ : gmap string string) =
  list_to_map items.
Proof.
  intros Hnd.
  assert (Hgen : forall (l : list (string * string)) (m : gmap string string),
    NoDup (map fst l) -> (forall k, k ∈ map fst l -> m !! k = None) ->
    fold_left (fun m kv => <[fst kv := snd kv]> m) l m = list_to_map l ∪ m).
  { clear. induction l as [|[k v] l IH]; intros m Hnd Hdis.
    - simpl. rewrite (left_id_L ∅ (∪)). reflexivity.
    - cbn [fold_left map fst snd] in *. apply NoDup_cons in Hnd as [Hk Hnd]. rewrite IH.
      + change (list_to_map ((k, v) :: l) : gmap string string)
          with (<[k := v]> (list_to_map l : gmap string string)).
        rewrite <- insert_union_l. rewrite <- insert_union_r; [reflexivity|].
        apply not_elem_of_list_to_map_1. exact Hk.
      + exact Hnd.
      + intros k' Hk'. rewrite lookup_insert_ne.
        * apply Hdis. apply elem_of_cons. now right.
        * intros ->. contradiction. }
  rewrite Hgen; [apply (right_id_L ∅ (∪)) | exact Hnd | intros; apply lookup_empty].
Qed.

End KwargsCsvFacts.

(** X12: the text [_kv_csv] writes for a dict is read back by
    [_parse_kwargs] as the dict of the items it wrote ([None] and blank
    strings left out), each value as its text, whenever the keys written
    are stripped, not empty and free of [,] and [=] and the values
    written are stripped, not empty and free of [,]. *)
Theorem X12_kv_csv_round_trip (opts : list (string * Py.value)) :
  NoDup (map fst opts) ->
  Forall (fun kv => KwargsCsvItems.kept (snd kv) = true ->
            KwargsCsvItems.plain (fst kv) = true /\
            KwargsCsv.contains "=" (fst kv) = false /\
            KwargsCsvItems.plain (Py.str (snd kv)) = true) opts ->
  KwargsCsv._parse_kwargs (KwargsCsv._kv_csv opts)
    = list_to_map (KwargsCsvItems.kept_items opts).
Proof.
  intros Hnd Hall.
  assert (Hclean : Forall KwargsCsvItems.clean_item (KwargsCsvItems.kept_items opts)).
  { clear Hnd. unfold KwargsCsvItems.kept_items. induction Hall as [|[k v] opts Hkv _ IH]; [constructor|].
    simpl in *. destruct (KwargsCsvItems.kept v); [|exact IH].
    constructor; [|exact IH]. exact (Hkv eq_refl). }
  assert (Hnd' : NoDup (map fst (KwargsCsvItems.kept_items opts))).
  { clear Hall Hclean. unfold KwargsCsvItems.kept_items. induction opts as [|[k v] opts IH]; [constructor|].
    simpl in *. apply NoDup_cons in Hnd as [Hk Hnd]. destruct (KwargsCsvItems.kept v); [|apply IH, Hnd].
    simpl. apply NoDup_cons. split; [|apply IH, Hnd].
    intros Hin. apply Hk. clear -Hin. induction opts as [|[k' v'] opts IH]; simpl in *.
    - exact Hin.
    - destruct (KwargsCsvItems.kept v'); simpl in *.
      + apply elem_of_cons in Hin as [->|Hin]; apply elem_of_cons; [now left | right; auto].
      + apply elem_of_cons. right. auto. }
  unfold KwargsCsv._parse_kwargs, KwargsCsv._kv_csv. rewrite kv_parts_items.
  destruct (KwargsCsvItems.kept_items opts) as [|kv items] eqn:Ek; [reflexivity|].
  rewrite <- Ek in *.
  set (render := fun kv : string * string => fst kv +:+ "=" +:+ snd kv).
  assert (Hcomma : Forall (fun p => KwargsCsv.contains "," p = false) (map render (KwargsCsvItems.kept_items opts))).
  { clear -Hclean. induction Hclean as [|[k v] l (Hk & _ & Hv) _ IH]; [constructor|].
    simpl. constructor; [|exact IH]. cbn [fst snd] in *.
    apply plain_spec in Hk as (_ & _ & Hk). apply plain_spec in Hv as (_ & _ & Hv).
    unfold render. cbn [fst snd]. rewrite !contains_append, Hk, Hv. reflexivity. }
  assert (Hne : map render (KwargsCsvItems.kept_items opts) <> []) by (rewrite Ek; discriminate).
  assert (Hcsv : String.eqb (KwargsCsv.join "," (map render (KwargsCsvItems.kept_items opts))) "" = false).
  { rewrite Ek. apply String.eqb_neq. intros Hj.
    rewrite Ek in Hclean. inversion Hclean as [|? ? (Hk & _) _]; subst.
    apply plain_spec in Hk as (_ & Hk & _). destruct kv as [k v]. cbn [fst snd] in *.
    cbn [map] in Hj. unfold render at 1 in Hj. cbn [fst snd] in Hj.
    destruct (map render items); cbn [KwargsCsv.join] in Hj.
    - apply append_eq_nil in Hj as [-> _]. congruence.
    - rewrite append_assoc in Hj. apply append_eq_nil in Hj as [-> _]. congruence. }
  rewrite Hcsv. rewrite (split_join "," _ Hne Hcomma).
  unfold render. rewrite (parse_fold_items _ _ Hclean).
  apply fold_insert_list_to_map, Hnd'.
Qed.

Lemma X12_kv_csv_round_trip_witness :
  KwargsCsv._parse_kwargs
    (KwargsCsv._kv_csv
       [("path", Py.PStr "lfa.txt"); ("label", Py.PNone); ("mode", Py.PStr "random");
        ("root", Py.PStr "  "); ("seed", Py.PInt 7)])
  = list_to_map [("path", "lfa.txt"); ("mode", "random"); ("seed", "7")].
Proof.
  assert (Hnd : NoDup (map fst
                  [("path", Py.PStr "lfa.txt"); ("label", Py.PNone);
                   ("mode", Py.PStr "random"); ("root", Py.PStr "  ");
                   ("seed", Py.PInt 7)])).
  { apply (bool_decide_unpack _). vm_compute. exact I. }
  assert (Hall : Forall (fun kv => KwargsCsvItems.kept (snd kv) = true ->
                    KwargsCsvItems.plain (fst kv) = true /\
                    KwargsCsv.contains "=" (fst kv) = false /\
                    KwargsCsvItems.plain (Py.str (snd kv)) = true)
                  [("path", Py.PStr "lfa.txt"); ("label", Py.PNone);
                   ("mode", Py.PStr "random"); ("root", Py.PStr "  ");
                   ("seed", Py.PInt 7)]).
  { repeat (apply List.Forall_cons;
              [intros Hk; vm_compute in Hk |- *; try discriminate Hk;
               repeat split; reflexivity |]).
    apply List.Forall_nil. }
  exact (X12_kv_csv_round_trip _ Hnd Hall).
Defined.

(** ** The uniform scheduler under any clock, flags and writes *)

Section SchedulerTraceFacts.
Import AreaBase TimeBase Uniform UniformTrace.
Context {T : Type} `{Arith T} {A : Type} `{AreaProfile A}.
Variable e : env T.
Variable cfg : config (T:=T).

Local Open Scope sched_scope.

Lemma acts_app (tr1 tr2 : list (event T)) : acts (tr1 ++ tr2) = acts tr1 ++ acts tr2.
Proof. apply List.filter_app. Qed.

Lemma still_ret {X} (x : X) : still (ret (S:=state T A) x).
Proof. intros s. split; [reflexivity | exact I]. Qed.

Lemma still_bind {X Y} (m : M (state T A) X) (k : X -> M (state T A) Y) :
  still m -> (forall x, still (k x)) -> still (bind m k).
Proof.
  intros Hm Hk s. unfold bind. destruct (Hm s) as [Hc Hr].
  destruct (m s) as [x s' | s' | s']; simpl in *.
  - destruct (Hk x s') as [Hc' Hr']. split; [now rewrite Hc' | exact Hr'].
  - contradiction.
  - split; [exact Hc | exact I].
Qed.

Lemma still_when (b : bool) (m : M (state T A) unit) : still m -> still (when b m).
Proof. intros Hm. destruct b; [exact Hm | apply still_ret]. Qed.

Lemma still_emit (ev : event T) : is_idle ev = true -> still (emit (A:=A) ev).
Proof.
  intros Hi s. split; [| exact I]. unfold core. simpl. rewrite acts_app. simpl.
  rewrite Hi. simpl. now rewrite app_nil_r.
Qed.

Lemma still_now : still (_now (A:=A) e).
Proof. intros s. split; [reflexivity | exact I]. Qed.

Lemma still_stop : still (stop_is_set (A:=A) e).
Proof. intros s. split; [reflexivity | exact I]. Qed.

Lemma still_pause : still (pause_is_set (A:=A) e).
Proof. intros s. split; [reflexivity | exact I]. Qed.

Lemma still_sleep (d : T) : still (sleep (A:=A) d).
Proof. now apply still_emit. Qed.

Lemma still_log_info (msg : string) : still (log_info (T:=T) (A:=A) msg).
Proof. now apply still_emit. Qed.

Lemma still_no_fuel {X} : still (fun s : state T A => NoFuel (X:=X) s).
Proof. intros s. split; [reflexivity | exact I]. Qed.

Lemma still_spin (fuel : nat) (d : T) : still (spin (A:=A) e fuel d).
Proof.
  induction fuel as [|f IH]; simpl; [apply still_no_fuel |].
  apply still_bind; [apply still_now |].
  intros now. destruct (ltb now d); [exact IH | apply still_ret].
Qed.

Lemma still_sleep_until (fuel : nat) (d : T) : still (_sleep_until (A:=A) e fuel d).
Proof.
  induction fuel as [|f IH]; simpl; [apply still_no_fuel |].
  apply still_bind; [apply still_now |].
  intros now. destruct (leb _ _); [apply still_ret |].
  destruct (ltb _ _); [| apply still_spin].
  apply still_bind; [apply still_sleep | intros _; exact IH].
Qed.

Lemma still_pause_wait (fuel : nat) : still (pause_wait (A:=A) e fuel).
Proof.
  induction fuel as [|f IH]; simpl; [apply still_no_fuel |].
  apply still_bind; [apply still_pause |].
  intros [|]; [| apply still_ret].
  apply still_bind; [apply still_stop |].
  intros [|]; [apply still_ret |].
  apply still_bind; [apply still_sleep | intros _; exact IH].
Qed.

Lemma still_first_shot_delay : still (_maybe_first_shot_delay (A:=A) cfg).
Proof.
  unfold _maybe_first_shot_delay.
  apply still_bind; [intros s; split; [reflexivity | exact I] |]. intros first.
  apply still_bind; [apply still_when, still_sleep |].
  intros _ s. split; [reflexivity | exact I].
Qed.

Lemma still_duration_elapsed (t0 : T) : still (duration_elapsed (A:=A) e cfg t0).
Proof.
  unfold duration_elapsed. destruct (duration_s cfg); [| apply still_ret].
  apply still_bind; [apply still_now | intros now; apply still_ret].
Qed.

Lemma first_shot_delay_done (s : state T A) :
  exists s', _maybe_first_shot_delay cfg s = Done tt s'.
Proof.
  unfold _maybe_first_shot_delay, bind, get_first_shot, when, sleep, emit,
    set_first_shot, ret.
  destruct (_first_shot s && _); eexists; reflexivity.
Qed.

Lemma duration_elapsed_done (t0 : T) (s : state T A) :
  exists b s', duration_elapsed e cfg t0 s = Done b s'
               /\ (b = true -> duration_s cfg <> None).
Proof.
  unfold duration_elapsed. destruct (duration_s cfg) as [dur|].
  - unfold bind, _now, ret. eexists _, _. split; [reflexivity | discriminate].
  - exists false, s. split; [reflexivity | discriminate].
Qed.

(** The write, as [shoot] makes it. *)
Lemma shoot_acts t0 k addr (s : state T A) :
  if tx_ok e (tick s)
  then exists d s', shoot e cfg t0 k addr s = Done d s'
       /\ area s' = area s /\ finished_reason s' = finished_reason s
       /\ acts (trace s') = acts (trace s) ++ attempt cfg addr
            ++ Tx (inject_lfa_command addr)
            :: (if ack_gated cfg then [AckWait (ack_timeout_s cfg)] else [])
  else exists s', shoot e cfg t0 k addr s = Raised s'
       /\ area s' = area s /\ finished_reason s' = finished_reason s
       /\ acts (trace s') = acts (trace s) ++ attempt cfg addr.
Proof.
  unfold shoot, attempt, _inject, inject_lfa, when, bind, emit, _now, ret, bump. simpl.
  destruct (ack_gated cfg), (has_tx_echo cfg), (ltb (of_Q 0) (period cfg)); simpl.
  all: destruct (tx_ok e (tick s)) eqn:Htx; simpl.
  all: repeat eexists; simpl; rewrite ?acts_app; simpl; rewrite <- ?app_assoc; reflexivity.
Qed.

Lemma end_branch (reason : string) (s : state T A) :
  exists s',
    (set_finished_reason reason ;;; _log_profile_end reason ;;; ret Return) s
      = Done Return s'
    /\ area s' = area s /\ finished_reason s' = Some reason
    /\ acts (trace s') = acts (trace s).
Proof.
  unfold bind, set_finished_reason, _log_profile_end, log_info, emit, ret.
  eexists. split; [reflexivity |]. cbn [area finished_reason trace].
  rewrite acts_app. cbn [acts List.filter is_idle negb]. rewrite app_nil_r. auto.
Qed.

#[local] Arguments acts : simpl never.

Ltac step_still lem s1 Hq :=
  match goal with
  | |- context [bind ?m ?k ?s] =>
      destruct (lem s) as [Hq ?];
      unfold bind at 1;
      destruct (m s) as [? s1 | s1 | s1]; [| contradiction |];
      simpl final in Hq; unfold core in Hq; injection Hq as ? ? ?; cbn iota beta
  end.

Ltac settle :=
  simpl in *; repeat match goal with |- _ /\ _ => split end; try congruence.

Lemma body_acts fuel t0 k shots addr (s : state T A) :
  match body e cfg fuel t0 k shots addr s with
  | Done (Continue k' shots') s' =>
      area s' = area s /\ finished_reason s' = finished_reason s
      /\ k' = (k + 1)%Z /\ shots' = (shots + 1)%Z /\ max_reached cfg shots = false
      /\ exists d, acts (trace s') = acts (trace s) ++ shot cfg addr d
  | Done Break s' =>
      area s' = area s /\ finished_reason s' = finished_reason s
      /\ acts (trace s') = acts (trace s)
  | Done Return s' =>
      area s' = area s /\ acts (trace s') = acts (trace s)
      /\ ((finished_reason s' = Some "duration_elapsed" /\ duration_s cfg <> None)
          \/ (finished_reason s' = Some "max_reached" /\ max_reached cfg shots = true))
  | Raised s' =>
      area s' = area s /\ finished_reason s' = finished_reason s
      /\ max_reached cfg shots = false
      /\ acts (trace s') = acts (trace s) ++ attempt cfg addr
      /\ exists n, tx_ok e n = false
  | NoFuel s' =>
      area s' = area s /\ finished_reason s' = finished_reason s
      /\ (acts (trace s') = acts (trace s)
          \/ (max_reached cfg shots = false
              /\ exists d, acts (trace s') = acts (trace s) ++ shot cfg addr d))
  end.
Proof.
  unfold body. cbn [bind stop_is_set ret].
  destruct (stop_set e (tick s)); [settle |].
  step_still (still_pause_wait fuel) s1 Hq1.
  2:{ settle. left. congruence. }
  cbn [bind stop_is_set ret].
  destruct (stop_set e (tick s1)); [settle |].
  destruct (duration_elapsed_done t0 (bump s1)) as (b & s2 & Hd & Hb).
  destruct (still_duration_elapsed t0 (bump s1)) as [Hq2 _].
  unfold bind at 1. rewrite Hd in *. simpl final in Hq2. unfold core in Hq2.
  injection Hq2 as ? ? ?.
  destruct b.
  { destruct (end_branch "duration_elapsed" s2) as (s' & -> & ? & ? & ?).
    settle. left. split; [assumption | auto]. }
  destruct (max_reached cfg shots) eqn:Hmax.
  { destruct (end_branch "max_reached" s2) as (s' & -> & ? & ? & ?).
    settle. right. split; [assumption | reflexivity]. }
  destruct (first_shot_delay_done s2) as (s3 & Hd3).
  destruct (still_first_shot_delay s2) as [Hq3 _].
  unfold bind at 1. rewrite Hd3 in *. simpl final in Hq3. unfold core in Hq3.
  injection Hq3 as ? ? ?.
  pose proof (shoot_acts t0 k addr s3) as Hshoot.
  unfold bind at 1.
  destruct (tx_ok e (tick s3)) eqn:Htx.
  2:{ destruct Hshoot as (s4 & -> & Ha & Hf & Hg). settle.
      eauto. }
  destruct Hshoot as (d & s4 & -> & Ha & Hf & Hg).
  unfold shot.
  destruct (ltb (of_Q 0) (period cfg)) eqn:Hp; cbn [when].
  2:{ cbn [bind ret]. settle. exists d. rewrite Hg, app_nil_r. congruence. }
  unfold bind at 1. unfold bind at 1. cbn [emit].
  match goal with
  | |- context [_sleep_until e fuel d ?s5] =>
      destruct (still_sleep_until fuel d s5) as [Hq5 Hr5];
      destruct (_sleep_until e fuel d s5) as [u5 s6 | s6 | s6]; [| contradiction |];
      simpl final in Hq5; unfold core in Hq5; injection Hq5 as Hq5a Hq5b Hq5c;
      cbn [area finished_reason trace] in Hq5a, Hq5b, Hq5c;
      rewrite acts_app in Hq5c
  end.
  - cbn [bind ret]. settle. exists d. rewrite Hq5c, Hg.
    change (acts [Deadline d]) with [Deadline d].
    replace (acts (trace s3)) with (acts (trace s)) by congruence.
    rewrite <- !app_assoc. reflexivity.
  - settle. right. split; [reflexivity |]. exists d. rewrite Hq5c, Hg.
    change (acts [Deadline d]) with [Deadline d].
    replace (acts (trace s3)) with (acts (trace s)) by congruence.
    rewrite <- !app_assoc. reflexivity.
Qed.


Lemma gives_snoc (l : list string) : forall (a a1 a' : A) (x : string),
  gives a l a1 -> gen_next a1 = Some (x, a') -> gives a (l ++ [x]) a'.
Proof.
  induction l as [|y l IH]; intros a a1 a' x Hg Hn; simpl in *.
  - subst a1. eauto.
  - destruct Hg as (a2 & Ha & Hg). exists a2. split; [exact Ha |]. eapply IH; eauto.
Qed.

(** What a run of the loop leaves: whole turns for the addresses [l],
    then nothing or the attempt whose write failed. *)
Lemma loop_acts (t0 : T) (fuel : nat) : forall k count (s : state T A) r,
  loop e cfg fuel t0 k count s = r ->
  exists l ds tail,
    length ds = length l
    /\ acts (trace (final r)) = acts (trace s) ++ shots cfg l ds ++ tail
    /\ (forall m, max_shots cfg = Some m -> l <> [] ->
          (count + Z.of_nat (length l) <= m)%Z)
    /\ ((tail = []
         /\ (gives (area s) l (area (final r))
             \/ exists x, gives (area s) (l ++ [x]) (area (final r)))
         /\ match r with Raised _ => False | _ => True end)
        \/ (exists x s', tail = attempt cfg x
              /\ gives (area s) (l ++ [x]) (area s')
              /\ r = Raised s'
              /\ exists n, tx_ok e n = false))
    /\ (finished_reason (final r) = finished_reason s
        \/ (finished_reason (final r) = Some "duration_elapsed"
            /\ duration_s cfg <> None)
        \/ (finished_reason (final r) = Some "max_reached"
            /\ max_reached cfg (count + Z.of_nat (length l)) = true)).
Proof.
  induction fuel as [|f IH]; intros k count s r Hr.
  - subst r. exists [], [], []. cbn [loop final shots length]. rewrite !app_nil_r.
    split; [reflexivity |]. split; [reflexivity |]. split; [congruence |].
    split; [| now left]. left. split; [reflexivity |]. split; [now left | exact I].
  - cbn [loop] in Hr. unfold bind at 1 in Hr. unfold next_addr in Hr.
    destruct (gen_next (area s)) as [[addr a']|] eqn:Hn.
    2:{ subst r. exists [], [], []. cbn [ret final shots length]. rewrite !app_nil_r.
        split; [reflexivity |]. split; [reflexivity |]. split; [congruence |].
        split; [| now left]. left. split; [reflexivity |]. split; [now left | exact I]. }
    set (s1 := mk_state (tick s) a' (_first_shot s) (finished_reason s) (trace s)) in Hr.
    pose proof (body_acts f t0 k count addr s1) as Hb.
    unfold bind at 1 in Hr.
    destruct (body e cfg f t0 k count addr s1) as [[k' c' | |] s2 | s2 | s2].
    + destruct Hb as (Ha & Hf & -> & -> & Hmax & d & Hacts).
      destruct (IH _ _ _ _ Hr) as (l & ds & tail & Hlen & Htr & Hbound & Hshape & Hreason).
      exists (addr :: l), (d :: ds), tail.
      split; [simpl; congruence |].
      split.
      { rewrite Htr, Hacts. cbn [shots]. rewrite <- !app_assoc. reflexivity. }
      split.
      { intros m Hm _. destruct l as [|y l'].
        - unfold max_reached in Hmax. rewrite Hm in Hmax.
          apply Z.leb_gt in Hmax. simpl. lia.
        - specialize (Hbound m Hm ltac:(discriminate)).
          cbn [length] in *. lia. }
      split.
      { destruct Hshape as [(-> & Hg & Hnr) | (x & s' & -> & Hg & -> & Htx)].
        - left. split; [reflexivity |]. split; [| exact Hnr].
          destruct Hg as [Hg | (x & Hg)].
          + left. simpl. exists a'. split; [exact Hn |]. rewrite Ha in Hg. exact Hg.
          + right. exists x. simpl. exists a'. split; [exact Hn |].
            rewrite Ha in Hg. exact Hg.
        - right. exists x, s'. split; [reflexivity |]. split; [| split; [reflexivity | exact Htx]].
          simpl. exists a'. split; [exact Hn |]. rewrite Ha in Hg. exact Hg. }
      { replace (count + Z.of_nat (length (addr :: l)))%Z
          with (count + 1 + Z.of_nat (length l))%Z by (cbn [length]; lia).
        rewrite Hf in Hreason. exact Hreason. }
    + destruct Hb as (Ha & Hf & Hacts). subst r.
      exists [], [], []. cbn [ret final shots length]. rewrite !app_nil_r.
      split; [reflexivity |]. split; [exact Hacts |]. split; [congruence |].
      split; [| left; exact Hf]. left. split; [reflexivity |]. split; [| exact I].
      right. exists addr. simpl. exists a'. split; [exact Hn | exact Ha].
    + destruct Hb as (Ha & Hacts & Hreason). subst r.
      exists [], [], []. cbn [ret final shots length]. rewrite !app_nil_r.
      split; [reflexivity |]. split; [exact Hacts |]. split; [congruence |].
      split.
      { left. split; [reflexivity |]. split; [| exact I].
        right. exists addr. simpl. exists a'. split; [exact Hn | exact Ha]. }
      right. rewrite Z.add_0_r. exact Hreason.
    + destruct Hb as (Ha & Hf & Hmax & Hacts & Htx). subst r.
      exists [], [], (attempt cfg addr). cbn [final shots length].
      split; [reflexivity |]. split; [exact Hacts |]. split; [congruence |].
      split; [| left; exact Hf]. right. exists addr, s2.
      split; [reflexivity |]. split; [| split; [reflexivity | exact Htx]].
      simpl. exists a'. split; [exact Hn | exact Ha].
    + destruct Hb as (Ha & Hf & [Hacts | (Hmax & d & Hacts)]); subst r.
      * exists [], [], []. cbn [final shots length]. rewrite !app_nil_r.
        split; [reflexivity |]. split; [exact Hacts |]. split; [congruence |].
        split; [| left; exact Hf]. left. split; [reflexivity |]. split; [| exact I].
        right. exists addr. simpl. exists a'. split; [exact Hn | exact Ha].
      * exists [addr], [d], []. cbn [final shots length]. rewrite !app_nil_r.
        split; [reflexivity |]. split; [exact Hacts |].
        split.
        { intros m Hm _. unfold max_reached in Hmax. rewrite Hm in Hmax.
          apply Z.leb_gt in Hmax. lia. }
        split; [| left; exact Hf]. left. split; [reflexivity |]. split; [| exact I].
        left. simpl. exists a'. split; [exact Hn | exact Ha].
Qed.


Lemma run_acts (fuel : nat) (a : A) : forall r,
  run e cfg fuel (initial a) = r ->
  exists l ds tail,
    length ds = length l
    /\ acts (trace (final r)) = shots cfg l ds ++ tail
    /\ (forall m, max_shots cfg = Some m -> l <> [] -> (Z.of_nat (length l) <= m)%Z)
    /\ ((tail = []
         /\ (gives a l (area (final r))
             \/ exists x, gives a (l ++ [x]) (area (final r))))
        \/ (exists x, tail = attempt cfg x
              /\ gives a (l ++ [x]) (area (final r))
              /\ (exists n, tx_ok e n = false)
              /\ exists s1 tr, r = Done tt s1
                   /\ trace s1 = tr ++ [LogInfo "Exiting. Creating log file."]))
    /\ (finished_reason (final r) = None
        \/ (finished_reason (final r) = Some "duration_elapsed"
            /\ duration_s cfg <> None)
        \/ (finished_reason (final r) = Some "max_reached"
            /\ max_reached cfg (Z.of_nat (length l)) = true))
    /\ match r with Raised _ => False | _ => True end.
Proof.
  intros r Hr. unfold run, try_except in Hr. unfold bind at 1 in Hr.
  cbn [_now initial tick] in Hr.
  destruct (loop_acts (clock e 0) fuel 0 0 (bump (initial a)) _ eq_refl)
    as (l & ds & tail & Hlen & Htr & Hbound & Hshape & Hreason).
  exists l, ds, tail. unfold bind at 1 in Hr.
  destruct (loop e cfg fuel (clock e 0) 0 0 (bump (initial a))) as [fell s1 | s1 | s1];
    cbn [final bump initial trace area finished_reason] in *.
  - assert (Hfin : area (final r) = area s1
                   /\ finished_reason (final r) = finished_reason s1
                   /\ acts (trace (final r)) = acts (trace s1)
                   /\ match r with Raised _ => False | _ => True end).
    { subst r. destruct fell; cbn [when exit_note log_info emit ret final area
        finished_reason trace].
      - rewrite acts_app. cbn [acts List.filter is_idle negb]. rewrite app_nil_r. auto.
      - auto. }
    destruct Hfin as (Ha & Hf & Hac & Hnr). rewrite Ha, Hf, Hac.
    split; [exact Hlen |]. split; [exact Htr |]. split; [exact Hbound |].
    split; [| split; [exact Hreason | exact Hnr]].
    destruct Hshape as [(Ht & Hg & _) | (x & s' & _ & _ & Hcontra & _)];
      [| discriminate].
    left. split; [exact Ht | exact Hg].
  - subst r. cbn [exit_note log_info emit final area finished_reason trace].
    rewrite acts_app. cbn [acts List.filter is_idle negb]. rewrite app_nil_r.
    split; [exact Hlen |]. split; [exact Htr |]. split; [exact Hbound |].
    split; [| split; [exact Hreason | exact I]].
    destruct Hshape as [(_ & _ & []) | (x & s' & Ht & Hg & [= <-] & Htx)].
    right. exists x. split; [exact Ht |]. split; [exact Hg |]. split; [exact Htx |].
    eexists _, _. split; reflexivity.
  - subst r. cbn [final].
    split; [exact Hlen |]. split; [exact Htr |]. split; [exact Hbound |].
    split; [| split; [exact Hreason | exact I]].
    destruct Hshape as [(Ht & Hg & _) | (x & s' & _ & _ & Hcontra & _)];
      [| discriminate].
    left. split; [exact Ht | exact Hg].
Qed.

End SchedulerTraceFacts.

Section TraceProjections.
Import AreaBase TimeBase Uniform UniformTrace.
Context {T : Type} `{Arith T}.
Variable cfg : config (T:=T).

Lemma omap_acts {X} (f : event T -> option X) (tr : list (event T)) :
  (forall ev, is_idle ev = true -> f ev = None) ->
  omap f (acts tr) = omap f tr.
Proof.
  intros Hf. unfold acts. induction tr as [|ev tr IH]; [reflexivity |].
  cbn [List.filter]. destruct (is_idle ev) eqn:Hi; cbn [negb omap list_omap].
  - rewrite (Hf ev Hi). exact IH.
  - now rewrite IH.
Qed.

Lemma sent_acts (tr : list (event T)) : sent (acts tr) = sent tr.
Proof. apply omap_acts. intros [] Hi; try discriminate; reflexivity. Qed.

Lemma ack_and_tx_acts (tr : list (event T)) : ack_and_tx (acts tr) = ack_and_tx tr.
Proof.
  unfold ack_and_tx, acts. induction tr as [|ev tr IH]; [reflexivity |].
  cbn [List.filter]. destruct ev; cbn [is_idle negb is_ack_or_tx List.filter];
    now rewrite ?IH.
Qed.

Lemma tx_steps_acts (tr : list (event T)) : tx_steps (acts tr) = tx_steps tr.
Proof.
  unfold tx_steps, acts. induction tr as [|ev tr IH]; [reflexivity |].
  cbn [List.filter]. destruct ev; cbn [is_idle negb is_tx_step List.filter];
    now rewrite ?IH.
Qed.

(** The log entry and the echo of a command. *)
Lemma tx_steps_attempt (x : string) :
  tx_steps (attempt cfg x) =
    LogTx (inject_lfa_command x)
    :: (if has_tx_echo cfg then [TxEcho (inject_lfa_command x)] else []).
Proof. unfold attempt. destruct (ack_gated cfg), (has_tx_echo cfg); reflexivity. Qed.

Lemma tx_steps_turns (l : list string) : forall ds,
  length ds = length l ->
  tx_steps (shots cfg l ds) =
    concat (map (fun x =>
                   LogTx (inject_lfa_command x)
                   :: (if has_tx_echo cfg then [TxEcho (inject_lfa_command x)] else [])
                   ++ [Tx (inject_lfa_command x)]) l).
Proof.
  induction l as [|x l IH]; intros [|d ds] Hlen; try discriminate; [reflexivity |].
  cbn [shots map concat]. unfold tx_steps in *.
  rewrite List.filter_app, IH by (simpl in Hlen; lia).
  unfold shot, attempt.
  destruct (ack_gated cfg), (has_tx_echo cfg), (ltb (of_Q 0) (period cfg)); reflexivity.
Qed.

Lemma sent_attempt (x : string) : sent (attempt cfg x) = [].
Proof. unfold attempt. destruct (ack_gated cfg), (has_tx_echo cfg); reflexivity. Qed.

Lemma ack_and_tx_attempt (x : string) :
  ack_and_tx (attempt cfg x) = if ack_gated cfg then [AckStart] else [].
Proof. unfold attempt. destruct (ack_gated cfg), (has_tx_echo cfg); reflexivity. Qed.

Lemma sent_turns (l : list string) : forall ds,
  length ds = length l -> sent (shots cfg l ds) = map inject_lfa_command l.
Proof.
  induction l as [|x l IH]; intros [|d ds] Hlen; try discriminate; [reflexivity |].
  cbn [shots map]. unfold sent in *. rewrite omap_app, IH by (simpl in Hlen; lia).
  unfold shot, attempt.
  destruct (ack_gated cfg), (has_tx_echo cfg), (ltb (of_Q 0) (period cfg)); reflexivity.
Qed.

Lemma ack_and_tx_turns (l : list string) : forall ds,
  length ds = length l ->
  ack_and_tx (shots cfg l ds) =
    concat (map (fun x =>
                   if ack_gated cfg
                   then [AckStart; Tx (inject_lfa_command x); AckWait (ack_timeout_s cfg)]
                   else [Tx (inject_lfa_command x)]) l).
Proof.
  induction l as [|x l IH]; intros [|d ds] Hlen; try discriminate; [reflexivity |].
  cbn [shots map concat]. unfold ack_and_tx in *.
  rewrite List.filter_app, IH by (simpl in Hlen; lia).
  unfold shot, attempt.
  destruct (ack_gated cfg), (has_tx_echo cfg), (ltb (of_Q 0) (period cfg)); reflexivity.
Qed.

End TraceProjections.

(** X13: in every run of the uniform scheduler, whatever the clock, the
    flags and the writes do and wherever the run stops, the commands
    written are [N <addr>] for the addresses drawn from the area profile,
    in the order drawn and each once; at most the last address drawn is
    not written.  With [max_shots] set no more commands than that are
    written.  The finished reason is unset, [duration_elapsed] (only with
    a duration configured) or [max_reached] (only once as many commands as
    [max_shots] have been written). *)
Theorem X13_run_writes_the_addresses_drawn
    {T : Type} `{TimeBase.Arith T} {A : Type} `{AreaBase.AreaProfile A}
    (e : TimeBase.env T) (cfg : Uniform.config (T:=T)) (fuel : nat) (a : A) :
  let s' := TimeBase.final (Uniform.run e cfg fuel (Uniform.initial a)) in
  exists l,
    Uniform.sent (TimeBase.trace s') = map TimeBase.inject_lfa_command l
    /\ (UniformTrace.gives a l (TimeBase.area s')
        \/ exists x, UniformTrace.gives a (l ++ [x]) (TimeBase.area s'))
    /\ (forall m, Uniform.max_shots cfg = Some m -> l <> [] ->
          (Z.of_nat (length l) <= m)%Z)
    /\ (TimeBase.finished_reason s' = None
        \/ (TimeBase.finished_reason s' = Some "duration_elapsed"
            /\ Uniform.duration_s cfg <> None)
        \/ (TimeBase.finished_reason s' = Some "max_reached"
            /\ exists m, Uniform.max_shots cfg = Some m
                         /\ (m <= Z.of_nat (length l))%Z)).
Proof.
  intros s'. subst s'.
  destruct (run_acts e cfg fuel a _ eq_refl)
    as (l & ds & tail & Hlen & Htr & Hbound & Hshape & Hreason & _).
  exists l. split.
  { rewrite <- sent_acts, Htr. unfold Uniform.sent. rewrite omap_app.
    fold (Uniform.sent (UniformTrace.shots cfg l ds)).
    rewrite (sent_turns cfg l ds Hlen).
    destruct Hshape as [(-> & _) | (x & -> & _)].
    - apply app_nil_r.
    - fold (Uniform.sent (UniformTrace.attempt cfg x)).
      rewrite sent_attempt. apply app_nil_r. }
  split.
  { destruct Hshape as [(_ & Hg) | (x & _ & Hg & _)]; [exact Hg | right; eauto]. }
  split; [exact Hbound |].
  destruct Hreason as [Hr | [Hr | (Hr & Hmax)]]; [now left | now (right; left) |].
  right. right. split; [exact Hr |].
  unfold Uniform.max_reached in Hmax.
  destruct (Uniform.max_shots cfg) as [m|]; [| discriminate].
  exists m. split; [reflexivity |]. apply Z.leb_le. exact Hmax.
Qed.

(** X14: in every run each command is entered in the log, then echoed
    on the console when an echo is wired, then written, always with the
    same text.  A log entry (and echo) is left without its write only when
    that write failed, and then only for the last command; the failure is
    not raised further: the run ends normally with the exit note as its
    last action. *)
Theorem X14_run_logs_each_command_before_writing_it
    {T : Type} `{TimeBase.Arith T} {A : Type} `{AreaBase.AreaProfile A}
    (e : TimeBase.env T) (cfg : Uniform.config (T:=T)) (fuel : nat) (a : A) :
  let r := Uniform.run e cfg fuel (Uniform.initial a) in
  let tr := TimeBase.trace (TimeBase.final r) in
  let announce := fun x =>
    TimeBase.LogTx (TimeBase.inject_lfa_command x)
    :: (if Uniform.has_tx_echo cfg
        then [TimeBase.TxEcho (TimeBase.inject_lfa_command x)] else []) in
  (exists l unwritten,
     UniformTrace.tx_steps tr =
       concat (map (fun x => announce x ++ [TimeBase.Tx (TimeBase.inject_lfa_command x)]) l)
       ++ unwritten
     /\ Uniform.sent tr = map TimeBase.inject_lfa_command l
     /\ (unwritten = []
         \/ exists x, unwritten = announce x
              /\ (exists n, TimeBase.tx_ok e n = false)
              /\ exists s1 tr1, r = TimeBase.Done tt s1
                   /\ TimeBase.trace s1
                      = tr1 ++ [TimeBase.LogInfo "Exiting. Creating log file."]))
  /\ match r with TimeBase.Raised _ => False | _ => True end.
Proof.
  intros r tr announce. subst r tr announce.
  destruct (run_acts e cfg fuel a _ eq_refl)
    as (l & ds & tail & Hlen & Htr & _ & Hshape & _ & Hnr).
  split; [| exact Hnr].
  rewrite <- sent_acts, <- tx_steps_acts, Htr.
  unfold Uniform.sent, UniformTrace.tx_steps. rewrite List.filter_app, omap_app.
  fold (Uniform.sent (UniformTrace.shots cfg l ds)). fold (Uniform.sent tail).
  fold (UniformTrace.tx_steps (UniformTrace.shots cfg l ds)).
  fold (UniformTrace.tx_steps tail).
  rewrite (sent_turns cfg l ds Hlen), (tx_steps_turns cfg l ds Hlen).
  exists l, (UniformTrace.tx_steps tail). split; [reflexivity |].
  destruct Hshape as [(-> & _) | (x & -> & _ & Htx & Hdone)].
  - split; [apply app_nil_r | now left].
  - rewrite sent_attempt, tx_steps_attempt. split; [apply app_nil_r |].
    right. exists x. split; [reflexivity |]. split; [exact Htx | exact Hdone].
Qed.

(** X15: in every run the calls on the acknowledgement tracker enclose
    the writes.  When gating is in force (acknowledgement asked for, a
    positive timeout and a tracker wired) each write stands between a
    [start] and a [wait] with the configured timeout, and a [start] is left
    without its write and [wait] only when that write failed; when gating
    is not in force the tracker is never called. *)
Theorem X15_tracker_calls_enclose_each_write
    {T : Type} `{TimeBase.Arith T} {A : Type} `{AreaBase.AreaProfile A}
    (e : TimeBase.env T) (cfg : Uniform.config (T:=T)) (fuel : nat) (a : A) :
  let tr := TimeBase.trace (TimeBase.final (Uniform.run e cfg fuel (Uniform.initial a))) in
  exists l dangling,
    UniformTrace.ack_and_tx tr =
      concat (map (fun x =>
                     if Uniform.ack_gated cfg
                     then [TimeBase.AckStart;
                           TimeBase.Tx (TimeBase.inject_lfa_command x);
                           TimeBase.AckWait (Uniform.ack_timeout_s cfg)]
                     else [TimeBase.Tx (TimeBase.inject_lfa_command x)]) l)
      ++ dangling
    /\ Uniform.sent tr = map TimeBase.inject_lfa_command l
    /\ (dangling = []
        \/ (dangling = [TimeBase.AckStart] /\ Uniform.ack_gated cfg = true
            /\ exists n, TimeBase.tx_ok e n = false)).
Proof.
  intros tr. subst tr.
  destruct (run_acts e cfg fuel a _ eq_refl)
    as (l & ds & tail & Hlen & Htr & _ & Hshape & _ & _).
  rewrite <- ack_and_tx_acts, <- sent_acts, Htr.
  unfold UniformTrace.ack_and_tx, Uniform.sent. rewrite List.filter_app, omap_app.
  fold (UniformTrace.ack_and_tx (UniformTrace.shots cfg l ds)).
  fold (UniformTrace.ack_and_tx tail).
  fold (Uniform.sent (UniformTrace.shots cfg l ds)). fold (Uniform.sent tail).
  rewrite (ack_and_tx_turns cfg l ds Hlen), (sent_turns cfg l ds Hlen).
  exists l, (UniformTrace.ack_and_tx tail). split; [reflexivity |].
  destruct Hshape as [(-> & _) | (x & -> & _ & Htx & _)].
  - split; [apply app_nil_r | now left].
  - rewrite sent_attempt, ack_and_tx_attempt. split; [apply app_nil_r |].
    destruct (Uniform.ack_gated cfg); [right; auto | now left].
Qed.

Section SchedulerWaitFacts.
Import AreaBase TimeBase Uniform UniformTrace.
Context {T : Type} `{Arith T} {A : Type} `{AreaProfile A}.
Variable e : env T.
Variable cfg : config (T:=T).

Local Open Scope sched_scope.

Lemma spin_post (d : T) (fuel : nat) : forall (s s' : state T A),
  spin e fuel d s = Done tt s' ->
  tick s < tick s' /\ ltb (clock e (tick s' - 1)) d = false
  /\ trace s' = trace s /\ area s' = area s
  /\ finished_reason s' = finished_reason s /\ _first_shot s' = _first_shot s.
Proof.
  induction fuel as [|f IH]; intros s s' Hs; [discriminate |].
  cbn [spin] in Hs. unfold bind, _now in Hs.
  destruct (ltb (clock e (tick s)) d) eqn:Hl.
  - destruct (IH _ _ Hs) as (Ht & Hc & Htr & Ha & Hf & Hfs). simpl in *.
    repeat split; try assumption. lia.
  - injection Hs as <-. simpl. rewrite Nat.sub_0_r. repeat split; auto.
Qed.

Lemma sleep_until_post (d : T) (fuel : nat) : forall (s s' : state T A),
  _sleep_until e fuel d s = Done tt s' ->
  tick s < tick s'
  /\ (leb (sub d (clock e (tick s' - 1))) (of_Q 0) = true
      \/ ltb (clock e (tick s' - 1)) d = false)
  /\ (exists naps, trace s' = trace s ++ map Sleep naps
        /\ Forall (fun nap => exists j, tick s <= j < tick s'
                     /\ nap = sub (sub d (clock e j)) _spin_threshold_s
                     /\ leb (sub d (clock e j)) (of_Q 0) = false
                     /\ ltb _spin_threshold_s (sub d (clock e j)) = true) naps)
  /\ area s' = area s /\ finished_reason s' = finished_reason s
  /\ _first_shot s' = _first_shot s.
Proof.
  induction fuel as [|f IH]; intros s s' Hs; [discriminate |].
  cbn [_sleep_until] in Hs. unfold bind at 1 in Hs. unfold _now in Hs.
  destruct (leb (sub d (clock e (tick s))) (of_Q 0)) eqn:Hr.
  - injection Hs as <-. simpl. rewrite Nat.sub_0_r.
    split; [lia |]. split; [now left |]. split; [| auto].
    exists []. simpl. rewrite app_nil_r. split; [reflexivity | constructor].
  - destruct (ltb _spin_threshold_s (sub d (clock e (tick s)))) eqn:Hth.
    + unfold bind, sleep, emit in Hs. cbn [bump tick area _first_shot finished_reason trace] in Hs.
      destruct (IH _ _ Hs) as (Ht & Hc & (naps & Htr & Hall) & Ha & Hf & Hfs).
      cbn [tick area _first_shot finished_reason trace] in *.
      split; [lia |]. split; [exact Hc |]. split; [| auto].
      exists (sub (sub d (clock e (tick s))) _spin_threshold_s :: naps). split.
      * rewrite Htr, <- app_assoc. reflexivity.
      * constructor.
        -- exists (tick s). split; [lia |]. auto.
        -- eapply Forall_impl; [exact Hall |].
           intros nap (j & Hj & Hn). exists j. split; [lia | exact Hn].
    + destruct (spin_post d f _ _ Hs) as (Ht & Hc & Htr & Ha & Hf & Hfs).
      cbn [bump tick area _first_shot finished_reason trace] in *.
      split; [lia |]. split; [now right |]. split; [| auto].
      exists []. simpl. rewrite app_nil_r. split; [exact Htr | constructor].
Qed.

Lemma pause_wait_held (fuel : nat) : forall (s : state T A),
  (forall n, pause_set e n = true /\ stop_set e n = false) ->
  exists s', pause_wait e fuel s = NoFuel s'
             /\ trace s' = trace s ++ repeat (Sleep (of_Q (5 # 100))) fuel
             /\ area s' = area s /\ finished_reason s' = finished_reason s.
Proof.
  induction fuel as [|f IH]; intros s Hheld.
  - exists s. simpl. rewrite app_nil_r. auto.
  - cbn [pause_wait]. unfold bind at 1. unfold pause_is_set.
    rewrite (proj1 (Hheld _)). unfold bind at 1. unfold stop_is_set.
    cbn [bump tick]. rewrite (proj2 (Hheld _)).
    unfold bind at 1. unfold sleep, emit.
    cbn [bump tick area _first_shot finished_reason trace].
    destruct (IH (mk_state (S (S (tick s))) (area s) (_first_shot s) (finished_reason s)
                    (trace s ++ [Sleep (of_Q (5 # 100))])) Hheld)
      as (s' & -> & Htr & Ha & Hf).
    exists s'. split; [reflexivity |]. cbn [trace area finished_reason] in *.
    split; [| auto]. rewrite Htr, <- app_assoc. reflexivity.
Qed.

Lemma loop_stopped (f : nat) (t0 : T) (k count : Z) (s : state T A) :
  (forall n, stop_set e n = true) ->
  loop e cfg (S f) t0 k count s =
    Done true
      match gen_next (area s) with
      | Some (_, a') =>
          mk_state (S (tick s)) a' (_first_shot s) (finished_reason s) (trace s)
      | None => s
      end.
Proof.
  intros Hstop. cbn [loop]. unfold bind at 1. unfold next_addr.
  destruct (gen_next (area s)) as [[addr a']|]; [| reflexivity].
  unfold bind at 1. unfold body. unfold bind at 1. unfold stop_is_set at 1.
  cbn [tick]. rewrite Hstop. reflexivity.
Qed.

Lemma loop_paused (f : nat) (t0 : T) (k count : Z) (s : state T A) :
  (forall n, pause_set e n = true /\ stop_set e n = false) ->
  gen_next (area s) <> None ->
  exists s',
    loop e cfg (S f) t0 k count s = NoFuel s'
    /\ trace s' = trace s ++ repeat (Sleep (of_Q (5 # 100))) f
    /\ finished_reason s' = finished_reason s.
Proof.
  intros Hheld Hne. cbn [loop]. unfold bind at 1. unfold next_addr.
  destruct (gen_next (area s)) as [[addr a']|]; [| congruence].
  unfold bind at 1. unfold body. unfold bind at 1. unfold stop_is_set at 1.
  cbn [tick]. rewrite (proj2 (Hheld _)). unfold bind at 1.
  destruct (pause_wait_held f
              (bump (mk_state (tick s) a' (_first_shot s) (finished_reason s) (trace s)))
              Hheld) as (s' & -> & Htr & _ & Hf).
  exists s'. split; [reflexivity |]. cbn in Htr, Hf. auto.
Qed.

End SchedulerWaitFacts.

(** X16: when the stop flag is already set at the scheduler's first
    check, the run writes nothing and ends at once, the exit note being
    its only action and the finished reason staying unset; the address
    the loop had drawn for its first turn is used up all the same. *)
Theorem X16_stop_before_start_writes_nothing
    {T : Type} `{TimeBase.Arith T} {A : Type} `{AreaBase.AreaProfile A}
    (e : TimeBase.env T) (cfg : Uniform.config (T:=T)) (fuel : nat) (a : A) :
  (forall n, TimeBase.stop_set e n = true) ->
  0 < fuel ->
  exists s',
    Uniform.run e cfg fuel (Uniform.initial a) = TimeBase.Done tt s'
    /\ TimeBase.trace s' = [TimeBase.LogInfo "Exiting. Creating log file."]
    /\ TimeBase.finished_reason s' = None
    /\ TimeBase.area s' = match AreaBase.gen_next a with
                          | Some (_, a') => a'
                          | None => a
                          end.
Proof.
  intros Hstop Hfuel. destruct fuel as [|f]; [lia |].
  unfold Uniform.run, TimeBase.try_except. unfold TimeBase.bind at 1.
  cbn [Uniform._now Uniform.initial TimeBase.tick]. unfold TimeBase.bind at 1.
  rewrite (loop_stopped e cfg f _ _ _ _ Hstop).
  cbn [Uniform.bump Uniform.initial TimeBase.area TimeBase.tick TimeBase._first_shot
       TimeBase.finished_reason TimeBase.trace].
  destruct (AreaBase.gen_next a) as [[addr a']|];
    (eexists; split; [reflexivity |]; cbn; repeat split; reflexivity).
Qed.

Lemma X16_stop_before_start_writes_nothing_witness :
  exists s',
    Uniform.run
      (Samples.flagged true false)
      (Concrete.uniform_10hz None) 5 (Uniform.initial Concrete.three_lfa_area)
    = TimeBase.Done tt s'
    /\ TimeBase.trace s' = [TimeBase.LogInfo "Exiting. Creating log file."]
    /\ TimeBase.finished_reason s' = None
    /\ AddressList._idx (TimeBase.area s') = 1.
Proof.
  assert (Hstop : forall n : nat, TimeBase.stop_set
            (Samples.flagged true false) n = true) by reflexivity.
  assert (Hfuel : 0 < 5) by lia.
  destruct (X16_stop_before_start_writes_nothing _ (Concrete.uniform_10hz None) 5
              Concrete.three_lfa_area Hstop Hfuel) as (s' & Hr & Htr & Hf & Ha).
  exists s'. split; [exact Hr |]. split; [exact Htr |]. split; [exact Hf |].
  rewrite Ha. reflexivity.
Defined.

(** X17: while the pause flag stays set and the stop flag clear, a run over
    an area that has an address never ends: for every amount of fuel it is
    still waiting, it has written, logged and echoed nothing, and all it
    has done is sleep, 50 ms at a time. *)
Theorem X17_paused_run_only_sleeps
    {T : Type} `{TimeBase.Arith T} {A : Type} `{AreaBase.AreaProfile A}
    (e : TimeBase.env T) (cfg : Uniform.config (T:=T)) (fuel : nat) (a : A) :
  (forall n, TimeBase.pause_set e n = true /\ TimeBase.stop_set e n = false) ->
  AreaBase.gen_next a <> None ->
  exists s',
    Uniform.run e cfg fuel (Uniform.initial a) = TimeBase.NoFuel s'
    /\ TimeBase.trace s'
       = repeat (TimeBase.Sleep (TimeBase.of_Q (5 # 100))) (fuel - 1)
    /\ TimeBase.finished_reason s' = None.
Proof.
  intros Hheld Hne.
  unfold Uniform.run, TimeBase.try_except. unfold TimeBase.bind at 1.
  cbn [Uniform._now Uniform.initial TimeBase.tick].
  destruct fuel as [|f].
  - eexists. split; [reflexivity |]. cbn. auto.
  - unfold TimeBase.bind at 1.
    destruct (loop_paused e cfg f (TimeBase.clock e 0) 0 0
                (Uniform.bump (Uniform.initial a)) Hheld Hne)
      as (s' & -> & Htr & Hf).
    exists s'. split; [reflexivity |]. cbn in Htr, Hf.
    replace (S f - 1) with f by lia. auto.
Qed.

Lemma X17_paused_run_only_sleeps_witness :
  exists s',
    Uniform.run
      (Samples.flagged false true)
      (Concrete.uniform_10hz None) 4 (Uniform.initial Concrete.three_lfa_area)
    = TimeBase.NoFuel s'
    /\ TimeBase.trace s' = repeat (TimeBase.Sleep (5 # 100)%Q) 3.
Proof.
  assert (Hheld : forall n : nat,
            TimeBase.pause_set
              (Samples.flagged false true) n = true
            /\ TimeBase.stop_set
              (Samples.flagged false true) n = false)
    by (intros n; split; reflexivity).
  assert (Hne : AreaBase.gen_next Concrete.three_lfa_area <> None) by discriminate.
  destruct (X17_paused_run_only_sleeps _ (Concrete.uniform_10hz None) 4
              Concrete.three_lfa_area Hheld Hne) as (s' & Hr & Htr & _).
  exists s'. split; [exact Hr | exact Htr].
Defined.

(** X18: [_sleep_until] returns only after it has read the clock at least
    once and its last reading was at or past the deadline, by the test
    [remaining <= 0] or by the test of the spin loop; until then it has
    done nothing but sleep, each time for 2 ms less than the time that
    remained at a reading that left more than 2 ms. *)
Theorem X18_sleep_until_returns_past_the_deadline
    {T : Type} `{TimeBase.Arith T} {A : Type}
    (e : TimeBase.env T) (fuel : nat) (t_deadline : T) (s s' : TimeBase.state T A) :
  Uniform._sleep_until e fuel t_deadline s = TimeBase.Done tt s' ->
  TimeBase.tick s < TimeBase.tick s'
  /\ (TimeBase.leb
        (TimeBase.sub t_deadline (TimeBase.clock e (TimeBase.tick s' - 1)))
        (TimeBase.of_Q 0) = true
      \/ TimeBase.ltb (TimeBase.clock e (TimeBase.tick s' - 1)) t_deadline = false)
  /\ (exists naps,
        TimeBase.trace s' = TimeBase.trace s ++ map TimeBase.Sleep naps
        /\ Forall (fun nap => exists j,
                     TimeBase.tick s <= j < TimeBase.tick s'
                     /\ nap = TimeBase.sub
                                (TimeBase.sub t_deadline (TimeBase.clock e j))
                                Uniform._spin_threshold_s
                     /\ TimeBase.leb (TimeBase.sub t_deadline (TimeBase.clock e j))
                          (TimeBase.of_Q 0) = false
                     /\ TimeBase.ltb Uniform._spin_threshold_s
                          (TimeBase.sub t_deadline (TimeBase.clock e j)) = true) naps)
  /\ TimeBase.area s' = TimeBase.area s
  /\ TimeBase.finished_reason s' = TimeBase.finished_reason s.
Proof.
  intros Hs.
  destruct (sleep_until_post e t_deadline fuel s s' Hs) as (Ht & Hc & Hn & Ha & Hf & _).
  auto.
Qed.

Lemma X18_sleep_until_returns_past_the_deadline_witness :
  Uniform._sleep_until Concrete.steady 10 (45 # 1000)%Q
    (Uniform.initial Concrete.three_lfa_area)
  = TimeBase.Done tt
      (TimeBase.final
         (Uniform._sleep_until Concrete.steady 10 (45 # 1000)%Q
            (Uniform.initial Concrete.three_lfa_area)))
  /\ TimeBase.tick (Uniform.initial (T:=Q) Concrete.three_lfa_area)
     < TimeBase.tick
         (TimeBase.final
            (Uniform._sleep_until Concrete.steady 10 (45 # 1000)%Q
               (Uniform.initial Concrete.three_lfa_area))).
Proof.
  assert (Hs : Uniform._sleep_until Concrete.steady 10 (45 # 1000)%Q
                 (Uniform.initial Concrete.three_lfa_area)
               = TimeBase.Done tt
                   (TimeBase.final
                      (Uniform._sleep_until Concrete.steady 10 (45 # 1000)%Q
                         (Uniform.initial Concrete.three_lfa_area))))
    by (vm_compute; reflexivity).
  split; [exact Hs |].
  exact (proj1 (X18_sleep_until_returns_past_the_deadline _ _ _ _ _ Hs)).
Defined.

(** ** The constructor of the uniform profile and the rate cap *)

Section UniformInitFacts.
Import Py RateCap UniformInit PrimFloat.
Context `{Runtime} `{FloatRuntime}.
Local Open Scope float_scope.

Lemma period_nonneg (period_s rate_hz : float) :
  ge (if ge period_s 0 then period_s
      else if gt rate_hz 0 then 1 / rate_hz else 0) 0 = true.
Proof.
  destruct (ge period_s 0) eqn:Hp; [exact Hp |].
  destruct (gt rate_hz 0) eqn:Hr; [| reflexivity].
  apply recip_nonneg. exact Hr.
Qed.

Lemma pop_first_absent (keys : list string) (kw : gmap string value) :
  Forall (fun k => kw !! k = None) keys -> pop_first keys kw = (PNone, kw).
Proof.
  induction 1 as [|k keys Hk _ IH]; [reflexivity |]. simpl. now rewrite Hk.
Qed.

Lemma init_kw_period (kw : gmap string value) (tx ack : bool) :
  Uniform.period (init_kw kw tx ack) =
    let period_s :=
      _coerce_float (fst (pop_first ["period_s"; "period"; "period_sec"] kw)) (-1) in
    let rate_hz :=
      _coerce_float
        (fst (pop_first ["rate_hz"; "rate"; "hz"; "freq_hz"; "frequency_hz"]
                (snd (pop_first ["period_s"; "period"; "period_sec"] kw)))) 1 in
    if ge period_s 0 then period_s
    else if gt rate_hz 0 then 1 / rate_hz else 0.
Proof.
  unfold init_kw.
  destruct (pop_first ["period_s"; "period"; "period_sec"] kw) as [pv kw1].
  cbn [fst snd].
  destruct (pop_first ["rate_hz"; "rate"; "hz"; "freq_hz"; "frequency_hz"] kw1)
    as [rv kw2].
  cbn [fst snd].
  destruct (bool_decide (is_Some (kw2 !! "duration_s"))
            || bool_decide (is_Some (kw2 !! "duration"))); reflexivity.
Qed.

Lemma init_kw_duration (kw : gmap string value) (tx ack : bool) (d : float) :
  Uniform.duration_s (init_kw kw tx ack) = Some d -> gt d 0 = true.
Proof.
  unfold init_kw.
  destruct (pop_first ["period_s"; "period"; "period_sec"] kw) as [pv kw1].
  destruct (pop_first ["rate_hz"; "rate"; "hz"; "freq_hz"; "frequency_hz"] kw1)
    as [rv kw2].
  destruct (bool_decide (is_Some (kw2 !! "duration_s"))
            || bool_decide (is_Some (kw2 !! "duration"))).
  - unfold pop. cbn [Uniform.duration_s].
    destruct (default (default PNone (kw2 !! "duration"))
                (delete "duration" kw2 !! "duration_s")) as [|s|z];
      try discriminate.
    + destruct (gt _ 0) eqn:Hg; [| discriminate]. intros [= <-]. exact Hg.
    + destruct (gt _ 0) eqn:Hg; [| discriminate]. intros [= <-]. exact Hg.
  - discriminate.
Qed.

Lemma init_kw_startup (kw : gmap string value) (tx ack : bool) :
  exists x, Uniform._startup_delay_s (init_kw kw tx ack) = py_max 0 x.
Proof.
  unfold init_kw.
  destruct (pop_first ["period_s"; "period"; "period_sec"] kw) as [pv kw1].
  destruct (pop_first ["rate_hz"; "rate"; "hz"; "freq_hz"; "frequency_hz"] kw1)
    as [rv kw2].
  destruct (bool_decide (is_Some (kw2 !! "duration_s"))
            || bool_decide (is_Some (kw2 !! "duration")));
    eexists; reflexivity.
Qed.

End UniformInitFacts.

Section UniformInitClaims.
Import PrimFloat.
Local Open Scope float_scope.

(** X19: whatever keyword arguments it is given, the constructor of the
    uniform profile settles on a period that is a number and not
    negative, a duration that is positive when there is one, and a
    start-up delay that is a number and not negative; given none of the
    keys it reads the cadence from, the period is one second. *)
Theorem X19_constructor_settles_sane_timing `{Py.Runtime} `{RateCap.FloatRuntime}
    (kwargs : list (string * Py.value)) (tx_echo ack_tracker : bool) :
  let cfg := UniformInit.init kwargs tx_echo ack_tracker in
  RateCap.ge (Uniform.period cfg) 0 = true
  /\ (forall d, Uniform.duration_s cfg = Some d -> RateCap.gt d 0 = true)
  /\ RateCap.ge (Uniform._startup_delay_s cfg) 0 = true
  /\ (Forall (fun k => UniformInit._norm_keys kwargs !! k = None)
        UniformInit.cadence_keys ->
      Uniform.period cfg = 1).
Proof.
  intros cfg. subst cfg. unfold UniformInit.init.
  split; [rewrite init_kw_period; apply period_nonneg |].
  split; [intros d; apply init_kw_duration |].
  split.
  { destruct (init_kw_startup (UniformInit._norm_keys kwargs) tx_echo ack_tracker)
      as [x ->]. now apply py_max_lower. }
  intros Habs. rewrite init_kw_period.
  unfold UniformInit.cadence_keys in Habs.
  rewrite (pop_first_absent ["period_s"; "period"; "period_sec"]).
  2:{ repeat (apply Forall_cons in Habs as [? Habs]). repeat constructor; assumption. }
  cbn [fst snd].
  rewrite (pop_first_absent ["rate_hz"; "rate"; "hz"; "freq_hz"; "frequency_hz"]).
  2:{ repeat (apply Forall_cons in Habs as [? Habs]). repeat constructor; assumption. }
  reflexivity.
Qed.



(** X21: the reconciliation looks for the rate under [rate_hz] and
    [period_s] only, while the constructor of the uniform profile also
    reads it from [rate], [hz], [freq_hz], [frequency_hz], [period] and
    [period_sec].  So when a positive rate [r] is given as [hz] and none
    of the keys before it is there, the arguments pass unchanged, no
    request and no capping is reported, and the profile runs with the
    period [1.0 / r], also when [r] is above the cap; the same text under
    [rate_hz] is capped: with a positive cap below [r] the reconciliation
    reports the capping and writes the cap into [rate_hz] and
    [1.0 / cap] into [period_s]. *)
Theorem X21_rate_synonyms_escape_the_cap `{Py.Runtime} `{RateCap.FloatRuntime}
    (st : RateCap.settings) (time_kwargs : gmap string string)
    (cap r : float) (v : string)
    (kwargs : list (string * Py.value)) (tx_echo ack_tracker : bool) :
  RateCap._compute_platform_max_rate_hz st = Some cap ->
  Forall (fun k => time_kwargs !! k = None)
    ["rate_hz"; "period_s"; "period"; "period_sec"; "rate"] ->
  time_kwargs !! "hz" = Some v ->
  RateCap.float_of_str v = Some r ->
  RateCap.gt r 0 = true ->
  UniformInit._norm_keys kwargs = Py.PStr <$> time_kwargs ->
  RateCap._reconcile_and_cap_time_kwargs st time_kwargs
    = Some (time_kwargs, None, cap, None)
  /\ Uniform.period (UniformInit.init kwargs tx_echo ack_tracker) = 1 / r
  /\ (RateCap.gt cap 0 = true -> RateCap.gt r cap = true ->
      exists info,
        RateCap._reconcile_and_cap_time_kwargs st (<["rate_hz" := v]> time_kwargs)
        = Some (<["period_s" := RateCap.format_12g (1 / cap)]>
                  (<["rate_hz" := RateCap.format_12g cap]>
                     (<["rate_hz" := v]> time_kwargs)),
                Some r, cap, Some info)
        /\ RateCap.info_eff info = cap).
Proof.
  intros Hcap Habs Hhz Hfloat Hr Hpass.
  apply Forall_cons in Habs as [Hrate_hz Habs].
  apply Forall_cons in Habs as [Hperiod_s Habs].
  apply Forall_cons in Habs as [Hperiod Habs].
  apply Forall_cons in Habs as [Hperiod_sec Habs].
  apply Forall_cons in Habs as [Hrate _].
  split; [| split].
  - unfold RateCap._reconcile_and_cap_time_kwargs, RateCap._resolve_requested_rate_hz.
    rewrite Hrate_hz, Hperiod_s, Hcap. reflexivity.
  - unfold UniformInit.init. rewrite init_kw_period, Hpass.
    cbn [UniformInit.pop_first]. rewrite !lookup_fmap.
    rewrite Hperiod_s, Hperiod, Hperiod_sec. cbn [fmap option_fmap option_map fst snd].
    rewrite !lookup_fmap, Hrate_hz, Hrate, Hhz.
    cbn [fmap option_fmap option_map fst snd].
    cbn [UniformInit._coerce_float UniformInit.py_float]. rewrite Hfloat. cbv zeta.
    replace (RateCap.ge (-1) 0) with false by reflexivity.
    now rewrite Hr.
  - intros Hc Hrc.
    unfold RateCap._reconcile_and_cap_time_kwargs, RateCap._resolve_requested_rate_hz.
    rewrite lookup_insert_eq, Hfloat, Hcap.
    unfold RateCap.eff_rate_of, RateCap.py_min. rewrite Hc, Hrc. cbn [andb].
    rewrite !Hc. eexists. split; reflexivity.
Qed.

Lemma X21_rate_synonyms_escape_the_cap_witness :
  RateCap._reconcile_and_cap_time_kwargs
    Samples.default_settings {[ "hz" := "50000" ]}
  = Some ({[ "hz" := "50000" ]}, None, 10000, None)
  /\ Uniform.period (UniformInit.init [("hz", Py.PStr "50000")] true true)
     = 1 / 50000.
Proof.
  assert (Hcap : RateCap._compute_platform_max_rate_hz Samples.default_settings
                 = Some 10000) by reflexivity.
  assert (Habs : Forall (fun k => ({[ "hz" := "50000" ]} : gmap string string) !! k = None)
                   ["rate_hz"; "period_s"; "period"; "period_sec"; "rate"])
    by (repeat constructor).
  assert (Hhz : ({[ "hz" := "50000" ]} : gmap string string) !! "hz" = Some "50000")
    by reflexivity.
  assert (Hfloat : RateCap.float_of_str "50000" = Some 50000) by reflexivity.
  assert (Hr : RateCap.gt 50000 0 = true) by reflexivity.
  assert (Hpass : UniformInit._norm_keys [("hz", Py.PStr "50000")]
                  = Py.PStr <$> ({[ "hz" := "50000" ]} : gmap string string))
    by (vm_compute; reflexivity).
  destruct (X21_rate_synonyms_escape_the_cap
              Samples.default_settings _ _ _ _ _ true true
              Hcap Habs Hhz Hfloat Hr Hpass) as (H1 & H2 & _).
  split; [exact H1 | exact H2].
Defined.

(** In binary64 the period [1.0 / r] times a cap below [r] need not be
    below 1: here it is 1. *)
Example period_times_cap_rounds_to_one :
  let r := next_down 2 in
  let cap := next_down r in
  RateCap.gt r cap = true /\ (1 / r) * cap = 1.
Proof. split; reflexivity. Qed.

End UniformInitClaims.

(** ** The platform cap and the reconciliation *)

Section PlatformCapClaims.
Import PrimFloat.
Local Open Scope float_scope.

(** X22: when the platform maximum can be computed it is a number that
    is not negative, is at most the UART cap when that is positive, and is
    zero when the safety derate is zero or negative. *)
Theorem X22_platform_cap_bounds (st : RateCap.settings) (cap : float) :
  RateCap._compute_platform_max_rate_hz st = Some cap ->
  RateCap.ge cap 0 = true
  /\ (RateCap.gt (default 0 (RateCap.INJECTION_RATE_UART_CAP_HZ st)) 0 = true ->
      RateCap.ge (default 0 (RateCap.INJECTION_RATE_UART_CAP_HZ st)) cap = true)
  /\ (RateCap.ge 0 (default 1 (RateCap.INJECTION_RATE_SAFETY_DERATE st)) = true ->
      cap = 0).
Proof.
  intros Hcap. split; [exact (cap_nonneg st cap Hcap) |].
  revert Hcap. unfold RateCap._compute_platform_max_rate_hz. cbv zeta.
  set (derate := default 1 (RateCap.INJECTION_RATE_SAFETY_DERATE st)).
  set (uart := default 0 (RateCap.INJECTION_RATE_UART_CAP_HZ st)).
  destruct (RateCap.recip _) as [r|]; [| discriminate].
  set (m0 := r * RateCap.py_max 0 (RateCap.py_min 1 derate)).
  intros [= <-]. split.
  - intros Hu. rewrite Hu.
    unfold RateCap.py_max at 1. unfold RateCap.gt at 1.
    destruct (0 <? RateCap.py_min m0 uart) eqn:Hpos.
    + apply ltb_numbers in Hpos as [_ Hnum].
      unfold RateCap.py_min, RateCap.gt, RateCap.ge in *.
      destruct (uart <? m0) eqn:Hlt.
      * now apply leb_refl.
      * apply leb_total; [exact Hnum | | exact Hlt].
        apply (ltb_numbers 0 uart Hu).
    + unfold RateCap.ge. now apply ltb_leb.
  - intros Hd. unfold RateCap.ge in Hd.
    assert (Hfactor : RateCap.py_max 0 (RateCap.py_min 1 derate) = 0).
    { unfold RateCap.py_min, RateCap.gt.
      rewrite (nonpositive_below_one derate Hd).
      unfold RateCap.py_max, RateCap.gt.
      destruct (0 <? derate) eqn:Hpos; [| reflexivity].
      apply ltb_not_leb in Hpos. congruence. }
    assert (Hm0 : (0 <? m0) = false).
    { subst m0. rewrite Hfactor. apply mul_zero_not_positive. }
    assert (Hm1 : (if RateCap.gt uart 0 then RateCap.py_min m0 uart else m0) = m0).
    { destruct (RateCap.gt uart 0) eqn:Hu; [| reflexivity].
      unfold RateCap.py_min, RateCap.gt in *.
      destruct (uart <? m0) eqn:Hlt; [| reflexivity].
      rewrite (above_positive uart m0 Hu Hlt) in Hm0. discriminate. }
    rewrite Hm1. unfold RateCap.py_max, RateCap.gt. now rewrite Hm0.
Qed.

Lemma X22_platform_cap_bounds_witness :
  RateCap._compute_platform_max_rate_hz Samples.default_settings = Some 10000
  /\ RateCap.ge 10000 0 = true.
Proof.
  assert (Hcap : RateCap._compute_platform_max_rate_hz Samples.default_settings
                 = Some 10000) by reflexivity.
  split; [exact Hcap |].
  exact (proj1 (X22_platform_cap_bounds Samples.default_settings 10000 Hcap)).
Defined.

(** The computation fails when the latency, as computed, is a zero: an
    ICAP frequency small enough underflows to it; with an ICAP frequency
    of zero and an infinite latency it does not fail. *)
Example tiny_icap_frequency_underflows :
  RateCap._compute_platform_max_rate_hz
    {| RateCap.SEM_ICAP_FMAX_HZ := Some 0x0.00000000007e8p-1022;
       RateCap.SEM_FREQ_HZ := None;
       RateCap.SEM_INJECT_LATENCY_US_AT_FMAX := None;
       RateCap.INJECTION_RATE_SAFETY_DERATE := None;
       RateCap.INJECTION_RATE_UART_CAP_HZ := None |} = None
  /\ RateCap._compute_platform_max_rate_hz
       {| RateCap.SEM_ICAP_FMAX_HZ := Some 0;
          RateCap.SEM_FREQ_HZ := None;
          RateCap.SEM_INJECT_LATENCY_US_AT_FMAX := Some infinity;
          RateCap.INJECTION_RATE_SAFETY_DERATE := None;
          RateCap.INJECTION_RATE_UART_CAP_HZ := None |} = Some 0.
Proof. split; reflexivity. Qed.

(** X23: the reconciliation changes nothing but the keys [rate_hz] and
    [period_s]; with no rate asked for it returns the arguments as they
    are and no message; with a rate asked for it produces the capping
    message exactly when the cap is positive and the rate asked for
    exceeds it, and the message then carries the rate asked for, the cap,
    and the cap again as the rate settled on. *)
Theorem X23_reconciliation_touches_only_the_rate `{RateCap.FloatRuntime}
    (st : RateCap.settings) (time_kwargs new : gmap string string)
    (req : option float) (cap : float) (msg : option RateCap.cap_info) :
  RateCap._reconcile_and_cap_time_kwargs st time_kwargs = Some (new, req, cap, msg) ->
  (forall k, k <> "rate_hz" -> k <> "period_s" -> new !! k = time_kwargs !! k)
  /\ (req = None -> new = time_kwargs /\ msg = None)
  /\ (forall r, req = Some r ->
        (msg <> None <-> RateCap.gt cap 0 = true /\ RateCap.gt r cap = true)
        /\ (forall i, msg = Some i ->
              RateCap.info_req i = r /\ RateCap.info_cap i = cap
              /\ RateCap.info_eff i = cap)).
Proof.
  unfold RateCap._reconcile_and_cap_time_kwargs.
  destruct (RateCap._resolve_requested_rate_hz time_kwargs) as [[r|] src];
    destruct (RateCap._compute_platform_max_rate_hz st) as [c|]; try discriminate.
  - intros [= <- <- <- <-]. split; [| split; [discriminate |]].
    + intros k Hk1 Hk2. destruct (RateCap.gt (RateCap.eff_rate_of r c) 0); [| reflexivity].
      rewrite !lookup_insert_ne by congruence. reflexivity.
    + intros r' [= <-].
      destruct (RateCap.gt c 0) eqn:Hc; destruct (RateCap.gt r c) eqn:Hr; cbn [andb].
      * split; [split; [auto | congruence] |].
        intros i [= <-]. cbn. split; [reflexivity |]. split; [reflexivity |].
        unfold RateCap.eff_rate_of, RateCap.py_min. now rewrite Hc, Hr.
      * split; [| discriminate]. split; [congruence |]. intros [_ Hx]. discriminate.
      * split; [| discriminate]. split; [congruence |]. intros [Hx _]. discriminate.
      * split; [| discriminate]. split; [congruence |]. intros [Hx _]. discriminate.
  - intros [= <- <- <- <-]. split; [reflexivity |]. split; [auto | discriminate].
Qed.

Lemma X23_reconciliation_touches_only_the_rate_witness :
  exists new cap i,
    RateCap._reconcile_and_cap_time_kwargs
      Samples.default_settings {[ "rate_hz" := "20000"; "ack" := "true" ]}
    = Some (new, Some 20000, cap, Some i)
    /\ new !! "ack" = Some "true"
    /\ RateCap.info_eff i = cap.
Proof.
  destruct (RateCap._reconcile_and_cap_time_kwargs
              Samples.default_settings {[ "rate_hz" := "20000"; "ack" := "true" ]})
    as [[[[new req] cap] [i|]]|] eqn:Hrec;
    try (exfalso; vm_compute in Hrec; discriminate Hrec).
  assert (Hreq : req = Some 20000).
  { pose proof Hrec as Hv. vm_compute in Hv. now injection Hv as _ <- _ _. }
  subst req.
  destruct (X23_reconciliation_touches_only_the_rate _ _ _ _ _ _ Hrec)
    as (Hkeys & _ & Hmsg).
  exists new, cap, i. split; [reflexivity |]. split.
  - rewrite (Hkeys "ack") by discriminate. reflexivity.
  - exact (proj2 (proj2 (proj2 (Hmsg _ eq_refl) i eq_refl))).
Defined.

End PlatformCapClaims.

(** ** Runs that end whatever the area *)

Section SchedulerLiveness.
Import AreaBase TimeBase Uniform.
Context {T : Type} `{Arith T} {A : Type} `{AreaProfile A}.
Variable e : env T.
Variable cfg : config (T:=T).
Hypothesis Hund : undisturbed e.
Hypothesis Hprog : progressive e.
Variable t0 : T.

Local Open Scope sched_scope.









End SchedulerLiveness.





(** ** The MODULES area profile *)

Section ModulesFacts.
Import Py AreaBase AreaBaseLists Modules.
Context `{Runtime} `{PathRuntime}.

Lemma dedupe_spec (l : list string) :
  NoDup (dedupe_preserve_order l)
  /\ forall x, x ∈ dedupe_preserve_order l <-> x ∈ l.
Proof.
  unfold dedupe_preserve_order.
  destruct (dedupe_fold l ∅ []) as (_ & H2 & H3 & _).
  { intros y. rewrite elem_of_nil. set_solver. }
  { constructor. }
  split; [exact H2 |]. intros x. rewrite H3, elem_of_nil. tauto.
Qed.

Lemma dedupe_perm (l k : list string) :
  Permutation l k ->
  Permutation (dedupe_preserve_order l) (dedupe_preserve_order k).
Proof.
  intros Hp. apply NoDup_Permutation; try apply dedupe_spec.
  intros x. rewrite !(proj2 (dedupe_spec _)). now rewrite Hp.
Qed.

Lemma round_robin_merge_perm (lists : list (list string)) (fuel : nat) :
  max_list (length <$> lists) < fuel ->
  exists out, round_robin_merge fuel lists = Some out
              /\ Permutation out (concat lists).
Proof.
  intros Hfuel. eexists. split.
  - unfold round_robin_merge.
    assert (H0' : map (fun lst : list string => (lst, false)) lists
                  = map (at_pass 0) lists).
    { apply map_ext. intros l. unfold at_pass. rewrite drop_0. reflexivity. }
    rewrite H0', (alive_all lists).
    rewrite (rr_loop_from lists (max_list (length <$> lists)) 0 [] fuel);
      [reflexivity | reflexivity | exact Hfuel].
  - apply columns_perm. apply Forall_forall. intros l Hl.
    apply max_list_elem_of_le. apply list_elem_of_fmap.
    exists l. split; [reflexivity | exact Hl].
Qed.

Lemma apply_ordering_perm (l : list string) (order : string) (seed : option Z)
    (os_entropy : N) :
  Permutation (apply_ordering l order seed os_entropy) l.
Proof.
  unfold apply_ordering.
  destruct (String.eqb _ "shuffle"); [apply random_shuffle_perm | reflexivity].
Qed.

Lemma load_all_spec (fs : string -> option (list string)) (files : list string) :
  match load_all fs files with
  | inl UnexpectedKeyword | inl NoSource => False
  | inl (CannotOpen p) =>
      exists before after,
        files = before ++ p :: after /\ fs p = None
        /\ Forall (fun q => fs q <> None) before
  | inr lists => loaded fs files lists
  end.
Proof.
  induction files as [|p rest IH]; [constructor |].
  cbn [load_all]. destruct (fs p) as [raws|] eqn:Hp.
  - destruct (load_all fs rest) as [[| |q] | lists].
    + exact IH.
    + exact IH.
    + destruct IH as (before & after & -> & Hq & Hall).
      exists (p :: before), after. split; [reflexivity |]. split; [exact Hq |].
      constructor; [congruence | exact Hall].
    + constructor; [exists raws; auto | exact IH].
  - exists [], rest. split; [reflexivity |]. split; [exact Hp | constructor].
Qed.


Lemma setdefault_has (key value : string) (d : gmap string string) :
  is_Some (LoadArea.setdefault key value d !! key).
Proof.
  unfold LoadArea.setdefault. destruct (bool_decide (is_Some (d !! key))) eqn:Hd.
  - now apply bool_decide_eq_true in Hd.
  - rewrite lookup_insert_eq. eauto.
Qed.

Lemma setdefault_keeps (key value k : string) (d : gmap string string) :
  is_Some (d !! k) -> is_Some (LoadArea.setdefault key value d !! k).
Proof.
  intros Hk. unfold LoadArea.setdefault.
  destruct (bool_decide (is_Some (d !! key))); [exact Hk |].
  destruct (decide (key = k)) as [-> | Hne].
  - rewrite lookup_insert_eq. eauto.
  - now rewrite lookup_insert_ne.
Qed.

Lemma area_kwargs_run_name (area_args : string) (global_seed : Z)
    (run_name session : string) :
  is_Some (LoadArea.area_kwargs area_args global_seed run_name session !! "run_name").
Proof.
  unfold LoadArea.area_kwargs. apply setdefault_keeps, setdefault_has.
Qed.

Lemma run_name_no_parameter : "run_name" ∉ Modules.parameters.
Proof.
  unfold Modules.parameters. intros Hin.
  repeat (apply elem_of_cons in Hin as [Hin | Hin]; [discriminate Hin |]).
  now apply elem_of_nil in Hin.
Qed.

End ModulesFacts.

(** What the body of the constructor does with its parameters. *)
Lemma modules_body_spec
    `{Py.Runtime} `{Modules.PathRuntime}
    (fs : string -> option (list string))
    (path paths label labels : option string) (root : string)
    (mode : option string) (strategy order : string)
    (dedupe : Modules.flag) (seed : Py.value) (os_entropy : N) :
  exists bound, forall fuel, bound <= fuel ->
    match Modules.body fs path paths label labels root mode strategy order
            dedupe seed os_entropy fuel with
    | None | Some (inl Modules.UnexpectedKeyword) => False
    | Some (inl Modules.NoSource) =>
        Modules.file_list path paths label labels root = []
    | Some (inl (Modules.CannotOpen p)) =>
        exists before after,
          AreaBaseLists.dedupe_preserve_order
            (Modules.file_list path paths label labels root)
          = before ++ p :: after
          /\ fs p = None /\ Forall (fun q => fs q <> None) before
    | Some (inr pr) =>
        Modules._files pr
        = AreaBaseLists.dedupe_preserve_order
            (Modules.file_list path paths label labels root)
        /\ Modules._files pr <> []
        /\ (Modules._order pr = "sequential" \/ Modules._order pr = "shuffle")
        /\ (Modules.given mode = true ->
            (Modules._strategy pr, Modules._order pr) = Modules._mode_to_merge mode)
        /\ exists lists,
             Modules.loaded fs (Modules._files pr) lists
             /\ let all := if Modules._dedup pr
                           then AreaBaseLists.dedupe_preserve_order (concat lists)
                           else concat lists in
                Permutation (Modules.iter_addresses pr) all
                /\ (Modules._dedup pr = true -> NoDup (Modules.iter_addresses pr))
                /\ (Modules._strategy pr <> "roundrobin" ->
                    Modules._order pr = "sequential" ->
                    Modules.iter_addresses pr = all)
    end.
Proof.
  pose proof (load_all_spec fs
                (AreaBaseLists.dedupe_preserve_order
                   (Modules.file_list path paths label labels root))) as Hload.
  exists (match Modules.load_all fs
                  (AreaBaseLists.dedupe_preserve_order
                     (Modules.file_list path paths label labels root)) with
          | inr lists => S (max_list (length <$> lists))
          | inl _ => 0
          end).
  intros fuel Hfuel. unfold Modules.body.
  destruct (Modules._mode_to_merge mode) as [mode_strategy mode_order] eqn:Hmode.
  destruct (Modules.file_list path paths label labels root) as [|f0 fl] eqn:Hfl;
    [reflexivity |].
  cbn [length Nat.eqb].
  destruct (Modules.load_all fs (AreaBaseLists.dedupe_preserve_order (f0 :: fl)))
    as [[| |p] | lists] eqn:Hl; [contradiction | contradiction | exact Hload |].
  set (eff_strategy := PyStr.lower (PyStr.strip
         (if Modules.given mode then mode_strategy
          else if String.eqb strategy "" then "concat" else strategy))).
  set (eff_order := PyStr.lower (PyStr.strip
         (if Modules.given mode then mode_order
          else if String.eqb order "" then "sequential" else order))).
  set (ord := if String.eqb eff_order "sequential" || String.eqb eff_order "shuffle"
              then eff_order else "sequential").
  assert (Hord : ord = "sequential" \/ ord = "shuffle").
  { subst ord. destruct (String.eqb eff_order "sequential") eqn:E1.
    - left. now apply String.eqb_eq in E1.
    - destruct (String.eqb eff_order "shuffle") eqn:E2; [| now left].
      right. now apply String.eqb_eq in E2. }
  assert (Hgiven : Modules.given mode = true ->
            (eff_strategy, ord) = (mode_strategy, mode_order)).
  { intros Hg. subst ord eff_strategy eff_order. rewrite Hg.
    unfold Modules._mode_to_merge in Hmode. rewrite Hg in Hmode. cbn [negb] in Hmode.
    destruct (String.eqb _ "random");
      [| destruct (_ || _)]; injection Hmode as <- <-; reflexivity. }
  assert (Hne : AreaBaseLists.dedupe_preserve_order (f0 :: fl) <> []).
  { intros Hnil. assert (Hin : f0 ∈ AreaBaseLists.dedupe_preserve_order (f0 :: fl))
      by (apply dedupe_spec; left).
    rewrite Hnil in Hin. now apply elem_of_nil in Hin. }
  assert (Hmerged : exists merged,
            (if String.eqb eff_strategy "roundrobin"
             then AreaBaseLists.round_robin_merge fuel lists
             else Some (concat lists)) = Some merged
            /\ Permutation merged (concat lists)
            /\ (eff_strategy <> "roundrobin" -> merged = concat lists)).
  { destruct (String.eqb eff_strategy "roundrobin") eqn:Es.
    - destruct (round_robin_merge_perm lists fuel) as (out & Ho & Hp); [lia |].
      exists out. split; [exact Ho |]. split; [exact Hp |].
      intros Hn. apply String.eqb_eq in Es. contradiction.
    - exists (concat lists). auto. }
  destruct Hmerged as (merged & -> & Hperm & Hcat).
  cbn [Modules._files Modules._order Modules._strategy Modules._dedup
       Modules.iter_addresses Modules._addresses].
  fold ord.
  split; [reflexivity |]. split; [exact Hne |]. split; [exact Hord |].
  split; [exact Hgiven |].
  exists lists. split; [exact Hload |].
  cbv zeta.
  set (m2 := if Modules._parse_bool dedupe false
             then AreaBaseLists.dedupe_preserve_order merged else merged).
  assert (Hm2 : Permutation m2
            (if Modules._parse_bool dedupe false
             then AreaBaseLists.dedupe_preserve_order (concat lists)
             else concat lists)).
  { subst m2. destruct (Modules._parse_bool dedupe false);
      [apply dedupe_perm |]; exact Hperm. }
  split; [| split].
  - etransitivity; [apply apply_ordering_perm | exact Hm2].
  - intros Hd. rewrite apply_ordering_perm.
    subst m2. rewrite Hd. apply dedupe_spec.
  - intros Hs Ho. rewrite Ho. subst m2. rewrite (Hcat Hs). reflexivity.
Qed.

(** X26: called as [_load_area] calls it, the constructor of the MODULES
    profile raises [TypeError] exactly when a keyword is not one of its
    ten parameters; the keyword arguments [main] prepares always hold
    [run_name], so through the controller it always does.  Given
    parameters only, it fails when no address source is given or a file
    cannot be opened (the first such among its files); otherwise, with
    fuel for the merge loop, it holds the addresses the loader reads from
    its files, each file once: all of them, each as often as the files
    have it, or, with [dedupe], each once; the strategy and the order
    only rearrange them, and with neither round robin nor shuffle they
    stand in file order.  A [mode] decides strategy and order alone, and
    an order that is neither word means sequential. *)
Theorem X26_modules_profile_holds_the_files_addresses
    `{Py.Runtime} `{Modules.PathRuntime}
    (fs : string -> option (list string))
    (kwargs : gmap string string) (os_entropy : N) :
  (forall area_args global_seed run_name session fuel,
     Modules.init fs (LoadArea.area_kwargs area_args global_seed run_name session)
       os_entropy fuel
     = Some (inl Modules.UnexpectedKeyword))
  /\ exists bound, forall fuel, bound <= fuel ->
    let files :=
      Modules.file_list (kwargs !! "path") (kwargs !! "paths")
        (kwargs !! "label") (kwargs !! "labels") (default "" (kwargs !! "root")) in
    match Modules.init fs kwargs os_entropy fuel with
    | None => False
    | Some (inl Modules.UnexpectedKeyword) =>
        exists k, is_Some (kwargs !! k) /\ k ∉ Modules.parameters
    | Some (inl Modules.NoSource) =>
        (forall k, is_Some (kwargs !! k) -> k ∈ Modules.parameters)
        /\ files = []
    | Some (inl (Modules.CannotOpen p)) =>
        (forall k, is_Some (kwargs !! k) -> k ∈ Modules.parameters)
        /\ exists before after,
             AreaBaseLists.dedupe_preserve_order files = before ++ p :: after
             /\ fs p = None /\ Forall (fun q => fs q <> None) before
    | Some (inr pr) =>
        (forall k, is_Some (kwargs !! k) -> k ∈ Modules.parameters)
        /\ Modules._files pr = AreaBaseLists.dedupe_preserve_order files
        /\ Modules._files pr <> []
        /\ (Modules._order pr = "sequential" \/ Modules._order pr = "shuffle")
        /\ (Modules.given (kwargs !! "mode") = true ->
            (Modules._strategy pr, Modules._order pr)
            = Modules._mode_to_merge (kwargs !! "mode"))
        /\ exists lists,
             Modules.loaded fs (Modules._files pr) lists
             /\ let all := if Modules._dedup pr
                           then AreaBaseLists.dedupe_preserve_order (concat lists)
                           else concat lists in
                Permutation (Modules.iter_addresses pr) all
                /\ (Modules._dedup pr = true -> NoDup (Modules.iter_addresses pr))
                /\ (Modules._strategy pr <> "roundrobin" ->
                    Modules._order pr = "sequential" ->
                    Modules.iter_addresses pr = all)
    end.
Proof.
  split.
  - intros area_args global_seed run_name session fuel. unfold Modules.init.
    rewrite bool_decide_eq_false_2; [reflexivity |].
    intros Hsub. apply run_name_no_parameter.
    apply (elem_of_list_to_set (C:=gset string)). apply (Hsub "run_name").
    apply elem_of_dom, area_kwargs_run_name.
  - destruct (modules_body_spec fs
                (kwargs !! "path") (kwargs !! "paths")
                (kwargs !! "label") (kwargs !! "labels")
                (default "" (kwargs !! "root")) (kwargs !! "mode")
                (default "concat" (kwargs !! "strategy"))
                (default "sequential" (kwargs !! "order"))
                (match kwargs !! "dedupe" with
                 | Some s => Modules.FStr s | None => Modules.FNone end)
                (match kwargs !! "seed" with
                 | Some s => Py.PStr s | None => Py.PNone end)
                os_entropy) as [bound Hbody].
    exists bound. intros fuel Hfuel files. specialize (Hbody fuel Hfuel).
    unfold Modules.init.
    destruct (bool_decide (dom kwargs ⊆ list_to_set Modules.parameters)) eqn:Hkeys.
    + apply bool_decide_eq_true in Hkeys.
      assert (Hall : forall k, is_Some (kwargs !! k) -> k ∈ Modules.parameters).
      { intros k Hk. apply (elem_of_list_to_set (C:=gset string)).
        apply Hkeys, elem_of_dom, Hk. }
      destruct (Modules.body _ _ _ _ _ _ _ _ _ _ _ _ _) as [[[| |p] | pr] |];
        try contradiction; fold files in Hbody; split; assumption.
    + apply bool_decide_eq_false in Hkeys.
      destruct (not_set_Forall_Exists (C:=gset string)
                  (fun x => x ∈ (list_to_set Modules.parameters : gset string))
                  (dom kwargs) Hkeys) as (k & Hk & Hnot).
      exists k. split; [now apply elem_of_dom |].
      intros Hin. apply Hnot. now apply (elem_of_list_to_set (C:=gset string)).
Qed.

Example modules_round_robin_deduped :
  exists pr,
    Modules.init (H0:=Samples.plain_paths) Samples.two_modules
      {[ "path" := "a.txt"; "paths" := "a.txt"; "labels" := "b, ,b"; "root" := "m";
         "mode" := " Round-Robin "; "order" := "shuffle"; "dedupe" := "Yes";
         "seed" := "7" ]} 0 4
    = Some (inr pr)
    /\ Modules._files pr = ["a.txt"; "m/b.txt"]
    /\ Modules.iter_addresses pr
       = ["00000000AA"; "00000000bb"; "00000000CC"; "00000000DD"].
Proof. eexists. split; [vm_compute; reflexivity |]. split; reflexivity. Qed.

Example modules_through_the_controller :
  Modules.init (H0:=Samples.plain_paths) Samples.two_modules
    (LoadArea.area_kwargs "path=a.txt,mode=sequential" 7 "run" "ctrl01") 0 4
  = Some (inl Modules.UnexpectedKeyword).
Proof. vm_compute. reflexivity. Qed.
